(** * The LED-cube controller: command handling and interpolation

    A shallow embedding of the command path and of the render-loop
    interpolation of [src/led-cube/stats-gl.cpp]:

    - the hand-written JSON helpers ([skip_ws], [extract_json_string],
      [extract_json_number], [extract_json_array_floats], [parse_hex_color]);
    - the heat gradient [heat_colour_to_bg];
    - the body of the [POST /update] handler of [startRestApi];
    - the interpolation block of the main loop;
    - the rest of an iteration of the main loop: the clock, the age of the
      signal with the blanking test and the [quiet] flag of [GET /status],
      the pixel mapping [map_xy] and the loop that copies the rendered
      buffer to the matrix;
    - the statements of an iteration one by one, with a request of the
      server thread served between any two of them: the handler and the
      interpolation block hold [state_mtx], the other statements of the
      loop do not.

    Numbers.  The program computes with C++ [float].  The embedding is
    written once, over an interface [Float] of the operations the program
    uses, and is read at two instances:

    - [binary32]: IEEE 754 single precision, round to nearest even, as
      [SpecFloat] of the standard library defines it.  This is the
      arithmetic of the program; the closed examples are evaluated in it.
    - [exact]: the rationals, without rounding.  Statements about sizes
      and limits are proved in it.

    What only moves values around (which field a request assigns, what
    heat mode forces) is proved for every instance.

    [std::stof] belongs to the C++ library, not to the program.  The handler
    is written over an arbitrary [stof : string -> option F] ([None] stands
    for the exception it throws); the general theorems hold for every such
    function.  Closed examples use [stof_decimal], the decimal part of its
    grammar. *)

From Stdlib Require Import Bool Arith ZArith QArith Lqa Lia List Ascii String.
From Stdlib Require Import SpecFloat.
Import ListNotations.

Local Open Scope string_scope.
Local Open Scope Q_scope.

(** ** Characters and strings *)

Definition dquote : ascii := "034"%char.
Definition LF : ascii := "010"%char.
Definition CR : ascii := "013"%char.
Definition TAB : ascii := "009"%char.

(** The key between two double quotes: the text the helpers search for. *)
Definition quoted (key : string) : string :=
  String dquote (key ++ String dquote EmptyString).

(** [s.substr(i)]: the text from position [i] on. *)
Definition suffix_from (i : nat) (s : string) : string :=
  substring i (String.length s - i) s.

(** Number of leading characters of [s] that satisfy [keep]: the count of
    iterations of a loop [while (j < s.size() && keep(s[j])) j++]. *)
Fixpoint span_len (keep : ascii -> bool) (s : string) : nat :=
  match s with
  | String c s' => if keep c then S (span_len keep s') else O
  | EmptyString => O
  end.

(** The loop [while (j < s.size() && keep(s[j])) j++] started at [j]. *)
Definition scan_while (keep : ascii -> bool) (s : string) (j : nat) : nat :=
  (j + span_len keep (suffix_from j s))%nat.

Definition is_json_ws (c : ascii) : bool :=
  ((c =? " ") || (c =? LF) || (c =? CR) || (c =? TAB))%char.

Definition skip_ws (s : string) (i : nat) : nat := scan_while is_json_ws s i.

(** [std::isspace] in the C locale: space and the characters 9..13. *)
Definition isspace (c : ascii) : bool :=
  let n := nat_of_ascii c in
  ((n =? 32) || ((9 <=? n) && (n <=? 13)))%nat.

Fixpoint drop_while (p : ascii -> bool) (s : string) : string :=
  match s with
  | String c s' => if p c then drop_while p s' else s
  | EmptyString => EmptyString
  end.

Fixpoint string_rev_onto (s acc : string) : string :=
  match s with
  | String c s' => string_rev_onto s' (String c acc)
  | EmptyString => acc
  end.

Definition string_rev (s : string) : string := string_rev_onto s EmptyString.

(** The two [erase] calls of [extract_json_array_floats]: leading, then
    trailing white space. *)
Definition trim (val : string) : string :=
  string_rev (drop_while isspace (string_rev (drop_while isspace val))).

(** ** Minimal JSON helpers *)

Definition extract_json_string (body key : string) : option string :=
  match index 0 (quoted key) body with
  | None => None
  | Some k =>
    match index k ":" body with
    | None => None
    | Some colon =>
      let i := skip_ws body (colon + 1) in
      match get i body with
      | None => None
      | Some c =>
        if negb (c =? dquote)%char then None
        else
          let i := S i in
          let j := scan_while (fun ch => negb (ch =? dquote)%char) body i in
          if (String.length body <=? j)%nat then None
          else Some (substring i (j - i) body)
      end
    end
  end.

Definition number_char (c : ascii) : bool :=
  negb ((c =? ",") || (c =? "}") || (c =? "]") || (c =? LF) || (c =? CR))%char.

(** [std::getline(ss, val, ',')]: the characters up to the delimiter, and
    the rest of the stream after it ([None] once the end was reached). *)
Fixpoint getline (delim : ascii) (s : string) : string * option string :=
  match s with
  | EmptyString => (EmptyString, None)
  | String c s' =>
    if (c =? delim)%char then (EmptyString, Some s')
    else let (l, r) := getline delim s' in (String c l, r)
  end.

(** The values successive [getline] calls deliver; a call on an exhausted
    stream extracts nothing and fails, which ends the loop. *)
Fixpoint getlines (fuel : nat) (delim : ascii) (s : string) : list string :=
  match fuel with
  | O => []
  | S fuel' =>
    match s with
    | EmptyString => []
    | _ =>
      let (l, r) := getline delim s in
      l :: match r with
           | Some s' => getlines fuel' delim s'
           | None => []
           end
    end
  end.


(** The lambda [hex2] of [parse_hex_color]; [-1] for a character that is not
    a hexadecimal digit. *)
Definition hex2 (c : ascii) : Z :=
  let n := Z.of_nat (nat_of_ascii c) in
  if ((48 <=? n) && (n <=? 57))%Z then (n - 48)%Z
  else if ((97 <=? n) && (n <=? 102))%Z then (10 + (n - 97))%Z
  else if ((65 <=? n) && (n <=? 70))%Z then (10 + (n - 65))%Z
  else (-1)%Z.

(** ** Decimal text *)

Definition is_digit (c : ascii) : bool :=
  let n := nat_of_ascii c in ((48 <=? n) && (n <=? 57))%nat.

Definition digit_val (c : ascii) : Z := (Z.of_nat (nat_of_ascii c) - 48)%Z.

(** Reads a run of digits: the number read so far, the count of digits and
    the rest. *)
Fixpoint take_digits (s : string) (acc : Z) (n : nat) : Z * nat * string :=
  match s with
  | String c s' =>
    if is_digit c then take_digits s' (10 * acc + digit_val c)%Z (S n) else (acc, n, s)
  | EmptyString => (acc, n, s)
  end.

Definition take_sign (s : string) : bool * string :=
  match s with
  | String c s' =>
    if (c =? "-")%char then (true, s')
    else if (c =? "+")%char then (false, s')
    else (false, s)
  | EmptyString => (false, s)
  end.

(** The exponent part, [0] when there is none. *)
Definition take_exponent (s : string) : Z :=
  match s with
  | String c s' =>
    if ((c =? "e") || (c =? "E"))%char then
      let (neg, s'') := take_sign s' in
      let '(e, n, _) := take_digits s'' 0%Z O in
      if (n =? 0)%nat then 0%Z else if neg then (- e)%Z else e
    else 0%Z
  | EmptyString => 0%Z
  end.

(** [m * 10^e] *)
Definition scale10 (m e : Z) : Q :=
  if (0 <=? e)%Z then inject_Z (m * 10 ^ e)
  else Qred (m # Z.to_pos (10 ^ (- e))).

(** The number a decimal text denotes: optional white space, sign, digits
    with an optional point, optional exponent; what follows is ignored.
    [None] when no digit is found. *)
Definition decimal_value (str : string) : option Q :=
  let (neg, s) := take_sign (drop_while isspace str) in
  let '(ip, ni, s) := take_digits s 0%Z O in
  let '(m, nf, s) :=
    match s with
    | String c s' => if (c =? ".")%char then take_digits s' ip O else (ip, O, s)
    | EmptyString => (ip, O, s)
    end in
  if (ni + nf =? 0)%nat then None
  else
    let q := scale10 m (take_exponent s - Z.of_nat nf) in
    Some (if neg then - q else q).

(** ** The arithmetic of [float] *)

(** The operations on [float] the program uses.  [lit q] is the [float] a
    decimal constant [q] of the source denotes. *)
Class Float (F : Type) : Type := {
  lit : Q -> F;
  f_add : F -> F -> F;
  f_sub : F -> F -> F;
  f_mul : F -> F -> F;
  f_div : F -> F -> F;
  f_neg : F -> F;
  f_lt : F -> F -> bool;
  f_le : F -> F -> bool;
  f_finite : F -> bool
}.

Arguments lit {F _} q%_Q.

Declare Scope cfloat_scope.
Delimit Scope cfloat_scope with cf.
Infix "+" := f_add : cfloat_scope.
Infix "-" := f_sub : cfloat_scope.
Infix "*" := f_mul : cfloat_scope.
Infix "/" := f_div : cfloat_scope.
Notation "- x" := (f_neg x) : cfloat_scope.
Infix "<?" := f_lt : cfloat_scope.
Infix "<=?" := f_le : cfloat_scope.

(** [operator<] on exact numbers. *)
Definition Qltb (x y : Q) : bool := negb (Qle_bool y x).

(** Exact arithmetic. *)
#[export] Instance exact : Float Q := {
  lit := fun q => q;
  f_add := Qplus;
  f_sub := Qminus;
  f_mul := Qmult;
  f_div := Qdiv;
  f_neg := Qopp;
  f_lt := Qltb;
  f_le := Qle_bool;
  f_finite := fun _ => true
}.

(** Single precision: 24 bits of precision, exponents up to 128. *)
Definition prec : Z := 24.
Definition emax : Z := 128.

(** The [float] nearest to a rational: the correctly rounded quotient of
    numerator and denominator. *)
Definition round32 (q : Q) : spec_float :=
  match Qnum q with
  | Z0 => S754_zero false
  | Zpos p => SFdiv prec emax (S754_finite false p 0) (S754_finite false (Qden q) 0)
  | Zneg p => SFdiv prec emax (S754_finite true p 0) (S754_finite false (Qden q) 0)
  end.

Definition finite32 (x : spec_float) : bool :=
  match x with
  | S754_zero _ | S754_finite _ _ _ => true
  | S754_infinity _ | S754_nan => false
  end.

(** IEEE 754 binary32. *)
#[export] Instance binary32 : Float spec_float := {
  lit := round32;
  f_add := SFadd prec emax;
  f_sub := SFsub prec emax;
  f_mul := SFmul prec emax;
  f_div := SFdiv prec emax;
  f_neg := SFopp;
  f_lt := SFltb;
  f_le := SFleb;
  f_finite := finite32
}.

(** The rational a finite [float] stands for; [0] for the others. *)
Definition value32 (x : spec_float) : Q :=
  match x with
  | S754_finite s m e =>
    let q := if (0 <=? e)%Z then inject_Z (Zpos m * 2 ^ e)
             else Zpos m # Z.to_pos (2 ^ (- e)) in
    if s then - q else q
  | _ => 0
  end.

(** * The program *)

Section Program.

Context {F : Type} {float_ops : Float F}.

Local Open Scope cfloat_scope.

(** [outArr[i] = v]; the program never writes past [maxN]. *)
Fixpoint store (arr : list F) (i : nat) (v : F) : list F :=
  match arr, i with
  | [], _ => []
  | _ :: r, O => v :: r
  | a :: r, S i' => a :: store r i' v
  end.

(** [std::stof]; [None] when it throws. *)
Variable stof : string -> option F.

Definition extract_json_number (body key : string) : option F :=
  match index 0 (quoted key) body with
  | None => None
  | Some k =>
    match index k ":" body with
    | None => None
    | Some colon =>
      let i := skip_ws body (colon + 1)%nat in
      let j := scan_while number_char body i in
      stof (substring i (j - i)%nat body)
    end
  end.

(** The [while] loop of [extract_json_array_floats] over the values the
    stream delivers.  The array is written in place, so the result carries
    it also when a value throws ([false]). *)
Fixpoint read_floats (vals : list string) (outArr : list F) (idx maxN : nat)
  : bool * list F * nat :=
  match vals with
  | [] => (true, outArr, idx)
  | val :: rest =>
    if negb (idx <? maxN)%nat then (true, outArr, idx)
    else
      let val := trim val in
      match val with
      | EmptyString => read_floats rest outArr idx maxN
      | _ =>
        match stof val with
        | None => (false, outArr, idx)
        | Some v => read_floats rest (store outArr idx v) (S idx) maxN
        end
      end
  end.

(** Returns the success flag, the array after the call and [outN]. *)
Definition extract_json_array_floats (body key : string) (outArr : list F) (maxN : nat)
  : bool * list F * nat :=
  match index 0 (quoted key) body with
  | None => (false, outArr, O)
  | Some k =>
    match index k "[" body, index k "]" body with
    | Some lb, Some rb =>
      if (rb <=? lb)%nat then (false, outArr, O)
      else
        let ss := substring (lb + 1)%nat (rb - lb - 1)%nat body in
        match read_floats (getlines (S (String.length ss)) "," ss) outArr O maxN with
        | (true, arr, idx) => (true, arr, idx)
        | (false, arr, _) => (false, arr, O)
        end
    | _, _ => (false, outArr, O)
    end
  end.

(** ** Colours *)

Definition RGB : Type := (F * F * F)%type.

(** Supports ["#RRGGBB"] or ["RRGGBB"]. *)
Definition parse_hex_color (hex : string) : option RGB :=
  let h := match hex with
           | String c rest => if (c =? "#")%char then rest else hex
           | EmptyString => hex
           end in
  match h with
  | String c0 (String c1 (String c2 (String c3 (String c4 (String c5 EmptyString))))) =>
    let r1 := hex2 c0 in let r2 := hex2 c1 in
    let g1 := hex2 c2 in let g2 := hex2 c3 in
    let b1 := hex2 c4 in let b2 := hex2 c5 in
    if ((r1 <? 0) || (r2 <? 0) || (g1 <? 0) || (g2 <? 0) || (b1 <? 0) || (b2 <? 0))%Z
    then None
    else
      let R := Z.lor (Z.shiftl r1 4) r2 in
      let G := Z.lor (Z.shiftl g1 4) g2 in
      let B := Z.lor (Z.shiftl b1 4) b2 in
      Some (lit (inject_Z R) / lit 255, lit (inject_Z G) / lit 255,
            lit (inject_Z B) / lit 255)
  | _ => None
  end.

(** [compat::clamp]: [(v < lo) ? lo : (hi < v) ? hi : v]. *)
Definition clamp (v lo hi : F) : F :=
  if v <? lo then lo else if hi <? v then hi else v.

(** Maps a heat level to the background colour, in three stages. *)
Definition heat_colour_to_bg (colour01_100 : F) : RGB :=
  let c := clamp colour01_100 (lit 0) (lit 100) in
  if c <=? lit 33 then
    let t := c / lit 33 in
    (lit 0, t * lit 0.5, lit 0.4 + t * lit 0.4)
  else if c <=? lit 66 then
    let t := (c - lit 33) / lit 33 in
    (t, lit 0.6 + t * lit 0.4, lit 1 - t)
  else
    let t := (c - lit 66) / lit 34 in
    (lit 1, lit 1 - t, lit 0).

(** ** Global state *)

Definition SEGMENTS : nat := 10.
Definition ANIMSTEP : F := lit 40.
Definition API_TOKEN : string := "1234567890".

(** The target variables ([t...]) and [updateTime]: what [POST /update]
    writes. *)
Record Target : Type := mkTarget {
  tmodeStr : string;
  tcolourLevel : F;
  tgeometryMode : Z;
  tgeomStr : string;
  tsegment : list F;
  telementWidth : F;
  tpercent : F;
  telementColorRGB : RGB;
  tbackgroundColorRGB : RGB;
  thaveElementColor : bool;
  thaveBackgroundColor : bool;
  updateTime : F
}.

(** The live variables: what the render loop writes and the shader reads. *)
Record Live : Type := mkLive {
  modeStr : string;
  colourLevel : F;
  geometryMode : Z;
  segment : list F;
  elementWidth : F;
  percent : F;
  elementColorRGB : RGB;
  backgroundColorRGB : RGB;
  haveElementColor : bool;
  haveBackgroundColor : bool
}.

(** The initialisers of the globals; the arrays are zero-initialised. *)
Definition initial_target : Target :=
  {| tmodeStr := "heat"; tcolourLevel := lit 30; tgeometryMode := 0; tgeomStr := "ring";
     tsegment := repeat (lit 0) SEGMENTS; telementWidth := lit 20; tpercent := lit 1;
     telementColorRGB := (lit 1, lit 1, lit 1);
     tbackgroundColorRGB := (lit 0, lit 0, lit 1);
     thaveElementColor := false; thaveBackgroundColor := false;
     updateTime := lit (-10) |}.

Definition initial_live : Live :=
  {| modeStr := "heat"; colourLevel := lit 30; geometryMode := 0;
     segment := repeat (lit 0) SEGMENTS; elementWidth := lit 20; percent := lit 1;
     elementColorRGB := (lit 1, lit 1, lit 1);
     backgroundColorRGB := (lit 0, lit 0, lit 1);
     haveElementColor := false; haveBackgroundColor := false |}.

(** Assignments to single target variables. *)
Definition set_tmodeStr (v : string) (g : Target) : Target :=
  mkTarget v (tcolourLevel g) (tgeometryMode g) (tgeomStr g) (tsegment g)
    (telementWidth g) (tpercent g) (telementColorRGB g) (tbackgroundColorRGB g)
    (thaveElementColor g) (thaveBackgroundColor g) (updateTime g).

Definition set_tcolourLevel (v : F) (g : Target) : Target :=
  mkTarget (tmodeStr g) v (tgeometryMode g) (tgeomStr g) (tsegment g)
    (telementWidth g) (tpercent g) (telementColorRGB g) (tbackgroundColorRGB g)
    (thaveElementColor g) (thaveBackgroundColor g) (updateTime g).

(** [tgeometryMode = m; tgeomStr = s;] *)
Definition set_tgeometry (m : Z) (s : string) (g : Target) : Target :=
  mkTarget (tmodeStr g) (tcolourLevel g) m s (tsegment g)
    (telementWidth g) (tpercent g) (telementColorRGB g) (tbackgroundColorRGB g)
    (thaveElementColor g) (thaveBackgroundColor g) (updateTime g).

Definition set_tsegment (v : list F) (g : Target) : Target :=
  mkTarget (tmodeStr g) (tcolourLevel g) (tgeometryMode g) (tgeomStr g) v
    (telementWidth g) (tpercent g) (telementColorRGB g) (tbackgroundColorRGB g)
    (thaveElementColor g) (thaveBackgroundColor g) (updateTime g).

Definition set_telementWidth (v : F) (g : Target) : Target :=
  mkTarget (tmodeStr g) (tcolourLevel g) (tgeometryMode g) (tgeomStr g) (tsegment g)
    v (tpercent g) (telementColorRGB g) (tbackgroundColorRGB g)
    (thaveElementColor g) (thaveBackgroundColor g) (updateTime g).

Definition set_tpercent (v : F) (g : Target) : Target :=
  mkTarget (tmodeStr g) (tcolourLevel g) (tgeometryMode g) (tgeomStr g) (tsegment g)
    (telementWidth g) v (telementColorRGB g) (tbackgroundColorRGB g)
    (thaveElementColor g) (thaveBackgroundColor g) (updateTime g).

(** The three channel assignments and [thaveElementColor = true]. *)
Definition set_telementColor (v : RGB) (g : Target) : Target :=
  mkTarget (tmodeStr g) (tcolourLevel g) (tgeometryMode g) (tgeomStr g) (tsegment g)
    (telementWidth g) (tpercent g) v (tbackgroundColorRGB g)
    true (thaveBackgroundColor g) (updateTime g).

(** The three channel assignments and [thaveBackgroundColor = true]. *)
Definition set_tbackgroundColor (v : RGB) (g : Target) : Target :=
  mkTarget (tmodeStr g) (tcolourLevel g) (tgeometryMode g) (tgeomStr g) (tsegment g)
    (telementWidth g) (tpercent g) (telementColorRGB g) v
    (thaveElementColor g) true (updateTime g).

Definition set_updateTime (v : F) (g : Target) : Target :=
  mkTarget (tmodeStr g) (tcolourLevel g) (tgeometryMode g) (tgeomStr g) (tsegment g)
    (telementWidth g) (tpercent g) (telementColorRGB g) (tbackgroundColorRGB g)
    (thaveElementColor g) (thaveBackgroundColor g) v.

(** ** POST /update *)

Record Response : Type := mkResponse { status : nat; content : string }.

(** The handler's locals next to the globals it assigns. *)
Record Frame : Type := mkFrame {
  globals : Target;
  any : bool;
  gotColour : bool;
  gotElementColor : bool;
  gotBackgroundColor : bool
}.

(** A block that assigned globals and set [any = true]. *)
Definition assigned (g : Target) (f : Frame) : Frame :=
  mkFrame g true (gotColour f) (gotElementColor f) (gotBackgroundColor f).

Definition read_mode (b : string) (f : Frame) : Frame :=
  match extract_json_string b "mode" with
  | Some mode => assigned (set_tmodeStr mode (globals f)) f
  | None => f
  end.

Definition read_colour (b : string) (f : Frame) : Frame :=
  match extract_json_number b "colour" with
  | Some col =>
    mkFrame (set_tcolourLevel col (globals f)) true true
      (gotElementColor f) (gotBackgroundColor f)
  | None => f
  end.

Definition read_geometry (b : string) (f : Frame) : Frame :=
  match extract_json_string b "geometry" with
  | Some geom =>
    let g := globals f in
    let g :=
      if (geom =? "ring")%string then set_tgeometry 0 "ring" g
      else if (geom =? "circle")%string then set_tgeometry 1 "circle" g
      else if (geom =? "square")%string then set_tgeometry 2 "square" g
      else if (geom =? "triangle")%string then set_tgeometry 3 "triangle" g
      else if (geom =? "x")%string then set_tgeometry 4 "x" g
      else g in
    assigned g f
  | None => f
  end.

(** [tsegment] is the output array of the call: it keeps what the call wrote
    also when the call fails. *)
Definition read_segments (b : string) (f : Frame) : Frame :=
  match extract_json_array_floats b "segments" (tsegment (globals f)) SEGMENTS with
  | (true, arr, _) => assigned (set_tsegment arr (globals f)) f
  | (false, arr, _) =>
    mkFrame (set_tsegment arr (globals f)) (any f) (gotColour f)
      (gotElementColor f) (gotBackgroundColor f)
  end.

Definition read_width (b : string) (f : Frame) : Frame :=
  match extract_json_number b "width" with
  | Some w => assigned (set_telementWidth (clamp w (lit 0) (lit 100)) (globals f)) f
  | None => f
  end.

Definition read_percent (b : string) (f : Frame) : Frame :=
  match extract_json_number b "percent" with
  | Some pct => assigned (set_tpercent (clamp pct (lit 0) (lit 1)) (globals f)) f
  | None => f
  end.

Definition read_elementColor (b : string) (f : Frame) : Frame :=
  match extract_json_string b "elementColor" with
  | Some ehex =>
    match parse_hex_color ehex with
    | Some rgb =>
      mkFrame (set_telementColor rgb (globals f)) true (gotColour f)
        true (gotBackgroundColor f)
    | None => f
    end
  | None => f
  end.

Definition read_backgroundColor (b : string) (f : Frame) : Frame :=
  match extract_json_string b "backgroundColor" with
  | Some bhex =>
    match parse_hex_color bhex with
    | Some rgb =>
      mkFrame (set_tbackgroundColor rgb (globals f)) true (gotColour f)
        (gotElementColor f) true
    | None => f
    end
  | None => f
  end.

(** The heat-mode enforcement and its [else] branch. *)
Definition enforce_mode (f : Frame) : Frame :=
  let g := globals f in
  let g :=
    if (tmodeStr g =? "heat")%string then
      let g := set_telementColor (lit 1, lit 1, lit 1) (set_tgeometry 0 "ring" g) in
      if negb (gotBackgroundColor f)
      then set_tbackgroundColor (heat_colour_to_bg (tcolourLevel g)) g
      else g
    else
      if negb (gotBackgroundColor f) && gotColour f
      then set_tbackgroundColor (heat_colour_to_bg (tcolourLevel g)) g
      else g in
  mkFrame g (any f) (gotColour f) (gotElementColor f) (gotBackgroundColor f).

(** The eight field blocks, in the order of the source. *)
Definition parse_fields (b : string) (g : Target) : Frame :=
  read_backgroundColor b
    (read_elementColor b
      (read_percent b
        (read_width b
          (read_segments b
            (read_geometry b
              (read_colour b
                (read_mode b (mkFrame g false false false false)))))))).

(** The [try] block up to the [any] test. *)
Definition read_fields (b : string) (g : Target) : Frame :=
  enforce_mode (parse_fields b g).

(** The handler, for the header value [token], the body [b], the value [t]
    of the clock and the globals [g].  None of the helpers lets an exception
    escape, so the [catch (...)] answer "Invalid JSON" is never produced. *)
Definition post_update (token b : string) (t : F) (g : Target) : Response * Target :=
  if negb (token =? API_TOKEN)%string then (mkResponse 401 EmptyString, g)
  else
    let f := read_fields b g in
    if negb (any f) then (mkResponse 400 "No valid fields", globals f)
    else (mkResponse 200 "OK", set_updateTime t (globals f)).

(** ** The render loop *)

(** [x += compat::clamp(tx - x, -rate*dt, rate*dt)] *)
Definition approach (x tx rate dt : F) : F :=
  x + clamp (tx - x) (- rate * dt) (rate * dt).

Definition approach_rgb (c tc : RGB) (rate dt : F) : RGB :=
  let '(r, g, b) := c in
  let '(tr, tg, tb) := tc in
  (approach r tr rate dt, approach g tg rate dt, approach b tb rate dt).

(** [for (i = 0; i < SEGMENTS; i++) segment[i] += ...] *)
Definition approach_segments (seg tseg : list F) (dt : F) : list F :=
  fold_left
    (fun s i => store s i (approach (nth i s (lit 0)) (nth i tseg (lit 0)) ANIMSTEP dt))
    (seq 0 SEGMENTS) seg.

(** The block under [state_mtx] in the main loop. *)
Definition interpolate (dt : F) (g : Target) (l : Live) : Live :=
  {| colourLevel := approach (colourLevel l) (tcolourLevel g) ANIMSTEP dt;
     segment := approach_segments (segment l) (tsegment g) dt;
     geometryMode := tgeometryMode g;
     modeStr := tmodeStr g;
     elementWidth := approach (elementWidth l) (telementWidth g) ANIMSTEP dt;
     percent := approach (percent l) (tpercent g) ANIMSTEP dt;
     elementColorRGB := approach_rgb (elementColorRGB l) (telementColorRGB g) (lit 2) dt;
     backgroundColorRGB := approach_rgb (backgroundColorRGB l) (tbackgroundColorRGB g) (lit 2) dt;
     haveElementColor := thaveElementColor g;
     haveBackgroundColor := thaveBackgroundColor g |}.

(** The globals a frame of the main loop works on. *)
Record Globals : Type := mkGlobals { t : F; target : Target; live : Live }.

(** [dt = clamp(frame_start - last_time, 0, 0.1)] *)
Definition frame_dt (elapsed : F) : F := clamp elapsed (lit 0) (lit 0.1).

(** One iteration of the main loop, [elapsed] seconds after the previous
    one: the clock and the live variables. *)
Definition frame (elapsed : F) (w : Globals) : Globals :=
  let dt := frame_dt elapsed in
  {| t := t w + dt; target := target w; live := interpolate dt (target w) (live w) |}.

(** The request [POST /update] served between two frames. *)
Definition serve (token b : string) (w : Globals) : Response * Globals :=
  let (res, g) := post_update token b (t w) (target w) in
  (res, {| t := t w; target := g; live := live w |}).

Definition initial_globals : Globals :=
  {| t := lit 0; target := initial_target; live := initial_live |}.

(** ** A decimal [stof] *)

(** [std::stof] on plain decimal text (sign, digits, point, exponent): the
    [float] nearest to the number the text denotes.  [None] when no digit
    is found ([std::invalid_argument]) and when the number is too large for
    a [float] ([std::out_of_range]).

    On other text it is not [std::stof]:
    - for the text -0 it gives the positive zero, [std::stof] the negative
      one;
    - hexadecimal text is read up to the x: 0x10 gives 0, [std::stof]
      gives 16;
    - a number below the normal range, such as 1e-40, is rounded to a
      subnormal or to zero, where [std::stof] may throw
      [std::out_of_range];
    - the texts inf, infinity and nan give [None], where [std::stof] gives
      an infinity or a NaN.
    The theorems about the handler hold for every [stof]; this one is used
    in closed examples on plain decimal text only, and [stof_nan] below
    adds the text nan. *)
Definition stof_decimal (str : string) : option F :=
  match decimal_value str with
  | Some q => let x := lit q in if f_finite x then Some x else None
  | None => None
  end.

(** ** Vocabulary of the properties *)

Definition OK : Response := mkResponse 200 "OK".
Definition NoValidFields : Response := mkResponse 400 "No valid fields".

Definition is_some {A : Type} (o : option A) : bool :=
  match o with Some _ => true | None => false end.

(** The background colour a body supplies explicitly: the condition under
    which the handler sets [gotBackgroundColor]. *)
Definition supplied_backgroundColor (b : string) : option RGB :=
  match extract_json_string b "backgroundColor" with
  | Some bhex => parse_hex_color bhex
  | None => None
  end.

Definition supplied_elementColor (b : string) : option RGB :=
  match extract_json_string b "elementColor" with
  | Some ehex => parse_hex_color ehex
  | None => None
  end.

(** The colour level a body supplies: the condition of [gotColour]. *)
Definition supplied_colour (b : string) : option F :=
  extract_json_number b "colour".

Definition known_geometry (geom : string) : bool :=
  ((geom =? "ring") || (geom =? "circle") || (geom =? "square")
   || (geom =? "triangle") || (geom =? "x"))%string.

(** Whether the call on the segment list succeeds; the array it fills has
    no influence on that. *)
Definition supplied_segments (b : string) : bool :=
  fst (fst (extract_json_array_floats b "segments" [] SEGMENTS)).

(** The recognized fields of a body as the specification counts them: a
    field is present when its key is found and its value parses; a geometry
    value that names no shape makes the field absent. *)
Definition spec_recognized (b : string) : bool :=
  is_some (extract_json_string b "mode")
  || is_some (supplied_colour b)
  || match extract_json_string b "geometry" with
     | Some geom => known_geometry geom
     | None => false
     end
  || supplied_segments b
  || is_some (extract_json_number b "width")
  || is_some (extract_json_number b "percent")
  || is_some (supplied_elementColor b)
  || is_some (supplied_backgroundColor b).

(** The fields the handler counts: as above, but every geometry string. *)
Definition code_recognized (b : string) : bool :=
  is_some (extract_json_string b "mode")
  || is_some (supplied_colour b)
  || is_some (extract_json_string b "geometry")
  || supplied_segments b
  || is_some (extract_json_number b "width")
  || is_some (extract_json_number b "percent")
  || is_some (supplied_elementColor b)
  || is_some (supplied_backgroundColor b).

Definition green (c : RGB) : F := snd (fst c).
Definition blue (c : RGB) : F := snd c.

(** The arrays have [SEGMENTS] entries. *)
Definition wf_target (g : Target) : Prop := List.length (tsegment g) = SEGMENTS.
Definition wf_live (l : Live) : Prop := List.length (segment l) = SEGMENTS.

Definition rgb_list (c : RGB) : list F := let '(r, g, b) := c in [r; g; b].

(** The interpolated live values, their targets and their rates, in one
    order: colour level, width, percent, the segments, the channels of the
    element colour, the channels of the background colour. *)
Definition live_values (l : Live) : list F :=
  [colourLevel l; elementWidth l; percent l] ++ segment l
  ++ rgb_list (elementColorRGB l) ++ rgb_list (backgroundColorRGB l).

Definition target_values (g : Target) : list F :=
  [tcolourLevel g; telementWidth g; tpercent g] ++ tsegment g
  ++ rgb_list (telementColorRGB g) ++ rgb_list (tbackgroundColorRGB g).

Definition rates : list F := repeat ANIMSTEP (3 + SEGMENTS) ++ repeat (lit 2) 6.

Definition INTERPOLATED : nat := (3 + SEGMENTS + 6)%nat.

(** The [i]-th interpolated value, target and rate. *)
Definition live_value (i : nat) (w : Globals) : F := nth i (live_values (live w)) (lit 0).
Definition target_value (i : nat) (w : Globals) : F :=
  nth i (target_values (target w)) (lit 0).
Definition rate (i : nat) : F := nth i rates (lit 0).

(** Successive iterations of the main loop, no request in between. *)
Definition frames (elapsed : list F) (w : Globals) : Globals :=
  fold_left (fun w e => frame e w) elapsed w.

(** What the later blocks of the handler must leave alone. *)
Definition mode_view (f : Frame) : string := tmodeStr (globals f).
Definition colour_view (f : Frame) : F * bool := (tcolourLevel (globals f), gotColour f).
Definition background_view (f : Frame) : RGB * bool :=
  (tbackgroundColorRGB (globals f), gotBackgroundColor f).
Definition segments_size (f : Frame) : nat := List.length (tsegment (globals f)).

End Program.

Arguments RGB F : clear implicits.
Arguments Target F : clear implicits.
Arguments Live F : clear implicits.
Arguments Frame F : clear implicits.
Arguments Globals F : clear implicits.

(** ** Exact numbers *)

(** Channel-wise equality of exact colours as numbers. *)
Definition rgb_eq (c d : RGB Q) : Prop :=
  let '(r1, g1, b1) := c in
  let '(r2, g2, b2) := d in
  r1 == r2 /\ g1 == g2 /\ b1 == b2.

(** One step from [old] towards [tgt] that may cover [reach]: the move is
    at most [reach], ends between [old] and [tgt], and ends on [tgt] when
    [tgt] is within [reach]. *)
Definition chases (reach old tgt new : Q) : Prop :=
  (- reach <= new - old <= reach)
  /\ ((old <= new <= tgt) \/ (tgt <= new <= old))
  /\ (- reach <= tgt - old <= reach -> new == tgt).

(** The same, read on the values of [float]s. *)
Definition chases32 (reach old tgt new : spec_float) : Prop :=
  chases (value32 reach) (value32 old) (value32 tgt) (value32 new).

(** ** Request bodies of the examples *)

Definition field (key value : string) : string := quoted key ++ ":" ++ value.

Definition body_empty : string := "{}".
Definition body_unknown_geometry : string := "{" ++ field "geometry" (quoted "hexagon") ++ "}".
Definition body_colour_150 : string := "{" ++ field "colour" "150" ++ "}".
Definition body_bad_segments : string := "{" ++ field "segments" "[7, 8.5,x,3]" ++ "}".
Definition body_heat_square : string :=
  "{" ++ field "mode" (quoted "heat") ++ "," ++ field "geometry" (quoted "square") ++ ","
  ++ field "elementColor" (quoted "#00FF00") ++ "," ++ field "colour" "15" ++ "}".
Definition body_heat_explicit_bg : string :=
  "{" ++ field "mode" (quoted "heat") ++ "," ++ field "backgroundColor" (quoted "#110022") ++ "}".
Definition body_custom_colour_80 : string :=
  "{" ++ field "mode" (quoted "custom") ++ "," ++ field "colour" "80" ++ "}".
Definition body_custom_dim_element : string :=
  "{" ++ field "mode" (quoted "custom") ++ "," ++ field "elementColor" (quoted "#010101") ++ "}".
Definition body_width_60 : string := "{" ++ field "width" "60" ++ "}".
Definition body_colour_in_value : string :=
  "{" ++ field "mode" (quoted "colour") ++ "," ++ field "width" "5" ++ "}".
Definition body_mode_in_value : string :=
  "{" ++ field "geometry" (quoted "mode") ++ "," ++ field "x" (quoted "heat") ++ "}".

(** [stof_decimal] in single precision. *)
Definition stof32 : string -> option spec_float := stof_decimal.

(** Six frames of 0.1 s after the request that dims the element colour:
    the states before and after the sixth. *)
Definition dimmed : Globals spec_float :=
  snd (serve stof32 API_TOKEN body_custom_dim_element initial_globals).
Definition dimmed_4 : Globals spec_float := frames (repeat (lit 0.1) 4) dimmed.
Definition dimmed_5 : Globals spec_float := frame (lit 0.1) dimmed_4.
Definition dimmed_6 : Globals spec_float := frame (lit 0.1) dimmed_5.

(** The index of the red channel of the element colour among the
    interpolated values. *)
Definition ELEMENT_RED : nat := (3 + SEGMENTS)%nat.

(** The [float] next above 33. *)
Definition above_33 : spec_float := S754_finite false 8650753 (-18).

(** * The rest of the render loop *)

(** ** The display *)

Module Display.

(** Total matrix width and height. *)
Definition W : Z := 192.
Definition H : Z := 64.

Definition MAP_FLIP_X : bool := false.
Definition MAP_FLIP_Y : bool := false.
Definition MAP_REVERSE_PANELS : bool := false.

Definition PANEL_W : Z := 64.
Definition NUM_PANELS : Z := Z.quot W PANEL_W.

(** [map_xy] for any setting of the three flags.  [int] division and
    remainder truncate ([Z.quot], [Z.rem]); the values stay far from the
    limits of [int]. *)
Definition map_xy_flags (flip_x flip_y reverse_panels : bool) (x y : Z) : Z * Z :=
  let mx := x in
  let my := y in
  let mx := if (mx <? 64)%Z then (63 - mx)%Z else mx in
  let mx := if flip_x then ((W - 1) - mx)%Z else mx in
  let my := if flip_y then ((H - 1) - my)%Z else my in
  let mx :=
    if reverse_panels then
      let panel := Z.quot mx PANEL_W in
      let inpanel := Z.rem mx PANEL_W in
      let mapped_panel := ((NUM_PANELS - 1) - panel)%Z in
      (mapped_panel * PANEL_W + inpanel)%Z
    else mx in
  (mx, my).

(** [map_xy] as compiled. *)
Definition map_xy (x y : Z) : Z * Z :=
  map_xy_flags MAP_FLIP_X MAP_FLIP_Y MAP_REVERSE_PANELS x y.

(** [idx] in the copy loop: OpenGL rows run bottom-up. *)
Definition buffer_index (x y : Z) : Z :=
  let gl_y := ((H - 1) - y)%Z in
  (gl_y * W * 3 + x * 3)%Z.

(** [buffer[i]] *)
Definition byte_at (buffer : list Z) (i : Z) : Z := nth (Z.to_nat i) buffer 0%Z.

(** One call [canvas->SetPixel(x, y, r, g, b)]. *)
Record SetPixel : Type := mkSetPixel { px : Z; py : Z; pr : Z; pg : Z; pb : Z }.

(** The coordinates [0 .. n-1]. *)
Definition upto (n : Z) : list Z := map Z.of_nat (seq 0 (Z.to_nat n)).

(** The copy loop: the calls it makes, in order. *)
Definition copy_pixels (buffer : list Z) : list SetPixel :=
  flat_map
    (fun y =>
       map
         (fun x =>
            let (mx, my) := map_xy x y in
            let idx := buffer_index x y in
            mkSetPixel mx my (byte_at buffer idx) (byte_at buffer (idx + 1))
              (byte_at buffer (idx + 2)))
         (upto W))
    (upto H).

End Display.

(** ** Signal age and blanking *)

(** Seconds of inactivity before blanking; [0] disables blanking. *)
Definition BLANKINTERVAL : Z := 0.

Section SignalLoss.

Context {F : Type} {float_ops : Float F}.

Local Open Scope cfloat_scope.

(** [age = t - updateTime] *)
Definition age (w : Globals F) : F := t w - updateTime (target w).

(** [renderTime]: the animation clock stops once the signal is
    [GRAY_START_TIME] old. *)
Definition renderTime (w : Globals F) : F :=
  if age w <? lit 60 then t w else updateTime (target w).





(** What happens between two observations: a request is served, or the
    main loop runs one iteration. *)
Inductive Event : Type :=
| Request (token body : string)
| Tick (elapsed : F).

Variable stof : string -> option F.

Definition step (w : Globals F) (e : Event) : Globals F :=
  match e with
  | Request token body => snd (serve stof token body w)
  | Tick elapsed => frame elapsed w
  end.

Definition run (es : list Event) (w : Globals F) : Globals F := fold_left step es w.

(** Heat mode means ring and white. *)
Definition heat_shaped (g : Target F) : Prop :=
  tmodeStr g = "heat" ->
  tgeometryMode g = 0%Z /\ tgeomStr g = "ring"
  /\ telementColorRGB g = (lit 1, lit 1, lit 1).

(** The segment array after the segments block; the other target fields
    do not depend on it. *)
Definition segments_after (b : string) (arr : list F) : list F :=
  snd (fst (extract_json_array_floats stof b "segments" arr SEGMENTS)).

End SignalLoss.

Arguments Event F : clear implicits.

(** The initial globals with the clock at [s]. *)
Definition at_time (s : spec_float) : Globals spec_float :=
  {| t := s; target := initial_target; live := initial_live |}.

(** ** Ranges of exact values *)

Definition unit_range (x : Q) : Prop := 0 <= x <= 1.

Definition rgb_in_range (c : RGB Q) : Prop :=
  let '(r, g, b) := c in unit_range r /\ unit_range g /\ unit_range b.

(** The ranges the handler keeps for the target: width, percent and both
    colours.  The colour level is not among them. *)
Definition target_in_range (g : Target Q) : Prop :=
  0 <= telementWidth g <= 100
  /\ unit_range (tpercent g)
  /\ rgb_in_range (telementColorRGB g)
  /\ rgb_in_range (tbackgroundColorRGB g).

Definition live_in_range (l : Live Q) : Prop :=
  0 <= elementWidth l <= 100
  /\ unit_range (percent l)
  /\ rgb_in_range (elementColorRGB l)
  /\ rgb_in_range (backgroundColorRGB l).


(** ** Characters of a text *)

(** No character of [s] satisfies [p]. *)
Fixpoint none_of (p : ascii -> bool) (s : string) : bool :=
  match s with
  | String c s' => negb (p c) && none_of p s'
  | EmptyString => true
  end.

(** Every character of [s] satisfies [p]. *)
Fixpoint all_of (p : ascii -> bool) (s : string) : bool :=
  match s with
  | String c s' => p c && all_of p s'
  | EmptyString => true
  end.

Definition is_char (c : ascii) (x : ascii) : bool := (x =? c)%char.

(** The characters [0-9a-fA-F]. *)
Definition is_hex_digit (c : ascii) : bool := (0 <=? hex2 c)%Z.

(** The text [parse_hex_color] looks at: its argument without a leading
    [#]. *)
Definition strip_hash (hex : string) : string :=
  match hex with
  | String c rest => if (c =? "#")%char then rest else hex
  | EmptyString => hex
  end.

(** ASCII lower case. *)
Definition ascii_lower (c : ascii) : ascii :=
  let n := nat_of_ascii c in
  if ((65 <=? n) && (n <=? 90))%nat then ascii_of_nat (n + 32) else c.

Fixpoint string_lower (s : string) : string :=
  match s with
  | String c s' => String (ascii_lower c) (string_lower s')
  | EmptyString => EmptyString
  end.

(** The text begins with a character that is not white space for
    [skip_ws]. *)
Definition starts_solid (s : string) : bool :=
  match s with
  | String c _ => negb (is_json_ws c)
  | EmptyString => false
  end.

(** The text is empty or begins with a character that ends a number for
    [extract_json_number]. *)
Definition ends_number (s : string) : bool :=
  match s with
  | String c _ => negb (number_char c)
  | EmptyString => true
  end.

(** The eight keys of [POST /update]. *)
Definition update_keys : list string :=
  ["mode"; "colour"; "geometry"; "segments"; "width"; "percent";
   "elementColor"; "backgroundColor"].

(** No key of [POST /update] occurs in the body, quoted. *)
Definition no_known_key (b : string) : Prop :=
  forall key, In key update_keys -> index 0 (quoted key) b = None.

(** ** States *)

(** The place of a text in a list. *)
Fixpoint index_of (s : string) (l : list string) : option nat :=
  match l with
  | [] => None
  | x :: r => if (s =? x)%string then Some O else option_map S (index_of s r)
  end.

(** The shapes, in the order of their numbers. *)
Definition geometry_names : list string := ["ring"; "circle"; "square"; "triangle"; "x"].

Definition geometry_number (geom : string) : option Z :=
  option_map Z.of_nat (index_of geom geometry_names).

Section States.

Context {F : Type} {float_ops : Float F}.

(** [tgeomStr] names the shape whose number is [tgeometryMode]. *)
Definition geometry_named (g : Target F) : Prop :=
  geometry_number (tgeomStr g) = Some (tgeometryMode g).

(** What holds of the globals between any two steps. *)
Definition sound (w : Globals F) : Prop :=
  wf_target (target w) /\ wf_live (live w)
  /\ heat_shaped (target w) /\ geometry_named (target w)
  /\ (0 <= geometryMode (live w) <= 4)%Z.

End States.


(** ** Ranges of single-precision values *)

(** The clamped target variables within their bounds, by the comparison of
    the program. *)
Definition scalars_in_range32 (g : Target spec_float) : Prop :=
  f_le (lit 0) (telementWidth g) = true /\ f_le (telementWidth g) (lit 100) = true
  /\ f_le (lit 0) (tpercent g) = true /\ f_le (tpercent g) (lit 1) = true.

(** The three channels within [0,1], by the comparison of the program. *)
Definition unit_range32 (x : spec_float) : bool :=
  f_le (lit 0) x && f_le x (lit 1).

Definition rgb_in_range32 (c : RGB spec_float) : bool :=
  let '(r, g, b) := c in unit_range32 r && unit_range32 g && unit_range32 b.

(** ** A [stof] that reads [nan] *)

(** [std::stof] also reads the text [nan]; [stof32] with that case. *)
Definition stof_nan (s : string) : option spec_float :=
  if (s =? "nan")%string then Some S754_nan else stof32 s.

Definition body_width_nan : string := "{" ++ field "width" "nan" ++ "}".
Definition body_colour_nan : string := "{" ++ field "colour" "nan" ++ "}".

(** A body whose mode value has an escaped quote inside: the value is the
    letter a, a backslash, a double quote and the letter b. *)
Definition body_escaped_quote : string :=
  "{" ++ field "mode" (String dquote ("a\" ++ String dquote ("b" ++ String dquote EmptyString)))
  ++ "}".

(** ** Lists of values *)

(** The items of a list, separated by commas. *)
Fixpoint join_commas (items : list string) : string :=
  match items with
  | [] => EmptyString
  | [x] => x
  | x :: rest => x ++ "," ++ join_commas rest
  end.

(** An item [getline] delivers whole and the loop does not skip. *)
Definition plain_item (item : string) : Prop :=
  none_of (is_char ",") item = true /\ trim item <> EmptyString.

(** ** Blanks around an item *)

(** The text is empty or begins with a character that [std::isspace]
    rejects. *)
Definition begins_solid (s : string) : bool :=
  match s with
  | String c _ => negb (isspace c)
  | EmptyString => true
  end.

(** The text is empty, or neither begins nor ends with white space. *)
Definition solid (core : string) : bool :=
  begins_solid core && begins_solid (string_rev core).

(** ** Signs and numbers in single precision *)

(** A [float] with the sign [s] that is not a NaN. *)
Definition signed (s : bool) (x : spec_float) : Prop :=
  x = S754_zero s \/ x = S754_infinity s \/ exists m e, x = S754_finite s m e.

(** The same number, as [==] of the program tells it: the same [float], or
    two zeros of any signs. *)
Definition same32 (x y : spec_float) : Prop :=
  x = y \/ (exists s s', x = S754_zero s /\ y = S754_zero s').

(** ** A state in which every variable is on its way *)

(** A request that sets all eight fields. *)
Definition body_everything : string :=
  "{" ++ field "mode" (quoted "custom") ++ "," ++ field "colour" "80" ++ ","
  ++ field "geometry" (quoted "square") ++ "," ++ field "segments" "[7, 8.5, 3]" ++ ","
  ++ field "width" "60" ++ "," ++ field "percent" "0.5" ++ ","
  ++ field "elementColor" (quoted "#102030") ++ ","
  ++ field "backgroundColor" (quoted "#405060") ++ "}".

(** The globals after that request, before the next frame: colour level,
    width, percentage, three segments and all six colour channels differ
    from their targets. *)
Definition busy : Globals Q :=
  snd (serve stof_decimal API_TOKEN body_everything initial_globals).
Definition busy32 : Globals spec_float :=
  snd (serve stof32 API_TOKEN body_everything initial_globals).

(** The index of the colour level among the interpolated values. *)
Definition COLOUR_LEVEL : nat := 0%nat.

(** ** One iteration of the main loop, statement by statement *)

(** The handler of [POST /update] runs on another thread.  It holds
    [state_mtx] from its first read of a global to its last write, and so
    does the interpolation block of the main loop; the other statements of
    the main loop hold no lock.  The steps below are the pieces between
    which the other thread can run. *)

Section Interleaving.

Context {F : Type} {float_ops : Float F}.

Local Open Scope cfloat_scope.

(** The locals of an iteration. *)
Record Locals : Type := mkLocals { dt : F; age_read : F; renderTime_read : F }.

(** The uniforms handed to the shader. *)
Record Uniforms : Type := mkUniforms {
  u_time : F;
  u_age : F;
  u_colourLevel : F;
  u_segment : list F;
  u_geom : Z;
  u_bgColor : RGB F;
  u_elColor : RGB F;
  u_width : F;
  u_percent : F
}.

(** What an iteration puts on the canvas: a frame drawn from the uniforms,
    or nothing ([canvas->Clear()]). *)
Inductive Shown : Type :=
| Rendered (u : Uniforms)
| Cleared.

Record Machine : Type := mkMachine {
  globals_now : Globals F;
  locals : Locals;
  shown : list Shown
}.

Inductive Phase : Type :=
| Clock (elapsed : F)
| Interpolation
| ReadAge
| ReadRenderTime
| Output
| Update (token body : string).

Variable stof : string -> option F.

(** The uniforms as the rendering branch sets them. *)
Definition uniforms (l : Locals) (v : Live F) : Uniforms :=
  {| u_time := renderTime_read l;
     u_age := age_read l;
     u_colourLevel := colourLevel v;
     u_segment := segment v;
     u_geom := geometryMode v;
     u_bgColor := backgroundColorRGB v;
     u_elColor := elementColorRGB v;
     u_width := elementWidth v;
     u_percent := percent v |}.

(** [if (BLANKINTERVAL == 0 || age < BLANKINTERVAL) ... else canvas->Clear()] *)
Definition output (l : Locals) (v : Live F) : Shown :=
  if (BLANKINTERVAL =? 0)%Z || (age_read l <? lit (inject_Z BLANKINTERVAL))
  then Rendered (uniforms l v)
  else Cleared.

Definition phase (m : Machine) (p : Phase) : Machine :=
  let w := globals_now m in
  let l := locals m in
  match p with
  | Clock elapsed =>
      (* dt = clamp(...); t += dt; *)
      let d := frame_dt elapsed in
      mkMachine {| t := t w + d; target := target w; live := live w |}
                (mkLocals d (age_read l) (renderTime_read l)) (shown m)
  | Interpolation =>
      (* the block under state_mtx *)
      mkMachine {| t := t w; target := target w;
                   live := interpolate (dt l) (target w) (live w) |}
                l (shown m)
  | ReadAge =>
      (* float age = t - updateTime; *)
      mkMachine w (mkLocals (dt l) (t w - updateTime (target w)) (renderTime_read l))
                (shown m)
  | ReadRenderTime =>
      (* float renderTime = (age < GRAY_START_TIME) ? t : updateTime; *)
      mkMachine w
                (mkLocals (dt l) (age_read l)
                   (if age_read l <? lit 60 then t w else updateTime (target w)))
                (shown m)
  | Output =>
      mkMachine w l (shown m ++ [output l (live w)])
  | Update token body =>
      mkMachine (snd (serve stof token body w)) l (shown m)
  end.

Definition phases (ps : list Phase) (m : Machine) : Machine := fold_left phase ps m.

(** The statements of one iteration, in program order. *)
Definition iteration (elapsed : F) : list Phase :=
  [Clock elapsed; Interpolation; ReadAge; ReadRenderTime; Output].

(** The iteration with a request served after its first [n] statements. *)
Definition iteration_with (n : nat) (elapsed : F) (token body : string) : list Phase :=
  firstn n (iteration elapsed) ++ Update token body :: skipn n (iteration elapsed).

(** The machine at the start of an iteration. *)
Definition entering (w : Globals F) : Machine :=
  mkMachine w (mkLocals (lit 0) (lit 0) (lit 0)) [].

(** What an iteration shows when every read of a target variable, also the
    read of [updateTime], finds the one target [g]; [w] holds the clock
    after [t += dt] and the live variables before the interpolation. *)
Definition snapshot_frame (g : Target F) (d : F) (w : Globals F) : Shown :=
  let v := interpolate d g (live w) in
  let a := t w - updateTime g in
  let r := if a <? lit 60 then t w else updateTime g in
  output (mkLocals d a r) v.

End Interleaving.

Arguments Locals F : clear implicits.
Arguments Uniforms F : clear implicits.
Arguments Shown F : clear implicits.
Arguments Machine F : clear implicits.
Arguments Phase F : clear implicits.

Definition body_custom_square : string :=
  "{" ++ field "mode" (quoted "custom") ++ "," ++ field "geometry" (quoted "square") ++ "}".

(** * Properties *)

(** ** The field blocks, one at a time *)

Ltac split_matches :=
  repeat match goal with
         | |- context [match ?x with _ => _ end] => destruct x
         end.

Tactic Notation "by_block" reference(f) := unfold f; split_matches; reflexivity.

Lemma store_length {F : Type} (arr : list F) (i : nat) (v : F) :
  List.length (store arr i v) = List.length arr.
Proof.
  revert i; induction arr as [|a arr IH]; intros [|i]; simpl; auto.
Qed.

Section Blocks.

Context {F : Type} {float_ops : Float F}.

Variable stof : string -> option F.

Lemma read_floats_length vals : forall outArr idx maxN,
  List.length (snd (fst (read_floats stof vals outArr idx maxN))) = List.length outArr.
Proof.
  induction vals as [|val rest IH]; intros outArr idx maxN; simpl; auto.
  destruct (idx <? maxN)%nat; simpl; auto.
  destruct (trim val); auto.
  destruct (stof _); simpl; auto.
  rewrite IH. apply store_length.
Qed.

(** Whether the loop succeeds does not depend on the array it fills. *)
Lemma read_floats_flag vals : forall arr arr' idx maxN,
  fst (fst (read_floats stof vals arr idx maxN))
  = fst (fst (read_floats stof vals arr' idx maxN)).
Proof.
  induction vals as [|val rest IH]; intros arr arr' idx maxN; simpl; auto.
  destruct (idx <? maxN)%nat; simpl; auto.
  destruct (trim val); auto.
  destruct (stof _); simpl; auto.
Qed.

Lemma extract_json_array_floats_length body key outArr maxN :
  List.length (snd (fst (extract_json_array_floats stof body key outArr maxN)))
  = List.length outArr.
Proof.
  unfold extract_json_array_floats.
  destruct (index 0 _ body) as [k|]; simpl; auto.
  destruct (index k "[" body) as [lb|]; simpl; auto.
  destruct (index k "]" body) as [rb|]; simpl; auto.
  destruct (rb <=? lb)%nat; simpl; auto.
  match goal with |- context [read_floats stof ?v ?a ?i ?m] =>
    pose proof (read_floats_length v a i m) as H;
    destruct (read_floats stof v a i m) as [[[|] arr] n]; simpl in *; exact H
  end.
Qed.

Lemma extract_json_array_floats_flag body key arr arr' maxN :
  fst (fst (extract_json_array_floats stof body key arr maxN))
  = fst (fst (extract_json_array_floats stof body key arr' maxN)).
Proof.
  unfold extract_json_array_floats.
  destruct (index 0 _ body) as [k|]; simpl; auto.
  destruct (index k "[" body) as [lb|]; simpl; auto.
  destruct (index k "]" body) as [rb|]; simpl; auto.
  destruct (rb <=? lb)%nat; simpl; auto.
  match goal with |- context [read_floats stof ?v arr ?i ?m] =>
    pose proof (read_floats_flag v arr arr' i m) as H;
    destruct (read_floats stof v arr i m) as [[[|] a1] n1];
    destruct (read_floats stof v arr' i m) as [[[|] a2] n2];
    simpl in *; congruence
  end.
Qed.

(** The mode string is assigned by the first block only. *)
Lemma read_colour_mode b (f : Frame F) : mode_view (read_colour stof b f) = mode_view f.
Proof. by_block read_colour. Qed.
Lemma read_geometry_mode b (f : Frame F) : mode_view (read_geometry b f) = mode_view f.
Proof. by_block read_geometry. Qed.
Lemma read_segments_mode b (f : Frame F) : mode_view (read_segments stof b f) = mode_view f.
Proof. by_block read_segments. Qed.
Lemma read_width_mode b (f : Frame F) : mode_view (read_width stof b f) = mode_view f.
Proof. by_block read_width. Qed.
Lemma read_percent_mode b (f : Frame F) : mode_view (read_percent stof b f) = mode_view f.
Proof. by_block read_percent. Qed.
Lemma read_elementColor_mode b (f : Frame F) : mode_view (read_elementColor b f) = mode_view f.
Proof. by_block read_elementColor. Qed.
Lemma read_backgroundColor_mode b (f : Frame F) : mode_view (read_backgroundColor b f) = mode_view f.
Proof. by_block read_backgroundColor. Qed.

(** The colour level and [gotColour] are assigned by the second block only. *)
Lemma read_mode_colour b (f : Frame F) : colour_view (read_mode b f) = colour_view f.
Proof. by_block read_mode. Qed.
Lemma read_geometry_colour b (f : Frame F) : colour_view (read_geometry b f) = colour_view f.
Proof. by_block read_geometry. Qed.
Lemma read_segments_colour b (f : Frame F) : colour_view (read_segments stof b f) = colour_view f.
Proof. by_block read_segments. Qed.
Lemma read_width_colour b (f : Frame F) : colour_view (read_width stof b f) = colour_view f.
Proof. by_block read_width. Qed.
Lemma read_percent_colour b (f : Frame F) : colour_view (read_percent stof b f) = colour_view f.
Proof. by_block read_percent. Qed.
Lemma read_elementColor_colour b (f : Frame F) : colour_view (read_elementColor b f) = colour_view f.
Proof. by_block read_elementColor. Qed.
Lemma read_backgroundColor_colour b (f : Frame F) :
  colour_view (read_backgroundColor b f) = colour_view f.
Proof. by_block read_backgroundColor. Qed.

(** The background colour and [gotBackgroundColor] are assigned by the last
    block only. *)
Lemma read_mode_background b (f : Frame F) : background_view (read_mode b f) = background_view f.
Proof. by_block read_mode. Qed.
Lemma read_colour_background b (f : Frame F) :
  background_view (read_colour stof b f) = background_view f.
Proof. by_block read_colour. Qed.
Lemma read_geometry_background b (f : Frame F) :
  background_view (read_geometry b f) = background_view f.
Proof. by_block read_geometry. Qed.
Lemma read_segments_background b (f : Frame F) :
  background_view (read_segments stof b f) = background_view f.
Proof. by_block read_segments. Qed.
Lemma read_width_background b (f : Frame F) :
  background_view (read_width stof b f) = background_view f.
Proof. by_block read_width. Qed.
Lemma read_percent_background b (f : Frame F) :
  background_view (read_percent stof b f) = background_view f.
Proof. by_block read_percent. Qed.
Lemma read_elementColor_background b (f : Frame F) :
  background_view (read_elementColor b f) = background_view f.
Proof. by_block read_elementColor. Qed.

(** Every block keeps the size of the segment array. *)
Lemma read_mode_size b (f : Frame F) : segments_size (read_mode b f) = segments_size f.
Proof. by_block read_mode. Qed.
Lemma read_colour_size b (f : Frame F) : segments_size (read_colour stof b f) = segments_size f.
Proof. by_block read_colour. Qed.
Lemma read_geometry_size b (f : Frame F) : segments_size (read_geometry b f) = segments_size f.
Proof. by_block read_geometry. Qed.
Lemma read_segments_size b (f : Frame F) : segments_size (read_segments stof b f) = segments_size f.
Proof.
  unfold read_segments, segments_size.
  pose proof (extract_json_array_floats_length b "segments"
                (tsegment (globals f)) SEGMENTS) as H.
  destruct (extract_json_array_floats _ _ _ _ _) as [[[|] arr] n]; simpl in *; exact H.
Qed.
Lemma read_width_size b (f : Frame F) : segments_size (read_width stof b f) = segments_size f.
Proof. by_block read_width. Qed.
Lemma read_percent_size b (f : Frame F) : segments_size (read_percent stof b f) = segments_size f.
Proof. by_block read_percent. Qed.
Lemma read_elementColor_size b (f : Frame F) : segments_size (read_elementColor b f) = segments_size f.
Proof. by_block read_elementColor. Qed.
Lemma read_backgroundColor_size b (f : Frame F) :
  segments_size (read_backgroundColor b f) = segments_size f.
Proof. by_block read_backgroundColor. Qed.
Lemma enforce_mode_size (f : Frame F) : segments_size (enforce_mode f) = segments_size f.
Proof. by_block enforce_mode. Qed.

(** What each block adds to [any]. *)
Lemma read_mode_any b (f : Frame F) :
  any (read_mode b f) = any f || is_some (extract_json_string b "mode").
Proof. unfold read_mode; split_matches; simpl; now rewrite ?orb_true_r, ?orb_false_r. Qed.
Lemma read_colour_any b (f : Frame F) :
  any (read_colour stof b f) = any f || is_some (supplied_colour stof b).
Proof.
  unfold read_colour, supplied_colour; split_matches; simpl;
    now rewrite ?orb_true_r, ?orb_false_r.
Qed.
Lemma read_geometry_any b (f : Frame F) :
  any (read_geometry b f) = any f || is_some (extract_json_string b "geometry").
Proof.
  unfold read_geometry; destruct (extract_json_string b "geometry"); simpl;
    now rewrite ?orb_true_r, ?orb_false_r.
Qed.
Lemma read_segments_any b (f : Frame F) :
  any (read_segments stof b f) = any f || supplied_segments stof b.
Proof.
  unfold read_segments, supplied_segments.
  rewrite (extract_json_array_floats_flag b "segments" [] (tsegment (globals f))).
  destruct (extract_json_array_floats _ _ _ _ _) as [[[|] arr] n]; simpl;
    now rewrite ?orb_true_r, ?orb_false_r.
Qed.
Lemma read_width_any b (f : Frame F) :
  any (read_width stof b f) = any f || is_some (extract_json_number stof b "width").
Proof. unfold read_width; split_matches; simpl; now rewrite ?orb_true_r, ?orb_false_r. Qed.
Lemma read_percent_any b (f : Frame F) :
  any (read_percent stof b f) = any f || is_some (extract_json_number stof b "percent").
Proof. unfold read_percent; split_matches; simpl; now rewrite ?orb_true_r, ?orb_false_r. Qed.
Lemma read_elementColor_any b (f : Frame F) :
  any (read_elementColor b f) = any f || is_some (supplied_elementColor b).
Proof.
  unfold read_elementColor, supplied_elementColor; split_matches; simpl;
    now rewrite ?orb_true_r, ?orb_false_r.
Qed.
Lemma read_backgroundColor_any b (f : Frame F) :
  any (read_backgroundColor b f) = any f || is_some (supplied_backgroundColor b).
Proof.
  unfold read_backgroundColor, supplied_backgroundColor; split_matches; simpl;
    now rewrite ?orb_true_r, ?orb_false_r.
Qed.

End Blocks.

Create Rewrite HintDb keep_mode.
Create Rewrite HintDb keep_colour.
Create Rewrite HintDb keep_background.
Create Rewrite HintDb keep_size.
Create Rewrite HintDb count_any.

#[local] Hint Rewrite
  @read_colour_mode @read_geometry_mode @read_segments_mode @read_width_mode
  @read_percent_mode @read_elementColor_mode @read_backgroundColor_mode : keep_mode.
#[local] Hint Rewrite
  @read_mode_colour @read_geometry_colour @read_segments_colour
  @read_width_colour @read_percent_colour @read_elementColor_colour
  @read_backgroundColor_colour : keep_colour.
#[local] Hint Rewrite
  @read_mode_background @read_colour_background @read_geometry_background
  @read_segments_background @read_width_background @read_percent_background
  @read_elementColor_background : keep_background.
#[local] Hint Rewrite
  @read_mode_size @read_colour_size @read_geometry_size @read_segments_size
  @read_width_size @read_percent_size @read_elementColor_size
  @read_backgroundColor_size @enforce_mode_size : keep_size.
#[local] Hint Rewrite
  @read_mode_any @read_colour_any @read_geometry_any @read_segments_any
  @read_width_any @read_percent_any @read_elementColor_any
  @read_backgroundColor_any : count_any.

(** ** The eight blocks together *)

Section Fields.

Context {F : Type} {float_ops : Float F}.

Variable stof : string -> option F.

Lemma parse_fields_mode b (g : Target F) :
  mode_view (parse_fields stof b g)
  = match extract_json_string b "mode" with
    | Some mode => mode
    | None => tmodeStr g
    end.
Proof.
  unfold parse_fields. autorewrite with keep_mode.
  unfold read_mode, mode_view.
  destruct (extract_json_string b "mode"); reflexivity.
Qed.

Lemma parse_fields_colour b (g : Target F) :
  colour_view (parse_fields stof b g)
  = match supplied_colour stof b with
    | Some col => (col, true)
    | None => (tcolourLevel g, false)
    end.
Proof.
  unfold parse_fields. autorewrite with keep_colour.
  unfold read_colour, supplied_colour.
  destruct (extract_json_number stof b "colour").
  - reflexivity.
  - now rewrite read_mode_colour.
Qed.

Lemma parse_fields_background b (g : Target F) :
  background_view (parse_fields stof b g)
  = match supplied_backgroundColor b with
    | Some rgb => (rgb, true)
    | None => (tbackgroundColorRGB g, false)
    end.
Proof.
  unfold parse_fields.
  set (f := read_elementColor b _).
  assert (Hf : background_view f = (tbackgroundColorRGB g, false)).
  { unfold f. now autorewrite with keep_background. }
  unfold read_backgroundColor, supplied_backgroundColor.
  destruct (extract_json_string b "backgroundColor") as [bhex|]; auto.
  destruct (parse_hex_color bhex); auto.
Qed.

(** The [any] flag is the count of the eight blocks. *)
Lemma parse_fields_any b (g : Target F) :
  any (parse_fields stof b g) = code_recognized stof b.
Proof.
  unfold parse_fields. autorewrite with count_any. reflexivity.
Qed.

Lemma parse_fields_size b (g : Target F) :
  segments_size (parse_fields stof b g) = List.length (tsegment g).
Proof.
  unfold parse_fields. now autorewrite with keep_size.
Qed.

(** The enforcement leaves the mode, the colour level and the flags. *)
Lemma enforce_mode_mode (f : Frame F) : mode_view (enforce_mode f) = mode_view f.
Proof. by_block enforce_mode. Qed.

Lemma enforce_mode_colour (f : Frame F) : colour_view (enforce_mode f) = colour_view f.
Proof. by_block enforce_mode. Qed.

Lemma enforce_mode_any (f : Frame F) : any (enforce_mode f) = any f.
Proof. reflexivity. Qed.

Lemma enforce_mode_heat (f : Frame F) :
  mode_view f = "heat" ->
  let g := globals (enforce_mode f) in
  tgeometryMode g = 0%Z /\ tgeomStr g = "ring" /\ telementColorRGB g = (lit 1, lit 1, lit 1)
  /\ thaveElementColor g = true
  /\ (gotBackgroundColor f = false ->
      tbackgroundColorRGB g = heat_colour_to_bg (tcolourLevel (globals f))
      /\ thaveBackgroundColor g = true)
  /\ (gotBackgroundColor f = true ->
      tbackgroundColorRGB g = tbackgroundColorRGB (globals f)).
Proof.
  unfold mode_view, enforce_mode. intros ->. simpl.
  destruct (gotBackgroundColor f); simpl; repeat split; intros; auto; discriminate.
Qed.

Lemma enforce_mode_custom (f : Frame F) :
  mode_view f <> "heat" ->
  tbackgroundColorRGB (globals (enforce_mode f))
  = if negb (gotBackgroundColor f) && gotColour f
    then heat_colour_to_bg (tcolourLevel (globals f))
    else tbackgroundColorRGB (globals f).
Proof.
  unfold mode_view, enforce_mode. intros Hm.
  destruct (String.eqb_spec (tmodeStr (globals f)) "heat") as [E|_]; [contradiction|].
  destruct (negb (gotBackgroundColor f) && gotColour f); reflexivity.
Qed.

(** The answer is decided by the count of the eight blocks alone. *)
Lemma post_update_answer b t (g : Target F) :
  fst (post_update stof API_TOKEN b t g)
  = if code_recognized stof b then OK else NoValidFields.
Proof.
  unfold post_update, read_fields.
  rewrite String.eqb_refl, enforce_mode_any, parse_fields_any.
  destruct (code_recognized stof b); reflexivity.
Qed.

(** An accepted request: the globals are those of the [try] block, with the
    time stamp. *)
Lemma post_update_accepted token b t (g g' : Target F) :
  post_update stof token b t g = (OK, g') ->
  g' = set_updateTime t (globals (read_fields stof b g)).
Proof.
  unfold post_update.
  destruct (negb (token =? API_TOKEN)%string); [discriminate|].
  destruct (negb (any (read_fields stof b g))); [discriminate|].
  now intros [= <-].
Qed.

(** The segment array keeps its size over a request. *)
Lemma post_update_wf token b t (g : Target F) :
  wf_target g -> wf_target (snd (post_update stof token b t g)).
Proof.
  unfold wf_target, post_update. intros H.
  destruct (negb (token =? API_TOKEN)%string); [exact H|].
  pose proof (parse_fields_size b g) as Hs.
  rewrite <- enforce_mode_size in Hs. unfold segments_size in Hs.
  unfold read_fields.
  destruct (negb (any _)); cbn [snd]; unfold set_updateTime; cbn [tsegment]; congruence.
Qed.

End Fields.


(** ** Heat mode and custom mode *)

(** C3.  After an accepted request that leaves the mode on heat, the stored
    target geometry is ring (mode 0, name "ring") and the stored target
    element colour is (1,1,1), whatever geometry or element colour the
    body asked for.  The statement is about the globals the handler leaves
    behind, not about a later reader; it holds in every arithmetic. *)
Theorem heat_forces_ring_and_white
  {F : Type} {float_ops : Float F}
  (stof : string -> option F) (token b : string) (t : F) (g g' : Target F) :
  post_update stof token b t g = (OK, g') ->
  tmodeStr g' = "heat" ->
  tgeometryMode g' = 0%Z /\ tgeomStr g' = "ring"
  /\ telementColorRGB g' = (lit 1, lit 1, lit 1).
Proof.
  intros Hacc Hmode. apply post_update_accepted in Hacc. subst g'.
  unfold read_fields in *.
  assert (Hm : mode_view (parse_fields stof b g) = "heat").
  { rewrite <- enforce_mode_mode. exact Hmode. }
  destruct (enforce_mode_heat _ Hm) as (Hgeo & Hname & Hel & _).
  repeat split; assumption.
Qed.

Lemma heat_forces_ring_and_white_witness :
  let g' := snd (post_update stof32 API_TOKEN body_heat_square (lit 5) initial_target) in
  extract_json_string body_heat_square "geometry" = Some "square"
  /\ tgeometryMode g' = 0%Z /\ tgeomStr g' = "ring"
  /\ telementColorRGB g' = (lit 1, lit 1, lit 1).
Proof.
  split; [reflexivity|].
  apply (heat_forces_ring_and_white stof32 API_TOKEN body_heat_square (lit 5)
           initial_target); reflexivity.
Defined.

(** C4.  After an accepted request that leaves the mode on heat: when the
    body supplies no explicit background colour, the target background is
    [heat_colour_to_bg] of the resulting colour level and the background
    flag is set; that level is the earlier one when the body supplies no
    colour, and the supplied one otherwise.  When the body supplies an
    explicit background colour, the target background is that colour. *)
Theorem heat_background_follows_colour
  {F : Type} {float_ops : Float F}
  (stof : string -> option F) (token b : string) (t : F) (g g' : Target F) :
  post_update stof token b t g = (OK, g') ->
  tmodeStr g' = "heat" ->
  (supplied_backgroundColor b = None ->
     tbackgroundColorRGB g' = heat_colour_to_bg (tcolourLevel g')
     /\ thaveBackgroundColor g' = true)
  /\ (supplied_backgroundColor b = None -> supplied_colour stof b = None ->
     tbackgroundColorRGB g' = heat_colour_to_bg (tcolourLevel g))
  /\ (forall col, supplied_backgroundColor b = None ->
     supplied_colour stof b = Some col ->
     tbackgroundColorRGB g' = heat_colour_to_bg col)
  /\ (forall rgb, supplied_backgroundColor b = Some rgb ->
     tbackgroundColorRGB g' = rgb).
Proof.
  intros Hacc Hmode. apply post_update_accepted in Hacc. subst g'.
  unfold read_fields in *.
  set (f := parse_fields stof b g) in *.
  assert (Hm : mode_view f = "heat").
  { rewrite <- enforce_mode_mode. exact Hmode. }
  destruct (enforce_mode_heat _ Hm) as (_ & _ & _ & _ & Hnone & Hsome).
  pose proof (parse_fields_background stof b g) as Hbg. fold f in Hbg.
  pose proof (parse_fields_colour stof b g) as Hcol. fold f in Hcol.
  pose proof (enforce_mode_colour f) as Hkeep.
  unfold background_view in Hbg. unfold colour_view in Hcol, Hkeep.
  assert (Hlevel : tcolourLevel (globals (enforce_mode f)) = tcolourLevel (globals f))
    by congruence.
  cbn [tbackgroundColorRGB thaveBackgroundColor tcolourLevel set_updateTime].
  split; [|split; [|split]].
  - intros Hb. rewrite Hb in Hbg. rewrite Hlevel. apply Hnone. congruence.
  - intros Hb Hc. rewrite Hb in Hbg. rewrite Hc in Hcol.
    replace (tcolourLevel g) with (tcolourLevel (globals f)) by congruence.
    apply Hnone. congruence.
  - intros col Hb Hc. rewrite Hb in Hbg. rewrite Hc in Hcol.
    replace col with (tcolourLevel (globals f)) by congruence.
    apply Hnone. congruence.
  - intros rgb Hb. rewrite Hb in Hbg.
    rewrite Hsome by congruence. congruence.
Qed.

Lemma heat_background_follows_colour_witness :
  let g' := snd (post_update stof32 API_TOKEN body_heat_square (lit 5) initial_target) in
  supplied_colour stof32 body_heat_square = Some (lit 15)
  /\ ((supplied_backgroundColor (F := spec_float) body_heat_square = None ->
       tbackgroundColorRGB g' = heat_colour_to_bg (tcolourLevel g')
       /\ thaveBackgroundColor g' = true)
      /\ (supplied_backgroundColor (F := spec_float) body_heat_square = None ->
          supplied_colour stof32 body_heat_square = None ->
          tbackgroundColorRGB g' = heat_colour_to_bg (tcolourLevel initial_target))
      /\ (forall col, supplied_backgroundColor (F := spec_float) body_heat_square = None ->
          supplied_colour stof32 body_heat_square = Some col ->
          tbackgroundColorRGB g' = heat_colour_to_bg col)
      /\ (forall rgb, supplied_backgroundColor body_heat_square = Some rgb ->
          tbackgroundColorRGB g' = rgb)).
Proof.
  split; [reflexivity|].
  apply (heat_background_follows_colour stof32 API_TOKEN body_heat_square (lit 5)
           initial_target); reflexivity.
Defined.

(** The explicit branch of C4 on an example: the background #110022 of a
    heat request is stored as it is. *)
Example heat_keeps_explicit_background :
  let g' := snd (post_update stof32 API_TOKEN body_heat_explicit_bg (lit 5) initial_target) in
  tmodeStr g' = "heat"
  /\ supplied_backgroundColor body_heat_explicit_bg = Some (tbackgroundColorRGB g')
  /\ tbackgroundColorRGB g' = (lit (17 # 255), lit 0, lit (34 # 255)).
Proof. repeat split. Qed.

(** C5.  Outside heat mode (so in custom mode), an accepted request that
    supplies a colour level and no explicit background colour sets the
    target background to [heat_colour_to_bg] of that level; an accepted
    request that supplies neither leaves the target background as it was. *)
Theorem custom_colour_is_one_shot
  {F : Type} {float_ops : Float F}
  (stof : string -> option F) (token b1 b2 : string) (t1 t2 : F)
  (g g1 g2 g3 : Target F) (col : F) :
  post_update stof token b1 t1 g = (OK, g1) ->
  tmodeStr g1 <> "heat" ->
  supplied_colour stof b1 = Some col ->
  supplied_backgroundColor (F := F) b1 = None ->
  post_update stof token b2 t2 g2 = (OK, g3) ->
  tmodeStr g3 <> "heat" ->
  supplied_colour stof b2 = None ->
  supplied_backgroundColor (F := F) b2 = None ->
  tbackgroundColorRGB g1 = heat_colour_to_bg col
  /\ tbackgroundColorRGB g3 = tbackgroundColorRGB g2.
Proof.
  intros Hacc1 Hm1 Hc1 Hb1 Hacc2 Hm2 Hc2 Hb2.
  apply post_update_accepted in Hacc1, Hacc2. subst g1 g3.
  unfold read_fields in *.
  cbn [tbackgroundColorRGB tmodeStr set_updateTime] in *.
  split.
  - set (f := parse_fields stof b1 g) in *.
    pose proof (parse_fields_background stof b1 g) as Hbg. fold f in Hbg.
    pose proof (parse_fields_colour stof b1 g) as Hcol. fold f in Hcol.
    rewrite Hb1 in Hbg. rewrite Hc1 in Hcol.
    unfold background_view in Hbg. unfold colour_view in Hcol.
    rewrite enforce_mode_custom.
    + replace (gotBackgroundColor f) with false by congruence.
      replace (gotColour f) with true by congruence.
      simpl. congruence.
    + rewrite <- enforce_mode_mode. exact Hm1.
  - set (f := parse_fields stof b2 g2) in *.
    pose proof (parse_fields_background stof b2 g2) as Hbg. fold f in Hbg.
    pose proof (parse_fields_colour stof b2 g2) as Hcol. fold f in Hcol.
    rewrite Hb2 in Hbg. rewrite Hc2 in Hcol.
    unfold background_view in Hbg. unfold colour_view in Hcol.
    rewrite enforce_mode_custom.
    + replace (gotColour f) with false by congruence.
      rewrite andb_false_r. congruence.
    + rewrite <- enforce_mode_mode. exact Hm2.
Qed.

Lemma custom_colour_is_one_shot_witness :
  let g1 := snd (post_update stof32 API_TOKEN body_custom_colour_80 (lit 5) initial_target) in
  let g3 := snd (post_update stof32 API_TOKEN body_width_60 (lit 6) g1) in
  tbackgroundColorRGB g1 = heat_colour_to_bg (lit 80)
  /\ tbackgroundColorRGB g3 = tbackgroundColorRGB g1.
Proof.
  apply (custom_colour_is_one_shot stof32 API_TOKEN
           body_custom_colour_80 body_width_60 (lit 5) (lit 6) initial_target);
    first [reflexivity | discriminate].
Defined.

(** ** Acceptance and rejection *)

(** A body with a recognized field, as the specification counts them, is
    accepted. *)
Lemma recognized_is_accepted
  {F : Type} {float_ops : Float F}
  (stof : string -> option F) (b : string) (t : F) (g : Target F) :
  spec_recognized stof b = true ->
  fst (post_update stof API_TOKEN b t g) = OK.
Proof.
  intros H. rewrite post_update_answer.
  replace (code_recognized stof b) with true; [reflexivity|].
  symmetry. revert H. unfold spec_recognized, code_recognized.
  destruct (extract_json_string b "geometry") as [geom|]; [|exact (fun H => H)].
  intros _. cbn [is_some]. now rewrite !orb_true_r.
Qed.

(** A rejected body has no recognized field. *)
Lemma rejected_has_no_field
  {F : Type} {float_ops : Float F}
  (stof : string -> option F) (b : string) (t : F) (g : Target F) :
  fst (post_update stof API_TOKEN b t g) = NoValidFields ->
  spec_recognized stof b = false.
Proof.
  intros H. destruct (spec_recognized stof b) eqn:E; [|reflexivity].
  rewrite (recognized_is_accepted stof b t g E) in H. discriminate.
Qed.

(** C1.  The body [{"geometry":"hexagon"}] has no recognized field: its
    only key is geometry and the value names no shape.  The handler
    nevertheless answers 200 "OK", for every state, every [stof] and every
    arithmetic. *)
Theorem unknown_geometry_is_accepted :
  forall {F : Type} {float_ops : Float F}
         (stof : string -> option F) (t : F) (g : Target F),
    extract_json_string body_unknown_geometry "geometry" = Some "hexagon"
    /\ known_geometry "hexagon" = false
    /\ spec_recognized stof body_unknown_geometry = false
    /\ fst (post_update stof API_TOKEN body_unknown_geometry t g) = OK.
Proof.
  intros F float_ops stof t g. repeat split; reflexivity.
Qed.

(** C2.  Rejected requests that change the target state, in single
    precision.  The body [{}] on the initial state is answered 400
    "No valid fields", yet the background colour has become
    [heat_colour_to_bg 30] (green about 0.4545) instead of (0,0,1) and both
    colour flags have become true.  After an accepted heat request with the
    explicit background #110022, the rejected body [{}] replaces that
    background by [heat_colour_to_bg 30].  The body
    [{"segments":[7, 8.5,x,3]}] is rejected as well, yet the first two
    segment values have been overwritten. *)
Theorem rejected_request_changes_target :
  let r1 := post_update stof32 API_TOKEN body_empty (lit 5) initial_target in
  let r2 := post_update stof32 API_TOKEN body_bad_segments (lit 5) initial_target in
  let r3 := post_update stof32 API_TOKEN body_heat_explicit_bg (lit 5) initial_target in
  let r4 := post_update stof32 API_TOKEN body_empty (lit 6) (snd r3) in
  fst r1 = NoValidFields
  /\ tbackgroundColorRGB (F := spec_float) initial_target = (lit 0, lit 0, lit 1)
  /\ tbackgroundColorRGB (snd r1) = heat_colour_to_bg (lit 30)
  /\ 0.45 < value32 (green (tbackgroundColorRGB (snd r1))) < 0.46
  /\ thaveElementColor (F := spec_float) initial_target = false
  /\ thaveElementColor (snd r1) = true
  /\ thaveBackgroundColor (F := spec_float) initial_target = false
  /\ thaveBackgroundColor (snd r1) = true
  /\ snd r1 <> initial_target
  /\ fst r3 = OK
  /\ tbackgroundColorRGB (snd r3) = (lit (17 # 255), lit 0, lit (34 # 255))
  /\ fst r4 = NoValidFields
  /\ tbackgroundColorRGB (snd r4) = heat_colour_to_bg (lit 30)
  /\ snd r4 <> snd r3
  /\ fst r2 = NoValidFields
  /\ tsegment (F := spec_float) initial_target = repeat (lit 0) 10
  /\ tsegment (snd r2) = ([lit 7; lit 8.5] ++ repeat (lit 0) 8)%list
  /\ snd r2 <> initial_target.
Proof.
  cbv zeta. repeat split; try reflexivity.
  - intros E. apply (f_equal thaveBackgroundColor) in E. vm_compute in E. discriminate.
  - intros E. apply (f_equal tbackgroundColorRGB) in E. vm_compute in E. discriminate.
  - intros E. apply (f_equal tsegment) in E. vm_compute in E. discriminate.
Qed.

(** A request without the token changes nothing. *)
Lemma unauthorized_changes_nothing
  {F : Type} {float_ops : Float F}
  (stof : string -> option F) (token b : string) (t : F) (g : Target F) :
  token <> API_TOKEN ->
  post_update stof token b t g = (mkResponse 401 EmptyString, g).
Proof.
  intros H. unfold post_update.
  destruct (String.eqb_spec token API_TOKEN) as [E|_]; [contradiction|reflexivity].
Qed.

(** The width and percent blocks clamp what they assign; the colour block
    assigns the number as it is. *)
Lemma read_width_clamps
  {F : Type} {float_ops : Float F}
  (stof : string -> option F) (b : string) (f : Frame F) (w : F) :
  extract_json_number stof b "width" = Some w ->
  telementWidth (globals (read_width stof b f)) = clamp w (lit 0) (lit 100).
Proof.
  intros E. unfold read_width. now rewrite E.
Qed.

Lemma read_percent_clamps
  {F : Type} {float_ops : Float F}
  (stof : string -> option F) (b : string) (f : Frame F) (pct : F) :
  extract_json_number stof b "percent" = Some pct ->
  tpercent (globals (read_percent stof b f)) = clamp pct (lit 0) (lit 1).
Proof.
  intros E. unfold read_percent. now rewrite E.
Qed.

Lemma read_colour_assigns
  {F : Type} {float_ops : Float F}
  (stof : string -> option F) (b : string) (f : Frame F) (col : F) :
  extract_json_number stof b "colour" = Some col ->
  tcolourLevel (globals (read_colour stof b f)) = col.
Proof.
  intros E. unfold read_colour. now rewrite E.
Qed.

(** C6.  In single precision, the body [{"colour":150}] is accepted and the
    target colour level becomes 150, outside [0,100]; eighteen frames of
    0.1 s later the live colour level is 102, outside [0,100] as well. *)
Theorem colour_level_is_not_clamped :
  let r := serve stof32 API_TOKEN body_colour_150 initial_globals in
  let w := frames (repeat (lit 0.1) 18) (snd r) in
  fst r = OK
  /\ tcolourLevel (target (snd r)) = lit 150
  /\ value32 (tcolourLevel (target (snd r))) == 150
  /\ f_lt (lit 100) (tcolourLevel (target (snd r))) = true
  /\ value32 (colourLevel (live w)) == 102
  /\ f_lt (lit 100) (colourLevel (live w)) = true.
Proof.
  cbv zeta. repeat split; vm_compute; reflexivity.
Qed.

(** ** Keys are searched, not parsed *)

(** C10.  Presence of a field is the presence of the quoted key anywhere
    in the text.  In [{"mode":"colour","width":5}] the text ["colour"]
    occurs once, as the value of mode; the number helper finds it there,
    takes the next colon, the one of width, and delivers 5: the request
    sets the colour level to 5.  In [{"geometry":"mode","x":"heat"}] the
    string helper does the same for the key mode and delivers "heat". *)
Theorem key_inside_a_value_is_taken_for_a_field :
  exists body1 body2 : string,
    body1 = body_colour_in_value
    /\ index 0 (quoted "colour") body1 = Some 8%nat
    /\ index 9 (quoted "colour") body1 = None
    /\ extract_json_string body1 "mode" = Some "colour"
    /\ extract_json_number stof32 body1 "colour" = Some (lit 5)
    /\ supplied_colour stof32 body1 = Some (lit 5)
    /\ fst (post_update stof32 API_TOKEN body1 (lit 0) initial_target) = OK
    /\ tcolourLevel (snd (post_update stof32 API_TOKEN body1 (lit 0) initial_target))
       = lit 5
    /\ body2 = body_mode_in_value
    /\ index 0 (quoted "mode") body2 = Some 12%nat
    /\ index 13 (quoted "mode") body2 = None
    /\ extract_json_string body2 "geometry" = Some "mode"
    /\ extract_json_string body2 "mode" = Some "heat".
Proof.
  exists body_colour_in_value, body_mode_in_value.
  repeat split; vm_compute; reflexivity.
Qed.

(** ** Hexadecimal colours *)

Example parse_hex_color_green :
  parse_hex_color (F := spec_float) "#00FF00" = Some (lit 0, lit 1, lit 0).
Proof. reflexivity. Qed.

Example parse_hex_color_bad : parse_hex_color (F := spec_float) "bad" = None.
Proof. reflexivity. Qed.

(** ** Comparisons and clamping of exact numbers *)

Ltac exact_ops :=
  cbn [lit f_add f_sub f_mul f_div f_neg f_lt f_le f_finite exact] in *.

Lemma Qltb_true (x y : Q) : Qltb x y = true <-> x < y.
Proof.
  unfold Qltb. rewrite negb_true_iff, <- not_true_iff_false, Qle_bool_iff.
  split; [apply Qnot_le_lt | apply Qlt_not_le].
Qed.

Lemma Qltb_false (x y : Q) : Qltb x y = false <-> y <= x.
Proof.
  unfold Qltb. rewrite negb_false_iff. apply Qle_bool_iff.
Qed.

Lemma Qle_bool_false (x y : Q) : Qle_bool x y = false <-> y < x.
Proof.
  rewrite <- not_true_iff_false, Qle_bool_iff.
  split; [apply Qnot_le_lt | apply Qlt_not_le].
Qed.

(** The three outcomes of [compat::clamp]. *)
Lemma clamp_cases (v lo hi : Q) :
  (v < lo /\ clamp v lo hi = lo)
  \/ (lo <= v /\ hi < v /\ clamp v lo hi = hi)
  \/ (lo <= v /\ v <= hi /\ clamp v lo hi = v).
Proof.
  unfold clamp. exact_ops.
  destruct (Qltb v lo) eqn:E1.
  - left. split; [now apply Qltb_true | reflexivity].
  - apply Qltb_false in E1. destruct (Qltb hi v) eqn:E2.
    + right; left. repeat split; auto. now apply Qltb_true.
    + right; right. repeat split; auto. now apply Qltb_false.
Qed.

Lemma clamp_inside (v lo hi : Q) : lo <= v -> v <= hi -> clamp v lo hi = v.
Proof.
  intros H1 H2. destruct (clamp_cases v lo hi) as [[H _]|[(_ & H & _)|(_ & _ & H)]];
    [lra | lra | exact H].
Qed.

Lemma clamp_range (v lo hi : Q) : lo <= hi -> lo <= clamp v lo hi <= hi.
Proof.
  intros H. destruct (clamp_cases v lo hi) as [[? E]|[(? & ? & E)|(? & ? & E)]];
    rewrite E; lra.
Qed.

Lemma frame_dt_range (elapsed : Q) : 0 <= frame_dt elapsed <= 0.1.
Proof. unfold frame_dt. exact_ops. apply clamp_range. lra. Qed.

(** After a stall the loop still uses [dt = 0.1]. *)
Lemma frame_dt_after_stall (elapsed : Q) : 0.1 < elapsed -> frame_dt elapsed = 0.1.
Proof.
  intros H. unfold frame_dt. exact_ops.
  destruct (clamp_cases elapsed 0 0.1) as [[H1 _]|[(_ & _ & E)|(_ & H2 & _)]];
    [lra | exact E | lra].
Qed.

(** ** The heat gradient *)

Lemma heat_cold (c : Q) :
  0 <= c -> c <= 33 ->
  heat_colour_to_bg c = (0, c / 33 * 0.5, 0.4 + c / 33 * 0.4).
Proof.
  intros H0 H1. unfold heat_colour_to_bg. exact_ops.
  rewrite (clamp_inside c 0 100) by lra.
  replace (Qle_bool c 33) with true; [reflexivity|].
  symmetry. now apply Qle_bool_iff.
Qed.

Lemma heat_medium (c : Q) :
  33 < c -> c <= 66 ->
  heat_colour_to_bg c = ((c - 33) / 33, 0.6 + (c - 33) / 33 * 0.4, 1 - (c - 33) / 33).
Proof.
  intros H0 H1. unfold heat_colour_to_bg. exact_ops.
  rewrite (clamp_inside c 0 100) by lra.
  replace (Qle_bool c 33) with false by (symmetry; now apply Qle_bool_false).
  replace (Qle_bool c 66) with true; [reflexivity|].
  symmetry. now apply Qle_bool_iff.
Qed.

Lemma heat_hot (c : Q) :
  66 < c -> c <= 100 ->
  heat_colour_to_bg c = (1, 1 - (c - 66) / 34, 0).
Proof.
  intros H0 H1. unfold heat_colour_to_bg. exact_ops.
  rewrite (clamp_inside c 0 100) by lra.
  replace (Qle_bool c 33) with false by (symmetry; apply Qle_bool_false; lra).
  replace (Qle_bool c 66) with false; [reflexivity|].
  symmetry. now apply Qle_bool_false.
Qed.

(** At 66 the two formulas meet: the value at 66 is (1,1,0), and just above
    66 green is below 1 by [(c - 66) / 34] only. *)
Lemma heat_gradient_continuous_at_66 (c : Q) :
  66 < c -> c <= 100 ->
  rgb_eq (heat_colour_to_bg 66) (1, 1, 0)
  /\ rgb_eq (heat_colour_to_bg c) (1, 1 - (c - 66) / 34, 0).
Proof.
  intros H0 H1. rewrite (heat_hot c H0 H1).
  split; [vm_compute; repeat split; reflexivity | repeat split; reflexivity].
Qed.

(** C7.  At 33 the two formulas do not meet.  In exact arithmetic the
    value at 33 is (0, 0.5, 0.8), and for a level [c] in (33,66] the value
    is [((c-33)/33, 0.6 + 0.4 (c-33)/33, 1 - (c-33)/33)], which tends to
    (0, 0.6, 1) as [c] tends to 33: green is never closer than 0.1 to the
    green at 33.  In single precision, from 33 to the next [float] above
    33, green goes from 0.5 to more than 0.59 and blue from less than 0.81
    to more than 0.99. *)
Theorem heat_gradient_jumps_at_33 (c : Q) :
  33 < c -> c <= 66 ->
  rgb_eq (heat_colour_to_bg 33) (0, 0.5, 0.8)
  /\ rgb_eq (heat_colour_to_bg c)
       ((c - 33) / 33, 0.6 + 0.4 * ((c - 33) / 33), 1 - (c - 33) / 33)
  /\ 0.1 <= green (heat_colour_to_bg c) - green (heat_colour_to_bg 33)
  /\ value32 above_33 - value32 (lit 33) == 1 # 262144
  /\ value32 (green (heat_colour_to_bg (lit (F := spec_float) 33))) == 0.5
  /\ 0.59 < value32 (green (heat_colour_to_bg above_33))
  /\ value32 (blue (heat_colour_to_bg (lit (F := spec_float) 33))) < 0.81
  /\ 0.99 < value32 (blue (heat_colour_to_bg above_33)).
Proof.
  intros H0 H1. rewrite (heat_medium c H0 H1).
  split; [|split; [|split]].
  - vm_compute. repeat split; reflexivity.
  - repeat split; try reflexivity. cbn. ring.
  - rewrite (heat_cold 33) by lra. unfold green. cbn [fst snd].
    assert (0 <= (c - 33) / 33).
    { apply Qle_shift_div_l; lra. }
    assert (E : 33 / 33 == 1) by reflexivity.
    rewrite E. lra.
  - repeat split; vm_compute; reflexivity.
Qed.

Lemma heat_gradient_jumps_at_33_witness :
  rgb_eq (heat_colour_to_bg 33) (0, 0.5, 0.8)
  /\ rgb_eq (heat_colour_to_bg 33.001)
       ((33.001 - 33) / 33, 0.6 + 0.4 * ((33.001 - 33) / 33), 1 - (33.001 - 33) / 33)
  /\ 0.1 <= green (heat_colour_to_bg 33.001) - green (heat_colour_to_bg 33)
  /\ value32 above_33 - value32 (lit 33) == 1 # 262144
  /\ value32 (green (heat_colour_to_bg (lit (F := spec_float) 33))) == 0.5
  /\ 0.59 < value32 (green (heat_colour_to_bg above_33))
  /\ value32 (blue (heat_colour_to_bg (lit (F := spec_float) 33))) < 0.81
  /\ 0.99 < value32 (blue (heat_colour_to_bg above_33)).
Proof.
  apply (heat_gradient_jumps_at_33 33.001); vm_compute; congruence.
Defined.

(** ** Interpolation *)

Lemma length_10 {A : Type} (l : list A) :
  List.length l = 10%nat ->
  exists a0 a1 a2 a3 a4 a5 a6 a7 a8 a9, l = [a0; a1; a2; a3; a4; a5; a6; a7; a8; a9].
Proof.
  intros H.
  do 10 (destruct l as [|? l]; [discriminate|]).
  destruct l; [|discriminate].
  repeat eexists.
Qed.

Section Frames.

Context {F : Type} {float_ops : Float F}.

Lemma approach_segments_length (seg tseg : list F) (dt : F) :
  List.length (approach_segments seg tseg dt) = List.length seg.
Proof.
  unfold approach_segments. generalize (seq 0 SEGMENTS). intros idx.
  revert seg. induction idx as [|i idx IH]; intros seg; simpl; auto.
  rewrite IH. apply store_length.
Qed.

Lemma frame_wf (elapsed : F) (w : Globals F) :
  wf_live (live w) -> wf_live (live (frame elapsed w)).
Proof.
  unfold wf_live. intros H. simpl. now rewrite approach_segments_length.
Qed.

Lemma frames_cons (e : F) (l : list F) (w : Globals F) :
  frames (e :: l) w = frames l (frame e w).
Proof. reflexivity. Qed.


(** Every interpolated live value is assigned by [approach], from its own
    target, with its own rate. *)
Lemma frame_values (elapsed : F) (w : Globals F) (i : nat) :
  wf_target (target w) -> wf_live (live w) ->
  (i < INTERPOLATED)%nat ->
  live_value i (frame elapsed w)
  = approach (live_value i w) (target_value i w) (rate i) (frame_dt elapsed).
Proof.
  destruct w as [clock g l]. unfold wf_target, wf_live. cbn [target live].
  intros Hg Hl Hi.
  destruct (length_10 _ Hg) as (b0 & b1 & b2 & b3 & b4 & b5 & b6 & b7 & b8 & b9 & Eg).
  destruct (length_10 _ Hl) as (a0 & a1 & a2 & a3 & a4 & a5 & a6 & a7 & a8 & a9 & El).
  unfold live_value, target_value, rate, frame. cbn [target live].
  generalize (frame_dt elapsed). intros dt.
  unfold live_values, target_values, interpolate.
  cbn [colourLevel elementWidth percent segment elementColorRGB backgroundColorRGB].
  rewrite Eg, El.
  destruct (telementColorRGB g) as [[ter teg] teb].
  destruct (tbackgroundColorRGB g) as [[tbr tbg] tbb].
  destruct (elementColorRGB l) as [[er eg] eb].
  destruct (backgroundColorRGB l) as [[br bg] bb].
  unfold INTERPOLATED, SEGMENTS in Hi.
  do 19 (destruct i as [|i]; [reflexivity|]).
  exfalso. simpl in Hi. lia.
Qed.

End Frames.

(** *** In exact arithmetic *)

(** One assignment [x += clamp(tx - x, -rate*dt, rate*dt)]. *)
Lemma approach_chases (rate dt x tx : Q) :
  0 <= rate * dt -> chases (rate * dt) x tx (approach x tx rate dt).
Proof.
  intros Hr. unfold chases, approach. exact_ops.
  destruct (clamp_cases (tx - x) (- rate * dt) (rate * dt))
    as [[H E]|[(H1 & H2 & E)|(H1 & H2 & E)]]; rewrite E;
    repeat split; try lra; try (intros; lra).
Qed.

Lemma approach_at_target (rate dt x tx : Q) :
  0 <= rate * dt -> x == tx -> approach x tx rate dt == tx.
Proof.
  intros Hr E. apply (approach_chases rate dt x tx Hr). lra.
Qed.

Lemma rates_nonneg (i : nat) (dt : Q) : 0 <= dt -> 0 <= rate i * dt.
Proof.
  intros H.
  assert (Hr : 0 <= rate i).
  { unfold rate, rates, SEGMENTS, ANIMSTEP. exact_ops. simpl.
    do 19 (destruct i as [|i]; [simpl; lra|]). destruct i; simpl; lra. }
  apply Qmult_le_0_compat; assumption.
Qed.

(** A value that sits on its target stays there, frame after frame. *)
Lemma frames_stable (l : list Q) : forall (w : Globals Q) (i : nat),
  wf_target (target w) -> wf_live (live w) ->
  (i < INTERPOLATED)%nat ->
  live_value i w == target_value i w ->
  live_value i (frames l w) == target_value i w.
Proof.
  induction l as [|e l IH]; intros w i Hg Hl Hi E; [exact E|].
  rewrite frames_cons.
  change (target_value i w) with (target_value i (frame e w)).
  apply IH; auto using frame_wf.
  rewrite frame_values by assumption.
  apply approach_at_target; [|exact E].
  apply rates_nonneg, frame_dt_range.
Qed.

(** *** In single precision *)

(** A live value on its target is left as it is, whenever the lower bound
    of the clamp is not above zero and the upper bound not below. *)
Lemma approach_on_target32 (s : bool) (m : positive) (e : Z) (rate dt : spec_float) :
  let x := S754_finite s m e in
  f_lt (lit 0) (f_mul (f_neg rate) dt) = false ->
  f_lt (f_mul rate dt) (lit 0) = false ->
  approach x x rate dt = x.
Proof.
  intros x Hlo Hhi. unfold approach, clamp.
  assert (E : f_sub x x = lit 0).
  { unfold x. cbn [f_sub binary32 lit]. unfold SFsub.
    rewrite Z.sub_diag. reflexivity. }
  rewrite E, Hlo, Hhi. reflexivity.
Qed.

(** From 0 towards 100 with rate 40 and [dt = 1]: 40, then 80, then 100,
    and 100 from then on. *)
Example approach_0_100_in_binary32 :
  approach (F := spec_float) (lit 0) (lit 100) (lit 40) (lit 1) = lit 40
  /\ approach (F := spec_float) (lit 40) (lit 100) (lit 40) (lit 1) = lit 80
  /\ approach (F := spec_float) (lit 80) (lit 100) (lit 40) (lit 1) = lit 100
  /\ approach (F := spec_float) (lit 100) (lit 100) (lit 40) (lit 1) = lit 100.
Proof. repeat split. Qed.

(** The claim C8 as it is stated fails in the arithmetic of the program.
    After the request [{"mode":"custom","elementColor":"#010101"}] and four
    frames of 0.1 s the red channel of the live element colour is
    [x = 13421775 * 2^-26] (about 0.2) and its target is
    [tx = 8421505 * 2^-31], the [float] nearest to 1/255.  The reach of the
    fifth frame is [2 * 0.1], so the target is within reach.  The
    difference [tx - x] is [-421075295 * 2^-31] and needs 29 bits; it is
    rounded to [-13158603 * 2^-26], and [x] plus that is
    [263172 * 2^-26 = 8421504 * 2^-31]: the new value is not the target and
    lies below it, not between [x] and [tx].  The sixth frame reaches the
    target. *)
Lemma float_step_misses_target :
  let x := live_value ELEMENT_RED dimmed_4 in
  let tx := target_value ELEMENT_RED dimmed_4 in
  let reach := f_mul (rate ELEMENT_RED) (frame_dt (lit 0.1)) in
  let new := live_value ELEMENT_RED dimmed_5 in
  x = S754_finite false 13421775 (-26)
  /\ tx = S754_finite false 8421505 (-31)
  /\ new = approach x tx (rate ELEMENT_RED) (frame_dt (lit 0.1))
  /\ new = S754_finite false 8421504 (-31)
  /\ (- value32 reach <= value32 tx - value32 x <= value32 reach)
  /\ value32 new < value32 tx
  /\ value32 tx < value32 x
  /\ ~ chases32 reach x tx new
  /\ live_value ELEMENT_RED dimmed_6 = tx.
Proof.
  cbv zeta.
  assert (Hnew : value32 (live_value ELEMENT_RED dimmed_5)
                 < value32 (target_value ELEMENT_RED dimmed_4))
    by (vm_compute; reflexivity).
  assert (Hx : value32 (target_value ELEMENT_RED dimmed_4)
               < value32 (live_value ELEMENT_RED dimmed_4))
    by (vm_compute; reflexivity).
  repeat split; try (vm_compute; congruence); try assumption.
  unfold chases32, chases. intros (_ & [[H1 H2]|[H1 H2]] & _); lra.
Qed.

(** ** Signs in single precision *)

Lemma shr_1_nonneg (mrs : shr_record) :
  (0 <= shr_m mrs)%Z -> (0 <= shr_m (shr_1 mrs))%Z.
Proof.
  destruct mrs as [m r s]. cbn [shr_m].
  destruct m as [|p|p]; cbn; try lia; intros _; destruct p; cbn; lia.
Qed.

Lemma iter_shr_1_nonneg (p : positive) : forall mrs,
  (0 <= shr_m mrs)%Z -> (0 <= shr_m (iter_pos shr_1 p mrs))%Z.
Proof.
  induction p as [p IH|p IH|]; intros mrs H; cbn [iter_pos].
  - apply IH, IH, shr_1_nonneg, H.
  - apply IH, IH, H.
  - apply shr_1_nonneg, H.
Qed.

Lemma shr_fexp_nonneg (m e : Z) (l : location) :
  (0 <= m)%Z -> (0 <= shr_m (fst (shr_fexp prec emax m e l)))%Z.
Proof.
  intros H. unfold shr_fexp, shr.
  assert (H0 : (0 <= shr_m (shr_record_of_loc m l))%Z).
  { destruct l as [|[| |]]; exact H. }
  destruct (fexp prec emax (Zdigits2 m + e) - e)%Z; cbn [fst]; auto.
  now apply iter_shr_1_nonneg.
Qed.

Lemma round_nearest_even_nonneg (m : Z) (l : location) :
  (0 <= m)%Z -> (0 <= round_nearest_even m l)%Z.
Proof.
  intros H. destruct l as [|[| |]]; cbn; try lia. destruct (Z.even m); lia.
Qed.

(** Rounding keeps the sign and delivers no NaN. *)
Lemma binary_round_aux_signed (s : bool) (m e : Z) (l : location) :
  (0 <= m)%Z -> signed s (binary_round_aux prec emax s m e l).
Proof.
  intros H. unfold binary_round_aux.
  pose proof (shr_fexp_nonneg m e l H) as H1.
  destruct (shr_fexp prec emax m e l) as [mrs' e']. cbn [fst] in H1.
  pose proof (shr_fexp_nonneg _ e' loc_Exact
                (round_nearest_even_nonneg _ (loc_of_shr_record mrs') H1)) as H2.
  destruct (shr_fexp prec emax _ e' loc_Exact) as [mrs'' e'']. cbn [fst] in H2.
  destruct (shr_m mrs'') as [|p|p].
  - now left.
  - destruct (e'' <=? emax - prec)%Z; right; [right; eauto | now left].
  - lia.
Qed.

Lemma signed_not_nan (s : bool) (x : spec_float) : signed s x -> x <> S754_nan.
Proof. intros [->|[->|(m & e & ->)]]; discriminate. Qed.

(** A number with the sign bit set is not above zero, one without is not
    below. *)
Lemma signed_true_not_positive (x : spec_float) (s0 : bool) :
  signed true x -> SFltb (S754_zero s0) x = false.
Proof. intros [->|[->|(m & e & ->)]]; reflexivity. Qed.

Lemma signed_false_not_negative (x : spec_float) (s0 : bool) :
  signed false x -> SFltb x (S754_zero s0) = false.
Proof. intros [->|[->|(m & e & ->)]]; reflexivity. Qed.

Lemma signed_leb (x y : spec_float) : signed true x -> signed false y -> SFleb x y = true.
Proof.
  intros [->|[->|(m & e & ->)]] [->|[->|(m' & e' & ->)]]; reflexivity.
Qed.

Lemma SFmul_signed (sx sy : bool) (mx my : positive) (ex ey : Z) :
  signed (xorb sx sy)
    (SFmul prec emax (S754_finite sx mx ex) (S754_finite sy my ey)).
Proof. cbn [SFmul]. apply binary_round_aux_signed. lia. Qed.

(** ** The clamped elapsed time and the reach of an iteration *)

(** [dt] is a NaN (for an elapsed time that is one), a zero, or a finite
    number without sign bit. *)
Lemma frame_dt_shape (elapsed : spec_float) :
  frame_dt elapsed = S754_nan
  \/ (exists s, frame_dt elapsed = S754_zero s)
  \/ exists m e, frame_dt elapsed = S754_finite false m e.
Proof.
  unfold frame_dt, clamp. cbn [f_lt binary32].
  destruct (SFltb elapsed (lit 0)) eqn:E1.
  - right; left. exists false. reflexivity.
  - destruct (SFltb (lit (1 # 10)) elapsed) eqn:E2.
    + right; right. vm_compute. eauto.
    + destruct elapsed as [s|[|]| |[|] m e]; try discriminate; eauto.
Qed.

(** The bounds of the clamp for a rate that is a positive number: the
    lower bound is not above zero, the upper bound not below, and they are
    ordered unless [dt] is a NaN. *)
Lemma reach_signs (mr : positive) (er : Z) (elapsed : spec_float) :
  let rate := S754_finite false mr er in
  let dt := frame_dt elapsed in
  f_lt (lit 0) (f_mul (f_neg rate) dt) = false
  /\ f_lt (f_mul rate dt) (lit 0) = false
  /\ (dt <> S754_nan -> f_le (f_mul (f_neg rate) dt) (f_mul rate dt) = true).
Proof.
  cbv zeta. cbn [f_lt f_le f_mul f_neg binary32 SFopp negb].
  change (lit (F := spec_float) 0) with (S754_zero false).
  destruct (frame_dt_shape elapsed) as [->|[[s ->]|(m & e & ->)]].
  - repeat split. intros H. now contradiction H.
  - cbn [SFmul xorb]. destruct s; repeat split.
  - pose proof (SFmul_signed true false mr m er e) as Hlo.
    pose proof (SFmul_signed false false mr m er e) as Hhi.
    cbn [xorb] in Hlo, Hhi.
    split; [now apply signed_true_not_positive|].
    split; [now apply signed_false_not_negative|].
    intros _. now apply signed_leb.
Qed.

Lemma ANIMSTEP_finite : exists m e, ANIMSTEP = S754_finite false m e.
Proof. vm_compute. eauto. Qed.

Lemma colour_rate_finite : exists m e, lit (F := spec_float) 2 = S754_finite false m e.
Proof. vm_compute. eauto. Qed.

Lemma rate_finite (i : nat) :
  (i < INTERPOLATED)%nat -> exists m e, rate (F := spec_float) i = S754_finite false m e.
Proof.
  intros Hi. unfold INTERPOLATED, SEGMENTS in Hi.
  do 13 (destruct i as [|i]; [apply ANIMSTEP_finite|]).
  do 6 (destruct i as [|i]; [apply colour_rate_finite|]).
  lia.
Qed.

(** ** Comparisons in single precision *)

Lemma SFcompare_antisym (x y : spec_float) (c : comparison) :
  SFcompare x y = Some c -> SFcompare y x = Some (CompOpp c).
Proof.
  destruct x as [sx|sx| |sx mx ex], y as [sy|sy| |sy my ey]; cbn;
    try discriminate; intros [= <-];
    try (destruct sx); try (destruct sy); try reflexivity.
  - rewrite (Z.compare_antisym ex ey).
    destruct (ex ?= ey)%Z; cbn; try reflexivity.
    rewrite !Pos.compare_cont_antisym. cbn [CompOpp].
    now rewrite ?Pos.compare_cont_antisym.
  - rewrite (Z.compare_antisym ex ey).
    destruct (ex ?= ey)%Z; cbn; try reflexivity.
    rewrite !Pos.compare_cont_antisym. cbn [CompOpp].
    now rewrite ?Pos.compare_cont_antisym.
Qed.

Lemma SFcompare_refl (x : spec_float) : x <> S754_nan -> SFcompare x x = Some Eq.
Proof.
  destruct x as [s|s| |s m e]; cbn; intros H; try contradiction;
    try (destruct s; reflexivity).
  rewrite Z.compare_refl, Pos.compare_cont_refl. destruct s; reflexivity.
Qed.

Lemma SFcompare_some (x y : spec_float) :
  x <> S754_nan -> y <> S754_nan -> exists c, SFcompare x y = Some c.
Proof.
  destruct x, y; cbn; intros Hx Hy; try contradiction; eauto.
Qed.

Lemma SFleb_not_nan (x y : spec_float) :
  SFleb x y = true -> x <> S754_nan /\ y <> S754_nan.
Proof.
  unfold SFleb. destruct x, y; cbn; try discriminate; split; discriminate.
Qed.

Lemma SFleb_refl (x : spec_float) : x <> S754_nan -> SFleb x x = true.
Proof. intros H. unfold SFleb. now rewrite SFcompare_refl. Qed.

(** [!(x < y)] gives [y <= x] unless one of them is a NaN. *)
Lemma SFltb_false_leb (x y : spec_float) :
  x <> S754_nan -> y <> S754_nan -> SFltb x y = false -> SFleb y x = true.
Proof.
  intros Hx Hy. destruct (SFcompare_some x y Hx Hy) as [c Hc].
  unfold SFltb, SFleb. rewrite Hc, (SFcompare_antisym x y c Hc).
  destruct c; cbn; congruence.
Qed.

Lemma clamp_range32 (v lo hi : spec_float) :
  v <> S754_nan -> f_le lo hi = true ->
  f_le lo (clamp v lo hi) = true /\ f_le (clamp v lo hi) hi = true.
Proof.
  cbn [f_le f_lt binary32]. intros Hv Hb. unfold clamp. cbn [f_lt binary32].
  destruct (SFleb_not_nan lo hi Hb) as [Hlo Hhi].
  destruct (SFltb v lo) eqn:E1.
  - split; [now apply SFleb_refl | exact Hb].
  - destruct (SFltb hi v) eqn:E2.
    + split; [exact Hb | now apply SFleb_refl].
    + split; now apply SFltb_false_leb.
Qed.

(** ** The interpolation in single precision *)

Lemma frame_dt_nan (elapsed : spec_float) :
  frame_dt elapsed = S754_nan -> elapsed = S754_nan.
Proof.
  unfold frame_dt, clamp. cbn [f_lt binary32].
  destruct (SFltb elapsed (lit 0)); [vm_compute; discriminate|].
  destruct (SFltb (lit (1 # 10)) elapsed); [vm_compute; discriminate|].
  auto.
Qed.

(** Comparing with a zero does not look at its sign. *)
Lemma SFltb_zero_l (s s' : bool) (x : spec_float) :
  SFltb (S754_zero s) x = SFltb (S754_zero s') x.
Proof. destruct x; reflexivity. Qed.

Lemma SFltb_zero_r (s s' : bool) (x : spec_float) :
  SFltb x (S754_zero s) = SFltb x (S754_zero s').
Proof. destruct x; reflexivity. Qed.

(** What is below a bound that is not above zero is below zero, and what
    is above a bound that is not below zero is above zero. *)
Lemma SFltb_below_zero (d lo : spec_float) (s0 : bool) :
  SFltb d lo = true -> SFltb (S754_zero s0) lo = false ->
  SFltb d (S754_zero s0) = true.
Proof.
  destruct d as [sd|[|]| |[|] md ed], lo as [sl|[|]| |[|] ml el];
    cbn; intros H1 H2; try discriminate; reflexivity.
Qed.

Lemma SFltb_above_zero (d hi : spec_float) (s0 : bool) :
  SFltb hi d = true -> SFltb hi (S754_zero s0) = false ->
  SFltb (S754_zero s0) d = true.
Proof.
  destruct d as [sd|[|]| |[|] md ed], hi as [sl|[|]| |[|] ml el];
    cbn; intros H1 H2; try discriminate; reflexivity.
Qed.

(** The clamped difference has the direction of the difference. *)
Lemma clamp_direction (d lo hi : spec_float) :
  f_lt (lit 0) lo = false -> f_lt hi (lit 0) = false ->
  (f_lt d (lit 0) = false -> f_lt (clamp d lo hi) (lit 0) = false)
  /\ (f_lt (lit 0) d = false -> f_lt (lit 0) (clamp d lo hi) = false).
Proof.
  unfold clamp. cbn [f_lt binary32].
  change (lit (F := spec_float) 0) with (S754_zero false).
  intros Hlo Hhi. split; intros Hd.
  - destruct (SFltb d lo) eqn:E1.
    + rewrite (SFltb_below_zero d lo false E1 Hlo) in Hd. discriminate.
    + destruct (SFltb hi d); assumption.
  - destruct (SFltb d lo) eqn:E1; [assumption|].
    destruct (SFltb hi d) eqn:E2; [|assumption].
    rewrite (SFltb_above_zero d hi false E2 Hhi) in Hd. discriminate.
Qed.

(** A zero passes a clamp whose lower bound is not above zero and whose
    upper bound is not below. *)
Lemma clamp_zero (s : bool) (lo hi : spec_float) :
  f_lt (lit 0) lo = false -> f_lt hi (lit 0) = false ->
  clamp (S754_zero s) lo hi = S754_zero s.
Proof.
  unfold clamp. cbn [f_lt binary32].
  change (lit (F := spec_float) 0) with (S754_zero false).
  intros Hlo Hhi.
  rewrite (SFltb_zero_l s false lo), Hlo, (SFltb_zero_r s false hi), Hhi.
  reflexivity.
Qed.

(** A live value that is the same number as its target, and no infinity
    and no NaN, is the same number after the assignment: it is left as it
    is, but for a negative zero, which becomes the positive zero. *)
Lemma approach_same32 (x tx lo hi : spec_float) :
  f_lt (lit 0) lo = false -> f_lt hi (lit 0) = false ->
  finite32 x = true -> same32 x tx ->
  let new := f_add x (clamp (f_sub tx x) lo hi) in
  finite32 new = true /\ same32 new tx
  /\ (x = tx -> new = x \/ (x = S754_zero true /\ new = S754_zero false)).
Proof.
  intros Hlo Hhi Hx Hs. cbv zeta.
  destruct Hs as [<-|(s & s' & -> & ->)].
  - destruct x as [s|s| |s m e]; try discriminate.
    + assert (E : f_sub (S754_zero s) (S754_zero s) = S754_zero false)
        by (destruct s; reflexivity).
      rewrite E, clamp_zero by assumption.
      destruct s; cbn.
      * split; [reflexivity|]. split; [right; eauto|]. intros _. right. split; reflexivity.
      * split; [reflexivity|]. split; [left; reflexivity|]. intros _. left. reflexivity.
    + assert (E : f_sub (S754_finite s m e) (S754_finite s m e) = S754_zero false).
      { cbn [f_sub binary32]. unfold SFsub. rewrite Z.sub_diag. reflexivity. }
      rewrite E, clamp_zero by assumption.
      cbn [f_add binary32 SFadd].
      split; [exact Hx|]. split; [left; reflexivity|]. intros _. left. reflexivity.
  - assert (E : exists sd, f_sub (S754_zero s') (S754_zero s) = S754_zero sd)
      by (destruct s, s'; cbn; eauto).
    destruct E as [sd ->]. rewrite clamp_zero by assumption.
    assert (E : exists sn, f_add (S754_zero s) (S754_zero sd) = S754_zero sn)
      by (destruct s, sd; cbn; eauto).
    destruct E as [sn En]. rewrite En.
    split; [reflexivity|]. split; [right; eauto|].
    intros [= Es]. subst s'. destruct s, sd; cbn in En; injection En as <-; auto.
Qed.

(** The assignment of one iteration to one interpolated value, in single
    precision. *)
Lemma frame_value32 (elapsed : spec_float) (w : Globals spec_float) (i : nat) :
  wf_target (target w) -> wf_live (live w) -> (i < INTERPOLATED)%nat ->
  let x := live_value i w in
  let tx := target_value i w in
  let lo := f_mul (f_neg (rate i)) (frame_dt elapsed) in
  let hi := f_mul (rate i) (frame_dt elapsed) in
  live_value i (frame elapsed w) = f_add x (clamp (f_sub tx x) lo hi)
  /\ f_lt (lit 0) lo = false
  /\ f_lt hi (lit 0) = false
  /\ (elapsed <> S754_nan -> f_le lo hi = true).
Proof.
  intros Hg Hl Hi. cbv zeta.
  rewrite frame_values by assumption.
  destruct (rate_finite i Hi) as (m & e & ->).
  destruct (reach_signs m e elapsed) as (H1 & H2 & H3).
  split; [reflexivity|]. split; [exact H1|]. split; [exact H2|].
  intros Hn. apply H3. intros E. now apply Hn, frame_dt_nan.
Qed.

(** A live value on its target stays the same number over any number of
    iterations. *)
Lemma frames_same32 (l : list spec_float) : forall (w : Globals spec_float) (i : nat),
  wf_target (target w) -> wf_live (live w) -> (i < INTERPOLATED)%nat ->
  finite32 (live_value i w) = true ->
  same32 (live_value i w) (target_value i w) ->
  finite32 (live_value i (frames l w)) = true
  /\ same32 (live_value i (frames l w)) (target_value i w).
Proof.
  induction l as [|e l IH]; intros w i Hg Hl Hi Hx Hs; [now split|].
  rewrite frames_cons.
  destruct (frame_value32 e w i Hg Hl Hi) as (E & Hlo & Hhi & _).
  destruct (approach_same32 _ _ _ _ Hlo Hhi Hx Hs) as (Hx' & Hs' & _).
  rewrite <- E in Hx', Hs'.
  assert (Et : target_value i (frame e w) = target_value i w) by reflexivity.
  rewrite <- Et. apply IH; auto using frame_wf.
Qed.

(** After the request [{"mode":"custom","colour":80}] the colour level
    goes from 30 to 80 in frames of 0.1 s: by 4 per frame, on the target
    with the thirteenth frame, and it stays there. *)
Example colour_level_reaches_80 :
  let v := snd (serve stof32 API_TOKEN body_custom_colour_80 initial_globals) in
  live_value COLOUR_LEVEL v = lit 30
  /\ target_value COLOUR_LEVEL v = lit 80
  /\ f_mul (rate COLOUR_LEVEL) (frame_dt (lit 0.1)) = lit 4
  /\ live_value COLOUR_LEVEL (frames (repeat (lit 0.1) 1) v) = lit 34
  /\ live_value COLOUR_LEVEL (frames (repeat (lit 0.1) 12) v) = lit 78
  /\ live_value COLOUR_LEVEL (frames (repeat (lit 0.1) 13) v) = lit 80
  /\ live_value COLOUR_LEVEL (frames (repeat (lit 0.1) 40) v) = lit 80.
Proof. vm_compute. repeat split. Qed.

(** C8, amended.  One iteration of the main loop, [elapsed] seconds after
    the previous one, assigns [x += clamp(tx - x, -rate * dt, rate * dt)]
    to each of the 19 interpolated live values [x] (colour level, width,
    percentage, the ten segments, the six colour channels) with its target
    [tx], its rate and [dt] the clamped [elapsed].

    Computed without rounding: the value moves by at most [rate * dt], ends
    between its old value and its target, and ends on the target when the
    target is within [rate * dt]; a value on its target stays on it over
    any number of further iterations.  The same holds of the assignment
    for any rate and [dt] with [0 <= rate * dt]; from 0 towards 100 with
    rate 40 and [dt = 1] it yields 40.

    In single precision, for every state and every [elapsed], with the
    operations and comparisons of [float]:
    - the new value is the old one plus the clamped difference, the
      difference [tx - x] being rounded before it is clamped;
    - the lower bound of the clamp is not above zero and the upper bound
      not below; unless [elapsed] or the difference is a NaN, the clamped
      difference lies within the bounds;
    - the clamped difference is not below zero when the difference is not,
      and not above zero when the difference is not;
    - when the difference is within the bounds, the new value is
      [x + (tx - x)] as [float] computes it, which need not be [tx];
    - a live value that is the same number as its target, and no infinity
      and no NaN, stays that number over any number of iterations with any
      elapsed times; in the first of them it is left as it is, but for a
      negative zero, which becomes the positive zero.
    From 0 towards 100 with rate 40 and [dt = 1] the assignment yields 40
    in single precision as well; and in iterations of 0.1 s a colour level
    goes from 30 to its target 80 by 4 per iteration, is on the target
    with the thirteenth iteration, and stays. *)
Theorem interpolation_chases_target
    (w : Globals Q) (elapsed : Q) (w32 : Globals spec_float) (elapsed32 : spec_float) :
  wf_target (target w) -> wf_live (live w) ->
  wf_target (target w32) -> wf_live (live w32) ->
  (forall i, (i < INTERPOLATED)%nat ->
     chases (rate i * frame_dt elapsed)
       (live_value i w) (target_value i w) (live_value i (frame elapsed w)))
  /\ (forall l i, (i < INTERPOLATED)%nat ->
     live_value i w == target_value i w ->
     live_value i (frames l w) == target_value i w)
  /\ (forall rate dt x tx : Q, 0 <= rate * dt ->
     chases (rate * dt) x tx (approach x tx rate dt))
  /\ approach 0 100 40 1 == 40
  /\ (forall i, (i < INTERPOLATED)%nat ->
     let x := live_value i w32 in
     let tx := target_value i w32 in
     let lo := f_mul (f_neg (rate i)) (frame_dt elapsed32) in
     let hi := f_mul (rate i) (frame_dt elapsed32) in
     let d := f_sub tx x in
     let c := clamp d lo hi in
     let new := live_value i (frame elapsed32 w32) in
     new = f_add x c
     /\ f_lt (lit 0) lo = false
     /\ f_lt hi (lit 0) = false
     /\ (elapsed32 <> S754_nan -> d <> S754_nan ->
         f_le lo c = true /\ f_le c hi = true)
     /\ (f_lt d (lit 0) = false -> f_lt c (lit 0) = false)
     /\ (f_lt (lit 0) d = false -> f_lt (lit 0) c = false)
     /\ (f_lt d lo = false -> f_lt hi d = false -> new = f_add x (f_sub tx x))
     /\ (finite32 x = true -> same32 x tx ->
         (forall l, finite32 (live_value i (frames l w32)) = true
                    /\ same32 (live_value i (frames l w32)) tx)
         /\ (x = tx -> new = x \/ (x = S754_zero true /\ new = S754_zero false))))
  /\ approach (F := spec_float) (lit 0) (lit 100) (lit 40) (lit 1) = lit 40
  /\ (let v := snd (serve stof32 API_TOKEN body_custom_colour_80 initial_globals) in
      live_value COLOUR_LEVEL v = lit 30
      /\ target_value COLOUR_LEVEL v = lit 80
      /\ f_mul (rate COLOUR_LEVEL) (frame_dt (lit 0.1)) = lit 4
      /\ live_value COLOUR_LEVEL (frames (repeat (lit 0.1) 1) v) = lit 34
      /\ live_value COLOUR_LEVEL (frames (repeat (lit 0.1) 12) v) = lit 78
      /\ live_value COLOUR_LEVEL (frames (repeat (lit 0.1) 13) v) = lit 80
      /\ live_value COLOUR_LEVEL (frames (repeat (lit 0.1) 40) v) = lit 80).
Proof.
  intros Hg Hl Hg32 Hl32.
  split; [|split; [|split; [|split; [|split; [|split]]]]].
  - intros i Hi. rewrite frame_values by assumption.
    apply approach_chases, rates_nonneg, frame_dt_range.
  - intros l i Hi E. now apply frames_stable.
  - intros rate dt x tx. apply approach_chases.
  - reflexivity.
  - intros i Hi. cbv zeta.
    destruct (frame_value32 elapsed32 w32 i Hg32 Hl32 Hi) as (E & Hlo & Hhi & Hord).
    split; [exact E|]. split; [exact Hlo|]. split; [exact Hhi|].
    split; [|split; [|split; [|split]]].
    + intros He Hd. apply clamp_range32; auto.
    + now apply clamp_direction.
    + now apply clamp_direction.
    + intros H1 H2. rewrite E. unfold clamp. now rewrite H1, H2.
    + intros Hx Hs. split.
      * intros l. now apply frames_same32.
      * rewrite E. now apply approach_same32.
  - reflexivity.
  - exact colour_level_reaches_80.
Qed.

Lemma interpolation_chases_target_witness :
  (forall i, (i < INTERPOLATED)%nat ->
     chases (rate i * frame_dt (1 # 40))
       (live_value i busy) (target_value i busy) (live_value i (frame (1 # 40) busy)))
  /\ (forall l i, (i < INTERPOLATED)%nat ->
     live_value i busy == target_value i busy ->
     live_value i (frames l busy) == target_value i busy)
  /\ (forall rate dt x tx : Q, 0 <= rate * dt ->
     chases (rate * dt) x tx (approach x tx rate dt))
  /\ approach 0 100 40 1 == 40
  /\ (forall i, (i < INTERPOLATED)%nat ->
     let x := live_value i busy32 in
     let tx := target_value i busy32 in
     let lo := f_mul (f_neg (rate i)) (frame_dt (lit (1 # 40))) in
     let hi := f_mul (rate i) (frame_dt (lit (1 # 40))) in
     let d := f_sub tx x in
     let c := clamp d lo hi in
     let new := live_value i (frame (lit (1 # 40)) busy32) in
     new = f_add x c
     /\ f_lt (lit 0) lo = false
     /\ f_lt hi (lit 0) = false
     /\ (lit (1 # 40) <> S754_nan -> d <> S754_nan ->
         f_le lo c = true /\ f_le c hi = true)
     /\ (f_lt d (lit 0) = false -> f_lt c (lit 0) = false)
     /\ (f_lt (lit 0) d = false -> f_lt (lit 0) c = false)
     /\ (f_lt d lo = false -> f_lt hi d = false -> new = f_add x (f_sub tx x))
     /\ (finite32 x = true -> same32 x tx ->
         (forall l, finite32 (live_value i (frames l busy32)) = true
                    /\ same32 (live_value i (frames l busy32)) tx)
         /\ (x = tx -> new = x \/ (x = S754_zero true /\ new = S754_zero false))))
  /\ approach (F := spec_float) (lit 0) (lit 100) (lit 40) (lit 1) = lit 40
  /\ (let v := snd (serve stof32 API_TOKEN body_custom_colour_80 initial_globals) in
      live_value COLOUR_LEVEL v = lit 30
      /\ target_value COLOUR_LEVEL v = lit 80
      /\ f_mul (rate COLOUR_LEVEL) (frame_dt (lit 0.1)) = lit 4
      /\ live_value COLOUR_LEVEL (frames (repeat (lit 0.1) 1) v) = lit 34
      /\ live_value COLOUR_LEVEL (frames (repeat (lit 0.1) 12) v) = lit 78
      /\ live_value COLOUR_LEVEL (frames (repeat (lit 0.1) 13) v) = lit 80
      /\ live_value COLOUR_LEVEL (frames (repeat (lit 0.1) 40) v) = lit 80).
Proof.
  apply (interpolation_chases_target busy (1 # 40) busy32 (lit (1 # 40)));
    vm_compute; reflexivity.
Defined.

(** ** A request in the middle of an iteration *)

Section Interleavings.

Context {F : Type} {float_ops : Float F}.

Variable stof : string -> option F.

Local Open Scope cfloat_scope.

Lemma serve_globals (token body : string) (w : Globals F) :
  snd (serve stof token body w)
  = {| t := t w;
       target := snd (post_update stof token body (t w) (target w));
       live := live w |}.
Proof.
  unfold serve. destruct (post_update stof token body (t w) (target w)). reflexivity.
Qed.

(** The statements of an iteration, run one after the other with no
    request in between, are the iteration: the globals are those of
    [frame], and what is shown is drawn from the one target. *)
Lemma iteration_alone (elapsed : F) (w : Globals F) :
  let m := phases stof (iteration elapsed) (entering w) in
  globals_now m = frame elapsed w
  /\ shown m = [snapshot_frame (target w) (frame_dt elapsed)
                  {| t := t w + frame_dt elapsed; target := target w; live := live w |}]
  /\ age_read (locals m) = age (frame elapsed w)
  /\ renderTime_read (locals m) = renderTime (frame elapsed w).
Proof. repeat split. Qed.

(** A request served before the interpolation block: the iteration shows
    the target the request leaves. *)
Lemma request_before_the_block (n : nat) (elapsed : F) (token body : string)
    (w : Globals F) :
  (n <= 1)%nat ->
  let clock := if (n =? 0)%nat then t w else t w + frame_dt elapsed in
  let g := snd (post_update stof token body clock (target w)) in
  let m := phases stof (iteration_with n elapsed token body) (entering w) in
  shown m = [snapshot_frame g (frame_dt elapsed)
               {| t := t w + frame_dt elapsed; target := target w; live := live w |}]
  /\ target (globals_now m) = g.
Proof.
  intros Hn. destruct n as [|[|n]]; [| |lia];
    cbv zeta; unfold iteration_with, iteration, phases;
    cbn [firstn skipn app fold_left phase entering globals_now locals shown Nat.eqb];
    rewrite serve_globals; split; reflexivity.
Qed.

(** A request served after the last read of [updateTime]: the iteration
    shows the target the request found. *)
Lemma request_after_the_reads (n : nat) (elapsed : F) (token body : string)
    (w : Globals F) :
  (4 <= n)%nat ->
  let m := phases stof (iteration_with n elapsed token body) (entering w) in
  shown m = [snapshot_frame (target w) (frame_dt elapsed)
               {| t := t w + frame_dt elapsed; target := target w; live := live w |}].
Proof.
  intros Hn. do 4 (destruct n as [|n]; [lia|]).
  destruct n as [|n];
    cbv zeta; unfold iteration_with, iteration, phases;
    cbn [firstn skipn]; rewrite ?firstn_nil, ?skipn_nil;
    cbn [app fold_left phase entering globals_now locals shown];
    rewrite ?serve_globals; reflexivity.
Qed.

(** A request served between the interpolation block and the read of
    [updateTime]: the live variables come from the target the request
    found, the age from the target it leaves. *)
Lemma request_after_the_block (elapsed : F) (token body : string) (w : Globals F) :
  let d := frame_dt elapsed in
  let clock := t w + d in
  let g := snd (post_update stof token body clock (target w)) in
  let m := phases stof (iteration_with 2 elapsed token body) (entering w) in
  let a := clock - updateTime g in
  shown m = [output (mkLocals d a (if a <? lit 60 then clock else updateTime g))
               (interpolate d (target w) (live w))].
Proof.
  cbv zeta. unfold iteration_with, iteration, phases.
  cbn [firstn skipn app fold_left phase entering globals_now locals shown].
  rewrite serve_globals. reflexivity.
Qed.

(** A request served between the two reads of [updateTime]: the age comes
    from the target the request found, the frozen render time from the
    target it leaves. *)
Lemma request_between_the_reads (elapsed : F) (token body : string) (w : Globals F) :
  let d := frame_dt elapsed in
  let clock := t w + d in
  let g := snd (post_update stof token body clock (target w)) in
  let m := phases stof (iteration_with 3 elapsed token body) (entering w) in
  let a := clock - updateTime (target w) in
  shown m = [output (mkLocals d a (if a <? lit 60 then clock else updateTime g))
               (interpolate d (target w) (live w))].
Proof.
  cbv zeta. unfold iteration_with, iteration, phases.
  cbn [firstn skipn app fold_left phase entering globals_now locals shown].
  rewrite serve_globals. reflexivity.
Qed.

End Interleavings.

(** C9.  The handler of [POST /update] holds [state_mtx] from its first
    read of a global to its last write, so two requests are served one
    after the other.  The main loop holds the lock for the interpolation
    block only and reads [updateTime] twice after it, without the lock.

    An iteration with no request in between shows a frame drawn from one
    target.  So does an iteration with a request served before the
    interpolation block (the target the request leaves) or after the
    reads of [updateTime] (the target the request found).

    A request served between the block and the reads is seen in part.
    After the first 0.025 s, the accepted request
    [{"mode":"custom","geometry":"square"}] served there gives a frame
    with the shape the request found (0, ring) and the age the request
    leaves (0).  Drawn from the target the request found the frame has
    shape 0 and age 10.025; drawn from the target it leaves, shape 2 and
    age 0.  The frame shown is neither.  With the clock at 100 and the
    last update at -10, the same request served between the two reads of
    [updateTime] gives a frame with age 110.025 and frozen time 100.025:
    the age of the old target and the time stamp of the new one. *)
Theorem render_tick_mixes_two_target_states :
  (forall (F : Type) (float_ops : Float F) (stof : string -> option F)
          (elapsed : F) (token body : string) (w : Globals F),
     let d := frame_dt elapsed in
     let clock := f_add (t w) d in
     let ticked := {| t := clock; target := target w; live := live w |} in
     let found := target w in
     let left := snd (post_update stof token body clock found) in
     let early := snd (post_update stof token body (t w) found) in
     let a := f_sub clock (updateTime left) in
     let a0 := f_sub clock (updateTime found) in
     shown (phases stof (iteration elapsed) (entering w))
       = [snapshot_frame found d ticked]
     /\ shown (phases stof (iteration_with 0 elapsed token body) (entering w))
       = [snapshot_frame early d ticked]
     /\ shown (phases stof (iteration_with 1 elapsed token body) (entering w))
       = [snapshot_frame left d ticked]
     /\ shown (phases stof (iteration_with 2 elapsed token body) (entering w))
       = [output (mkLocals d a (if f_lt a (lit 60) then clock else updateTime left))
            (interpolate d found (live w))]
     /\ shown (phases stof (iteration_with 3 elapsed token body) (entering w))
       = [output (mkLocals d a0 (if f_lt a0 (lit 60) then clock else updateTime left))
            (interpolate d found (live w))]
     /\ shown (phases stof (iteration_with 4 elapsed token body) (entering w))
       = [snapshot_frame found d ticked]
     /\ shown (phases stof (iteration_with 5 elapsed token body) (entering w))
       = [snapshot_frame found d ticked])
  /\ (let w : Globals spec_float := initial_globals in
      let d := frame_dt (lit 0.025) in
      let ticked := {| t := f_add (t w) d; target := target w; live := live w |} in
      let found := target w in
      let left := snd (post_update stof32 API_TOKEN body_custom_square (t ticked) found) in
      let m := phases stof32 (iteration_with 2 (lit 0.025) API_TOKEN body_custom_square)
                 (entering w) in
      fst (post_update stof32 API_TOKEN body_custom_square (t ticked) found) = OK
      /\ tgeometryMode found = 0%Z /\ updateTime found = lit (-10)
      /\ tgeometryMode left = 2%Z /\ updateTime left = lit 0.025
      /\ (exists u, shown m = [Rendered u]
            /\ u_geom u = 0%Z /\ u_age u = S754_zero false)
      /\ (exists u, snapshot_frame found d ticked = Rendered u
            /\ u_geom u = 0%Z /\ u_age u = lit 10.025)
      /\ (exists u, snapshot_frame left d ticked = Rendered u
            /\ u_geom u = 2%Z /\ u_age u = S754_zero false)
      /\ shown m <> [snapshot_frame found d ticked]
      /\ shown m <> [snapshot_frame left d ticked])
  /\ (let w : Globals spec_float := at_time (lit 100) in
      let d := frame_dt (lit 0.025) in
      let ticked := {| t := f_add (t w) d; target := target w; live := live w |} in
      let found := target w in
      let left := snd (post_update stof32 API_TOKEN body_custom_square (t ticked) found) in
      let m := phases stof32 (iteration_with 3 (lit 0.025) API_TOKEN body_custom_square)
                 (entering w) in
      (exists u, shown m = [Rendered u]
            /\ u_age u = lit 110.025 /\ u_time u = lit 100.025)
      /\ (exists u, snapshot_frame found d ticked = Rendered u
            /\ u_age u = lit 110.025 /\ u_time u = lit (-10))
      /\ (exists u, snapshot_frame left d ticked = Rendered u
            /\ u_age u = S754_zero false /\ u_time u = lit 100.025)
      /\ shown m <> [snapshot_frame found d ticked]
      /\ shown m <> [snapshot_frame left d ticked]).
Proof.
  split; [|split].
  - intros F float_ops stof elapsed token body w. cbv zeta.
    split; [apply (iteration_alone stof elapsed w)|].
    split; [apply (request_before_the_block stof 0 elapsed token body w); lia|].
    split; [apply (request_before_the_block stof 1 elapsed token body w); lia|].
    split; [apply (request_after_the_block stof elapsed token body w)|].
    split; [apply (request_between_the_reads stof elapsed token body w)|].
    split; [apply (request_after_the_reads stof 4 elapsed token body w); lia|].
    apply (request_after_the_reads stof 5 elapsed token body w); lia.
  - cbv zeta.
    split; [vm_compute; reflexivity|].
    split; [reflexivity|]. split; [reflexivity|].
    split; [vm_compute; reflexivity|]. split; [vm_compute; reflexivity|].
    split; [eexists; split; [vm_compute; reflexivity|split; reflexivity]|].
    split; [eexists; split; [vm_compute; reflexivity|split; vm_compute; reflexivity]|].
    split; [eexists; split; [vm_compute; reflexivity|split; reflexivity]|].
    split; vm_compute; discriminate.
  - cbv zeta.
    split; [eexists; split; [vm_compute; reflexivity|split; vm_compute; reflexivity]|].
    split; [eexists; split; [vm_compute; reflexivity|split; vm_compute; reflexivity]|].
    split; [eexists; split; [vm_compute; reflexivity|split; vm_compute; reflexivity]|].
    split; vm_compute; discriminate.
Qed.


(** * Further properties *)

(** ** The panel mapping *)

Lemma in_upto (n x : Z) : In x (Display.upto n) <-> (0 <= x < n)%Z.
Proof.
  unfold Display.upto. rewrite in_map_iff. split.
  - intros (k & <- & Hk). apply in_seq in Hk. lia.
  - intros Hx. exists (Z.to_nat x). split; [lia|]. apply in_seq. lia.
Qed.

Lemma NoDup_map_on {A B : Type} (f : A -> B) (l : list A) :
  (forall a b, In a l -> In b l -> f a = f b -> a = b) ->
  NoDup l -> NoDup (map f l).
Proof.
  intros Hinj Hl. induction Hl as [|a l Hnot Hl IH]; simpl; constructor.
  - intros Hin. apply in_map_iff in Hin. destruct Hin as (b & E & Hb).
    assert (b = a) by (apply Hinj; simpl; auto). subst b. contradiction.
  - apply IH. intros x y Hx Hy. apply Hinj; simpl; auto.
Qed.

Lemma upto_NoDup (n : Z) : NoDup (Display.upto n).
Proof.
  unfold Display.upto. apply NoDup_map_on; [|apply seq_NoDup].
  intros a b _ _. lia.
Qed.

(** As compiled, [map_xy] undoes itself on the matrix. *)
Lemma map_xy_involution (x y : Z) :
  (0 <= x < Display.W)%Z -> (0 <= y < Display.H)%Z ->
  exists mx, Display.map_xy x y = (mx, y) /\ (0 <= mx < Display.W)%Z
             /\ Display.map_xy mx y = (x, y).
Proof.
  unfold Display.map_xy, Display.map_xy_flags, Display.MAP_FLIP_X, Display.MAP_FLIP_Y,
    Display.MAP_REVERSE_PANELS, Display.W, Display.H.
  intros Hx Hy. cbv zeta.
  destruct (Z.ltb_spec x 64) as [Hlt|Hge].
  - exists (63 - x)%Z. repeat split; try lia.
    destruct (Z.ltb_spec (63 - x) 64); [f_equal; lia | lia].
  - exists x. repeat split; try lia.
    destruct (Z.ltb_spec x 64); [lia | reflexivity].
Qed.

Lemma map_xy_one_to_one (x y x' y' : Z) :
  (0 <= x < Display.W)%Z -> (0 <= y < Display.H)%Z ->
  (0 <= x' < Display.W)%Z -> (0 <= y' < Display.H)%Z ->
  Display.map_xy x y = Display.map_xy x' y' -> x = x' /\ y = y'.
Proof.
  intros Hx Hy Hx' Hy' E.
  destruct (map_xy_involution x y Hx Hy) as (mx & E1 & _ & B1).
  destruct (map_xy_involution x' y' Hx' Hy') as (mx' & E2 & _ & B2).
  rewrite E1, E2 in E. apply pair_equal_spec in E. destruct E as [<- <-].
  rewrite B1 in B2. apply pair_equal_spec in B2. exact B2.
Qed.

(** X1.  As compiled, [map_xy] mirrors the first panel and leaves the others:
    a pixel of the matrix stays in the matrix, in its row and in its panel,
    and mapping twice gives the pixel back. *)
Theorem map_xy_mirrors_first_panel (x y : Z) :
  (0 <= x < Display.W)%Z -> (0 <= y < Display.H)%Z ->
  let (mx, my) := Display.map_xy x y in
  (0 <= mx < Display.W)%Z /\ my = y
  /\ (mx / Display.PANEL_W = x / Display.PANEL_W)%Z
  /\ mx = (if (x <? 64)%Z then 63 - x else x)%Z
  /\ Display.map_xy mx my = (x, y).
Proof.
  unfold Display.map_xy, Display.map_xy_flags, Display.MAP_FLIP_X, Display.MAP_FLIP_Y,
    Display.MAP_REVERSE_PANELS, Display.W, Display.H, Display.PANEL_W.
  intros Hx Hy.
  destruct (Z.ltb_spec x 64) as [Hlt|Hge].
  - repeat split; try lia.
    + rewrite !Z.div_small by lia. reflexivity.
    + destruct (Z.ltb_spec (63 - x) 64); [f_equal; lia | lia].
  - repeat split; try lia.
    destruct (Z.ltb_spec x 64); [lia | reflexivity].
Qed.

Lemma map_xy_mirrors_first_panel_witness :
  let (mx, my) := Display.map_xy 5 10 in
  (0 <= mx < Display.W)%Z /\ my = 10%Z
  /\ (mx / Display.PANEL_W = 5 / Display.PANEL_W)%Z
  /\ mx = (if (5 <? 64)%Z then 63 - 5 else 5)%Z
  /\ Display.map_xy mx my = (5%Z, 10%Z).
Proof.
  apply (map_xy_mirrors_first_panel 5 10); vm_compute; split; congruence.
Defined.

(** X2.  Whatever the three flags, [map_xy] sends the pixels of the matrix into
    the matrix, and two different pixels to two different places. *)
Theorem map_xy_flags_is_a_permutation
  (flip_x flip_y reverse_panels : bool) (x y x' y' : Z) :
  (0 <= x < Display.W)%Z -> (0 <= y < Display.H)%Z ->
  (0 <= x' < Display.W)%Z -> (0 <= y' < Display.H)%Z ->
  (0 <= fst (Display.map_xy_flags flip_x flip_y reverse_panels x y) < Display.W)%Z
  /\ (0 <= snd (Display.map_xy_flags flip_x flip_y reverse_panels x y) < Display.H)%Z
  /\ (Display.map_xy_flags flip_x flip_y reverse_panels x y
      = Display.map_xy_flags flip_x flip_y reverse_panels x' y' ->
      x = x' /\ y = y').
Proof.
  unfold Display.map_xy_flags, Display.NUM_PANELS, Display.W, Display.H, Display.PANEL_W.
  intros Hx Hy Hx' Hy'. cbv zeta.
  change (Z.quot 192 64) with 3%Z.
  assert (Hq : forall a, (0 <= a < 192)%Z ->
            ((3 - 1 - Z.quot a 64) * 64 + Z.rem a 64
             = if a <? 64 then a + 128 else if a <? 128 then a else a - 128)%Z).
  { intros a Ha.
    rewrite Z.quot_div_nonneg, Z.rem_mod_nonneg by lia.
    destruct (Z.ltb_spec a 64); [|destruct (Z.ltb_spec a 128)];
      Z.div_mod_to_equations; lia. }
  destruct flip_x, flip_y, reverse_panels;
    destruct (Z.ltb_spec x 64), (Z.ltb_spec x' 64); cbn [fst snd];
    rewrite ?Hq by lia;
    (split; [|split; [|intros E; apply pair_equal_spec in E; revert E]]);
    repeat match goal with
           | |- context [(?a <? ?b)%Z] => destruct (Z.ltb_spec a b)
           end; lia.
Qed.

Lemma map_xy_flags_is_a_permutation_witness :
  (0 <= fst (Display.map_xy_flags true false true 5 10) < Display.W)%Z
  /\ (0 <= snd (Display.map_xy_flags true false true 5 10) < Display.H)%Z
  /\ (Display.map_xy_flags true false true 5 10
      = Display.map_xy_flags true false true 70 10 ->
      5%Z = 70%Z /\ 10%Z = 10%Z).
Proof.
  apply (map_xy_flags_is_a_permutation true false true 5 10 70 10);
    vm_compute; split; congruence.
Defined.

(** ** The copy loop *)

(** X3.  The three bytes the copy loop reads for a pixel lie inside the buffer
    of [W * H * 3] bytes, start at a multiple of three, and two pixels never
    share a byte. *)
Theorem buffer_index_in_bounds (x y x' y' : Z) :
  (0 <= x < Display.W)%Z -> (0 <= y < Display.H)%Z ->
  (0 <= x' < Display.W)%Z -> (0 <= y' < Display.H)%Z ->
  (0 <= Display.buffer_index x y)%Z
  /\ (Display.buffer_index x y + 2 < Display.W * Display.H * 3)%Z
  /\ Display.buffer_index x y = (3 * ((Display.H - 1 - y) * Display.W + x))%Z
  /\ ((x, y) <> (x', y') ->
      (Display.buffer_index x y + 2 < Display.buffer_index x' y'
       \/ Display.buffer_index x' y' + 2 < Display.buffer_index x y)%Z).
Proof.
  unfold Display.buffer_index, Display.W, Display.H. intros Hx Hy Hx' Hy'.
  repeat split; try lia.
  intros Hne.
  assert (x <> x' \/ y <> y') as [Hd|Hd].
  { destruct (Z.eq_dec x x') as [->|]; [|now left].
    destruct (Z.eq_dec y y') as [->|]; [contradiction|now right]. }
  - lia.
  - lia.
Qed.

Lemma buffer_index_in_bounds_witness :
  (0 <= Display.buffer_index 0 0)%Z
  /\ (Display.buffer_index 0 0 + 2 < Display.W * Display.H * 3)%Z
  /\ Display.buffer_index 0 0 = (3 * ((Display.H - 1 - 0) * Display.W + 0))%Z
  /\ ((0%Z, 0%Z) <> (191%Z, 63%Z) ->
      (Display.buffer_index 0 0 + 2 < Display.buffer_index 191 63
       \/ Display.buffer_index 191 63 + 2 < Display.buffer_index 0 0)%Z).
Proof.
  apply (buffer_index_in_bounds 0 0 191 63); vm_compute; split; congruence.
Defined.

Lemma map_flat_map_fuse {A B C : Type} (g : B -> C) (f : A -> list B) (l : list A) :
  map g (flat_map f l) = flat_map (fun a => map g (f a)) l.
Proof.
  induction l as [|a l IH]; simpl; [reflexivity|].
  now rewrite map_app, IH.
Qed.

Lemma NoDup_flat_map {A B : Type} (f : A -> list B) (l : list A) :
  NoDup l ->
  (forall a, In a l -> NoDup (f a)) ->
  (forall a a' b, In a l -> In a' l -> In b (f a) -> In b (f a') -> a = a') ->
  NoDup (flat_map f l).
Proof.
  intros Hl. induction Hl as [|a l Hnot Hl IH]; intros Hf Hd; simpl; [constructor|].
  apply NoDup_app.
  - apply Hf. simpl; auto.
  - apply IH.
    + intros a' Ha'. apply Hf. simpl; auto.
    + intros a1 a2 b H1 H2. apply Hd; simpl; auto.
  - intros b Hb Hb'. apply in_flat_map in Hb'. destruct Hb' as (a' & Ha' & Hb').
    assert (a = a') by (apply (Hd a a' b); simpl; auto). subst a'. contradiction.
Qed.

(** X4.  The copy loop makes one [SetPixel] call for each LED of the matrix and
    no other call, and the LED at [(px, py)] receives the three bytes of
    the frame-buffer pixel [map_xy px py], read from the vertically flipped
    row. *)
Theorem copy_pixels_sets_each_led_once (buffer : list Z) :
  let calls := Display.copy_pixels buffer in
  List.length calls = Z.to_nat (Display.W * Display.H)
  /\ NoDup (map (fun c => (Display.px c, Display.py c)) calls)
  /\ (forall c, In c calls ->
        (0 <= Display.px c < Display.W)%Z /\ (0 <= Display.py c < Display.H)%Z
        /\ let (x, y) := Display.map_xy (Display.px c) (Display.py c) in
           Display.pr c = Display.byte_at buffer (Display.buffer_index x y)
           /\ Display.pg c = Display.byte_at buffer (Display.buffer_index x y + 1)
           /\ Display.pb c = Display.byte_at buffer (Display.buffer_index x y + 2))
  /\ (forall X Y, (0 <= X < Display.W)%Z -> (0 <= Y < Display.H)%Z ->
        exists c, In c calls /\ Display.px c = X /\ Display.py c = Y).
Proof.
  cbv zeta. unfold Display.copy_pixels. split; [|split; [|split]].
  - rewrite flat_map_constant_length with (c := Z.to_nat Display.W).
    + unfold Display.upto. rewrite length_map, length_seq. reflexivity.
    + intros y _. unfold Display.upto. now rewrite !length_map, length_seq.
  - rewrite map_flat_map_fuse. apply NoDup_flat_map.
    + apply upto_NoDup.
    + intros y Hy. rewrite map_map. apply NoDup_map_on; [|apply upto_NoDup].
      intros x x' Hx Hx' E. apply in_upto in Hy, Hx, Hx'.
      pose proof (map_xy_one_to_one x y x' y Hx Hy Hx' Hy) as Hinj.
      destruct (Display.map_xy x y) as [mx my], (Display.map_xy x' y) as [mx' my'].
      cbn in E. apply Hinj in E. tauto.
    + intros y y' p Hy Hy' Hp Hp'. rewrite map_map in Hp, Hp'.
      apply in_map_iff in Hp, Hp'.
      destruct Hp as (x & Ex & Hx), Hp' as (x' & Ex' & Hx').
      apply in_upto in Hy, Hy', Hx, Hx'.
      pose proof (map_xy_one_to_one x y x' y' Hx Hy Hx' Hy') as Hinj.
      destruct (Display.map_xy x y) as [mx my], (Display.map_xy x' y') as [mx' my'].
      cbn in Ex, Ex'. apply Hinj; congruence.
  - intros c Hc. apply in_flat_map in Hc. destruct Hc as (y & Hy & Hc).
    apply in_map_iff in Hc. destruct Hc as (x & Ec & Hx).
    apply in_upto in Hy, Hx.
    destruct (map_xy_involution x y Hx Hy) as (mx & E & Hmx & Hback).
    rewrite E in Ec. subst c.
    cbn [Display.px Display.py Display.pr Display.pg Display.pb].
    rewrite Hback. repeat split; auto; lia.
  - intros X Y HX HY.
    destruct (map_xy_involution X Y HX HY) as (x & E & Hx & Hback).
    eexists. split.
    + apply in_flat_map. exists Y. split; [now apply in_upto|].
      apply in_map_iff. exists x. split; [reflexivity|now apply in_upto].
    + rewrite Hback. cbn [Display.px Display.py]. auto.
Qed.


(** ** Texts *)

Lemma length_append (a b : string) :
  String.length (a ++ b) = (String.length a + String.length b)%nat.
Proof. induction a as [|c a IH]; simpl; auto. Qed.

Lemma prefix_empty (r : string) : prefix EmptyString r = true.
Proof. destruct r; reflexivity. Qed.

Lemma prefix_append (s r : string) : prefix s (s ++ r) = true.
Proof.
  induction s as [|c s IH]; simpl; [apply prefix_empty|].
  destruct (ascii_dec c c); [exact IH | contradiction].
Qed.

Lemma substring_all (s : string) : substring 0 (String.length s) s = s.
Proof. induction s as [|c s IH]; simpl; [reflexivity | now rewrite IH]. Qed.

Lemma substring_head (v b : string) : substring 0 (String.length v) (v ++ b) = v.
Proof. induction v as [|c v IH]; simpl; [now destruct b | now rewrite IH]. Qed.

Lemma substring_skip (a b : string) (n m : nat) :
  substring (String.length a + n) m (a ++ b) = substring n m b.
Proof. induction a as [|c a IH]; simpl; auto. Qed.

Lemma suffix_from_append (a b : string) : suffix_from (String.length a) (a ++ b) = b.
Proof.
  unfold suffix_from. rewrite length_append.
  replace (String.length a + String.length b - String.length a)%nat
    with (String.length b) by lia.
  rewrite <- (Nat.add_0_r (String.length a)) at 1.
  rewrite substring_skip. apply substring_all.
Qed.

Lemma get_append (a b : string) (n : nat) :
  get (String.length a + n) (a ++ b) = get n b.
Proof. induction a as [|c a IH]; simpl; auto. Qed.

(** Searching from the end of a first part is searching the rest. *)
Lemma index_append (a b s : string) :
  index (String.length a) s (a ++ b)
  = match index 0 s b with
    | Some n => Some (String.length a + n)%nat
    | None => None
    end.
Proof.
  induction a as [|c a IH]; simpl.
  - destruct (index 0 s b); reflexivity.
  - rewrite IH. destruct (index 0 s b); reflexivity.
Qed.

(** The first occurrence of a character. *)
Lemma index_char (c : ascii) (a b : string) :
  none_of (is_char c) a = true ->
  index 0 (String c EmptyString) (a ++ String c b) = Some (String.length a).
Proof.
  induction a as [|x a IH]; simpl.
  - intros _. destruct (ascii_dec c c); [|contradiction].
    now rewrite prefix_empty.
  - unfold is_char at 1. intros H. apply andb_true_iff in H. destruct H as [Hx Ha].
    destruct (ascii_dec c x) as [->|_].
    + rewrite Ascii.eqb_refl in Hx. discriminate.
    + now rewrite IH.
Qed.

Lemma none_of_append (p : ascii -> bool) (a b : string) :
  none_of p (a ++ b) = none_of p a && none_of p b.
Proof.
  induction a as [|c a IH]; simpl; [reflexivity|].
  now rewrite IH, andb_assoc.
Qed.

(** A run of characters that satisfy [p], followed by one that does not or
    by the end. *)
Lemma span_len_run (p : ascii -> bool) (a b : string) :
  all_of p a = true ->
  match b with String c _ => p c = false | EmptyString => True end ->
  span_len p (a ++ b) = String.length a.
Proof.
  intros Ha Hb. induction a as [|c a IH]; simpl in *.
  - destruct b as [|c b]; simpl; [reflexivity | now rewrite Hb].
  - apply andb_true_iff in Ha. destruct Ha as [Hc Ha]. rewrite Hc. now rewrite IH.
Qed.

Lemma scan_while_run (p : ascii -> bool) (pre a b : string) :
  all_of p a = true ->
  match b with String c _ => p c = false | EmptyString => True end ->
  scan_while p (pre ++ a ++ b) (String.length pre)
  = (String.length pre + String.length a)%nat.
Proof.
  intros Ha Hb. unfold scan_while. rewrite suffix_from_append.
  now rewrite span_len_run.
Qed.

Lemma all_of_negb (p : ascii -> bool) (s : string) :
  all_of (fun c => negb (p c)) s = none_of p s.
Proof. induction s as [|c s IH]; simpl; [reflexivity | now rewrite IH]. Qed.

Lemma append_assoc (a b c : string) : ((a ++ b) ++ c = a ++ (b ++ c))%string.
Proof. induction a as [|x a IH]; simpl; [reflexivity | now rewrite IH]. Qed.

Lemma length_quoted (key : string) : String.length (quoted key) = S (S (String.length key)).
Proof. unfold quoted. simpl. rewrite length_append. simpl. lia. Qed.

(** The colon after a key without colon is the first colon from the
    opening quote of the key on. *)
Lemma index_colon_after_key (pre key rest : string) :
  none_of (is_char ":") key = true ->
  index (String.length pre) ":" (pre ++ quoted key ++ ":" ++ rest)
  = Some (String.length pre + String.length (quoted key))%nat.
Proof.
  intros Hk. rewrite index_append.
  change (":" ++ rest) with (String ":" rest).
  rewrite (index_char ":" (quoted key) rest); [reflexivity|].
  unfold quoted. simpl. rewrite none_of_append. simpl. now rewrite Hk.
Qed.

(** ** The helpers on the text they are written for *)

(** X5.  [extract_json_string] on a field with a string value: when the first
    occurrence of the quoted key is followed by a colon, white space and a
    quoted value, the helper delivers that value.  The key must be free of
    colons and the value free of double quotes. *)
Theorem extract_json_string_reads_field (pre key ws v post : string) :
  let body := pre ++ quoted key ++ ":" ++ ws ++ quoted v ++ post in
  index 0 (quoted key) body = Some (String.length pre) ->
  none_of (is_char ":") key = true ->
  all_of is_json_ws ws = true ->
  none_of (is_char dquote) v = true ->
  extract_json_string body key = Some v.
Proof.
  intros body Hfirst Hkey Hws Hv.
  set (a := pre ++ quoted key ++ ":").
  set (c := a ++ ws ++ String dquote EmptyString).
  assert (Ba : body = a ++ ws ++ String dquote (v ++ String dquote post)).
  { unfold body, a, quoted. rewrite !append_assoc. simpl. now rewrite !append_assoc. }
  assert (Bc : body = c ++ v ++ String dquote post).
  { rewrite Ba. unfold c. rewrite !append_assoc. reflexivity. }
  assert (La : String.length a = (String.length pre + String.length (quoted key) + 1)%nat).
  { unfold a. rewrite !length_append. simpl. lia. }
  assert (Lc : String.length c = S (String.length a + String.length ws)).
  { unfold c. rewrite !length_append. simpl. lia. }
  pose proof (index_colon_after_key pre key (ws ++ quoted v ++ post) Hkey) as Hcolon.
  change (index (String.length pre) ":" body
          = Some (String.length pre + String.length (quoted key))%nat) in Hcolon.
  unfold extract_json_string. rewrite Hfirst, Hcolon, <- La.
  assert (Hskip : skip_ws body (String.length a) = (String.length a + String.length ws)%nat).
  { rewrite Ba. apply scan_while_run; [assumption|reflexivity]. }
  rewrite Hskip.
  assert (Hget : get (String.length a + String.length ws) body = Some dquote).
  { rewrite Ba, get_append.
    rewrite <- (Nat.add_0_r (String.length ws)), get_append. reflexivity. }
  rewrite Hget, Ascii.eqb_refl. cbn [negb].
  rewrite <- Lc.
  assert (Hscan : scan_while (fun ch => negb (ch =? dquote)%char) body (String.length c)
                  = (String.length c + String.length v)%nat).
  { rewrite Bc. apply scan_while_run.
    - rewrite <- Hv. apply (all_of_negb (is_char dquote)).
    - reflexivity. }
  rewrite Hscan.
  replace (String.length body <=? String.length c + String.length v)%nat with false.
  - replace (String.length c + String.length v - String.length c)%nat
      with (String.length v) by lia.
    rewrite Bc. rewrite <- (Nat.add_0_r (String.length c)) at 1.
    rewrite substring_skip. now rewrite substring_head.
  - symmetry. apply Nat.leb_gt. rewrite Bc, !length_append. simpl. lia.
Qed.

Lemma extract_json_string_reads_field_witness :
  extract_json_string
    ("{" ++ quoted "mode" ++ ":" ++ " " ++ quoted "custom" ++ "}") "mode"
  = Some "custom".
Proof.
  apply (extract_json_string_reads_field "{" "mode" " " "custom" "}"); reflexivity.
Defined.

(** X6.  [extract_json_number] on a field with a number: when the first
    occurrence of the quoted key is followed by a colon, white space and a
    text that runs up to a comma, a closing brace or bracket, a line end or
    the end of the body, the helper hands exactly that text to [stof]. *)
Theorem extract_json_number_reads_field
  {F : Type} (stof : string -> option F) (pre key ws num post : string) :
  let body := pre ++ quoted key ++ ":" ++ ws ++ num ++ post in
  index 0 (quoted key) body = Some (String.length pre) ->
  none_of (is_char ":") key = true ->
  all_of is_json_ws ws = true ->
  starts_solid num = true ->
  all_of number_char num = true ->
  ends_number post = true ->
  extract_json_number stof body key = stof num.
Proof.
  intros body Hfirst Hkey Hws Hsolid Hnum Hpost.
  set (a := pre ++ quoted key ++ ":").
  set (c := a ++ ws).
  assert (Ba : body = a ++ ws ++ num ++ post).
  { unfold body, a. now rewrite !append_assoc. }
  assert (Bc : body = c ++ num ++ post).
  { rewrite Ba. unfold c. now rewrite !append_assoc. }
  assert (La : String.length a = (String.length pre + String.length (quoted key) + 1)%nat).
  { unfold a. rewrite !length_append. simpl. lia. }
  assert (Lc : String.length c = (String.length a + String.length ws)%nat).
  { unfold c. now rewrite length_append. }
  pose proof (index_colon_after_key pre key (ws ++ num ++ post) Hkey) as Hcolon.
  change (index (String.length pre) ":" body
          = Some (String.length pre + String.length (quoted key))%nat) in Hcolon.
  unfold extract_json_number. rewrite Hfirst, Hcolon, <- La.
  assert (Hskip : skip_ws body (String.length a) = String.length c).
  { rewrite Ba, Lc. apply scan_while_run; [assumption|].
    destruct num as [|x num]; [discriminate|]. cbn in *.
    now apply negb_true_iff. }
  rewrite Hskip.
  assert (Hscan : scan_while number_char body (String.length c)
                  = (String.length c + String.length num)%nat).
  { rewrite Bc. apply scan_while_run; [assumption|].
    destruct post as [|x post]; [exact I|]. cbn in Hpost.
    now apply negb_true_iff. }
  rewrite Hscan.
  replace (String.length c + String.length num - String.length c)%nat
    with (String.length num) by lia.
  rewrite Bc. rewrite <- (Nat.add_0_r (String.length c)) at 1.
  rewrite substring_skip. now rewrite substring_head.
Qed.

Lemma extract_json_number_reads_field_witness :
  extract_json_number stof32
    ("{" ++ quoted "mode" ++ ":" ++ quoted "custom" ++ "," ++ quoted "width" ++ ":"
     ++ " " ++ "60" ++ "}") "width"
  = stof32 "60".
Proof.
  apply (extract_json_number_reads_field stof32
           ("{" ++ quoted "mode" ++ ":" ++ quoted "custom" ++ ",") "width" " " "60" "}");
    reflexivity.
Defined.

(** ** The array helper *)

Lemma nth_store {F : Type} (arr : list F) (i j : nat) (v d : F) :
  i <> j -> nth i (store arr j v) d = nth i arr d.
Proof.
  revert i j. induction arr as [|a arr IH]; intros i j Hij; simpl.
  - reflexivity.
  - destruct j as [|j], i as [|i]; simpl; auto; try contradiction.
Qed.

Lemma nth_store_same {F : Type} (arr : list F) (j : nat) (v d : F) :
  (j < List.length arr)%nat -> nth j (store arr j v) d = v.
Proof.
  revert j. induction arr as [|a arr IH]; intros j Hj; simpl in *; [lia|].
  destruct j as [|j]; simpl; [reflexivity|]. apply IH. lia.
Qed.

(** The loop fills consecutive places from [idx] on and stops at [maxN]. *)
Lemma read_floats_places {F : Type} (stof : string -> option F) (vals : list string) :
  forall (outArr : list F) (idx maxN : nat),
    let '(ok, arr, n) := read_floats stof vals outArr idx maxN in
    (idx <= n)%nat /\ (n <= Nat.max idx maxN)%nat
    /\ forall i d, (i < idx \/ n <= i)%nat -> nth i arr d = nth i outArr d.
Proof.
  induction vals as [|val rest IH]; intros outArr idx maxN; simpl.
  - repeat split; auto; lia.
  - destruct (Nat.ltb_spec idx maxN) as [Hlt|Hge]; simpl.
    + destruct (trim val) as [|c tr].
      * apply IH.
      * destruct (stof (String c tr)) as [v|].
        -- specialize (IH (store outArr idx v) (S idx) maxN).
           destruct (read_floats stof rest (store outArr idx v) (S idx) maxN)
             as [[ok arr] n].
           destruct IH as (H1 & H2 & H3). repeat split; try lia.
           intros i d Hi. rewrite H3 by lia. apply nth_store. lia.
        -- repeat split; auto; lia.
    + repeat split; auto; lia.
Qed.

(** X7.  [extract_json_array_floats] keeps the size of the array, reports at
    most [maxN] entries, never writes at or beyond [maxN], and on success
    leaves every place from the reported count on as it was: fewer values
    than places replace the first places only.  On failure it reports no
    entry. *)
Theorem extract_json_array_floats_stays_in_bounds
  {F : Type} (stof : string -> option F) (body key : string)
  (outArr : list F) (maxN : nat) :
  let '(ok, arr, outN) := extract_json_array_floats stof body key outArr maxN in
  List.length arr = List.length outArr
  /\ (outN <= maxN)%nat
  /\ (forall i d, (maxN <= i)%nat -> nth i arr d = nth i outArr d)
  /\ (ok = true -> forall i d, (outN <= i)%nat -> nth i arr d = nth i outArr d)
  /\ (ok = false -> outN = O).
Proof.
  pose proof (extract_json_array_floats_length stof body key outArr maxN) as Hlen.
  unfold extract_json_array_floats in *.
  destruct (index 0 (quoted key) body) as [k|]; [|repeat split; auto; lia].
  destruct (index k "[" body) as [lb|]; [|repeat split; auto; lia].
  destruct (index k "]" body) as [rb|]; [|repeat split; auto; lia].
  destruct (rb <=? lb)%nat; [repeat split; auto; lia|].
  match goal with
  | |- context [read_floats stof ?vals outArr O maxN] =>
    pose proof (read_floats_places stof vals outArr O maxN) as Hp;
    destruct (read_floats stof vals outArr O maxN) as [[[|] arr] n]
  end; cbn [fst snd] in Hlen; destruct Hp as (H1 & H2 & H3);
    repeat split; auto; try lia; try discriminate;
    intros; apply H3; lia.
Qed.


(** ** The array helper on the text it is written for *)

Lemma getline_plain (item rest : string) :
  none_of (is_char ",") item = true ->
  getline "," (item ++ String "," rest) = (item, Some rest).
Proof.
  induction item as [|c item IH]; cbn [append getline].
  - intros _. now rewrite Ascii.eqb_refl.
  - cbn [none_of]. unfold is_char at 1. intros H.
    apply andb_true_iff in H. destruct H as [Hc Hi].
    apply negb_true_iff in Hc. rewrite Hc, (IH Hi). reflexivity.
Qed.

Lemma getline_last (item : string) :
  none_of (is_char ",") item = true -> getline "," item = (item, None).
Proof.
  induction item as [|c item IH]; cbn [getline]; [reflexivity|].
  cbn [none_of]. unfold is_char at 1. intros H.
  apply andb_true_iff in H. destruct H as [Hc Hi].
  apply negb_true_iff in Hc. rewrite Hc, (IH Hi). reflexivity.
Qed.

Lemma plain_item_solid (item : string) : plain_item item -> item <> EmptyString.
Proof. intros [_ H] ->. now apply H. Qed.

Lemma join_commas_solid (item : string) (items : list string) :
  item <> EmptyString -> join_commas (item :: items) <> EmptyString.
Proof.
  intros H. cbn [join_commas]. destruct items as [|y items]; [exact H|].
  destruct item; [contradiction | discriminate].
Qed.

(** [getline] after [getline] splits a comma-separated text into its
    items. *)
Lemma getlines_join (items : list string) : forall fuel,
  Forall plain_item items ->
  (String.length (join_commas items) < fuel)%nat ->
  getlines fuel "," (join_commas items) = items.
Proof.
  induction items as [|x items IH]; intros fuel Hall Hfuel.
  - destruct fuel; reflexivity.
  - destruct fuel as [|fuel]; [lia|].
    inversion Hall as [|? ? Hx Hrest]; subst.
    pose proof (plain_item_solid x Hx) as Hsolid.
    cbn [getlines].
    destruct (join_commas (x :: items)) as [|c s] eqn:E;
      [now apply (join_commas_solid x items) in E|].
    rewrite <- E in Hfuel |- *. clear E c s.
    destruct items as [|y items].
    + cbn [join_commas]. rewrite (getline_last x (proj1 Hx)). reflexivity.
    + change (join_commas (x :: y :: items))
        with (x ++ String "," (join_commas (y :: items))) in *.
      rewrite (getline_plain x _ (proj1 Hx)).
      rewrite IH; [reflexivity | exact Hrest |].
      rewrite length_append in Hfuel. cbn [String.length] in Hfuel. lia.
Qed.

Lemma store_app {F : Type} (done : list F) (x : F) (todo : list F) (v : F) :
  store (done ++ x :: todo)%list (List.length done) v = (done ++ v :: todo)%list.
Proof. induction done as [|d done IH]; cbn; [reflexivity | now rewrite IH]. Qed.

(** The loop on items that all parse: the values fill consecutive
    places. *)
Lemma read_floats_values {F : Type} (stof : string -> option F) (maxN : nat)
  (items : list string) : forall (vs done todo : list F),
  Forall2 (fun item v => plain_item item /\ stof (trim item) = Some v) items vs ->
  (List.length vs <= List.length todo)%nat ->
  (List.length done + List.length vs <= maxN)%nat ->
  read_floats stof items (done ++ todo)%list (List.length done) maxN
  = (true, (done ++ vs ++ skipn (List.length vs) todo)%list,
     (List.length done + List.length vs)%nat).
Proof.
  induction items as [|item items IH]; intros vs done todo Hall Hlen Hmax.
  - inversion Hall; subst. cbn. now rewrite Nat.add_0_r.
  - inversion Hall as [|? v ? vs' [Hitem Hv] Hrest]; subst.
    cbn [List.length] in Hlen, Hmax.
    destruct todo as [|x todo]; [cbn in Hlen; lia|].
    cbn [read_floats].
    replace (List.length done <? maxN)%nat with true
      by (symmetry; apply Nat.ltb_lt; lia).
    cbn [negb].
    destruct (trim item) as [|c tr] eqn:Et; [now destruct Hitem as [_ H]|].
    rewrite Hv, store_app.
    replace (done ++ v :: todo)%list with ((done ++ [v]) ++ todo)%list
      by (now rewrite <- app_assoc).
    replace (S (List.length done)) with (List.length (done ++ [v])%list)
      by (rewrite length_app; cbn; lia).
    rewrite (IH vs' (done ++ [v])%list todo Hrest);
      [| cbn in Hlen; lia | rewrite length_app; cbn; lia].
    rewrite length_app. cbn [List.length skipn app].
    rewrite <- app_assoc. cbn [app].
    f_equal. lia.
Qed.

(** X8.  [extract_json_array_floats] on a field with a list of numbers: when
    the first occurrence of the quoted key is followed, with no bracket in
    between, by a bracketed list of items separated by commas, each item
    free of commas and closing brackets, not blank, and read by [stof]
    after trimming, and the
    array has room for them, then the helper succeeds, stores the values in
    the first places in their order, leaves the places after them as they
    were and reports their number. *)
Theorem extract_json_array_floats_reads_values
  {F : Type} (stof : string -> option F) (pre key mid post : string)
  (items : list string) (vs outArr : list F) (maxN : nat) :
  let inner := join_commas items in
  let body := pre ++ quoted key ++ mid ++ "[" ++ inner ++ "]" ++ post in
  index 0 (quoted key) body = Some (String.length pre) ->
  none_of (is_char "[") (quoted key ++ mid) = true ->
  none_of (is_char "]") (quoted key ++ mid ++ "[" ++ inner) = true ->
  Forall2 (fun item v => plain_item item /\ stof (trim item) = Some v) items vs ->
  (List.length vs <= List.length outArr)%nat ->
  (List.length vs <= maxN)%nat ->
  extract_json_array_floats stof body key outArr maxN
  = (true, (vs ++ skipn (List.length vs) outArr)%list, List.length vs).
Proof.
  intros inner body Hfirst Hopen Hclose Hall Hroom Hmax.
  set (a := quoted key ++ mid).
  set (c := a ++ "[" ++ inner).
  assert (Ba : body = pre ++ a ++ String "[" (inner ++ "]" ++ post)).
  { unfold body, a. now rewrite !append_assoc. }
  assert (Bc : body = pre ++ c ++ String "]" post).
  { unfold body, c, a. now rewrite !append_assoc. }
  assert (Lc : String.length c = (String.length a + 1 + String.length inner)%nat).
  { unfold c. rewrite !length_append. cbn. lia. }
  assert (Hlb : index (String.length pre) "[" body
                = Some (String.length pre + String.length a)%nat).
  { rewrite Ba, index_append. now rewrite (index_char "[" a _ Hopen). }
  assert (Hrb : index (String.length pre) "]" body
                = Some (String.length pre + String.length c)%nat).
  { rewrite Bc, index_append.
    rewrite (index_char "]" c post); [reflexivity|].
    unfold c, a. rewrite !append_assoc. exact Hclose. }
  unfold extract_json_array_floats. rewrite Hfirst, Hlb, Hrb.
  replace (String.length pre + String.length c <=? String.length pre + String.length a)%nat
    with false by (symmetry; apply Nat.leb_gt; lia).
  assert (Hss : substring (String.length pre + String.length a + 1)
                  (String.length pre + String.length c
                   - (String.length pre + String.length a) - 1) body = inner).
  { replace (String.length pre + String.length c
             - (String.length pre + String.length a) - 1)%nat
      with (String.length inner) by lia.
    assert (Bi : body = (pre ++ a ++ "[") ++ inner ++ String "]" post).
    { rewrite Ba. now rewrite !append_assoc. }
    rewrite Bi.
    replace (String.length pre + String.length a + 1)%nat
      with (String.length (pre ++ a ++ "[") + 0)%nat
      by (rewrite !length_append; cbn; lia).
    rewrite substring_skip. apply substring_head. }
  rewrite Hss.
  assert (Hplain : Forall plain_item items).
  { clear - Hall. induction Hall as [|item v items vs [H _] _ IH]; constructor; auto. }
  unfold inner. rewrite (getlines_join items _ Hplain) by lia.
  pose proof (read_floats_values stof maxN items vs [] outArr Hall Hroom) as H.
  cbn [app List.length Nat.add] in H. rewrite (H Hmax). reflexivity.
Qed.

Lemma extract_json_array_floats_reads_values_witness :
  extract_json_array_floats stof32
    ("{" ++ quoted "segments" ++ ":" ++ "[" ++ join_commas ["7"; " 8.5"] ++ "]" ++ "}")
    "segments" (repeat (lit 0) 10) 10
  = (true, ([lit 7; lit 8.5] ++ skipn 2 (repeat (lit 0) 10))%list, 2%nat).
Proof.
  apply (extract_json_array_floats_reads_values stof32 "{" "segments" ":" "}"
           ["7"; " 8.5"] [lit 7; lit 8.5] (repeat (lit 0) 10) 10);
    try reflexivity; try (cbn; lia).
  repeat constructor; try discriminate; reflexivity.
Defined.


(** ** What the helpers hand on *)

Lemma substring_suffix (s : string) : forall i n,
  substring i n s = substring 0 n (suffix_from i s).
Proof.
  unfold suffix_from.
  induction s as [|c s IH]; intros i n.
  - destruct i, n; reflexivity.
  - destruct i as [|i].
    + rewrite Nat.sub_0_r, substring_all. reflexivity.
    + cbn [substring]. rewrite IH. reflexivity.
Qed.

Lemma span_all (keep : ascii -> bool) (s : string) :
  all_of keep (substring 0 (span_len keep s) s) = true.
Proof.
  induction s as [|c s IH]; [reflexivity|].
  cbn [span_len]. destruct (keep c) eqn:E; [|reflexivity].
  cbn [substring all_of]. now rewrite E, IH.
Qed.

Lemma take_while_all (keep : ascii -> bool) (s : string) (i n : nat) :
  n = span_len keep (suffix_from i s) ->
  all_of keep (substring i n s) = true.
Proof. intros ->. rewrite substring_suffix. apply span_all. Qed.

(** X9.  A string value ends at the first double quote after the opening one,
    escaped or not: no value [extract_json_string] delivers holds a double
    quote.  Every text [extract_json_number] hands to [stof] consists of
    characters other than the comma, the closing brace and bracket, and the
    line ends; letters are among them. *)
Theorem extracted_texts_end_at_their_delimiter
  {F : Type} (stof : string -> option F) (body key : string) :
  (forall v, extract_json_string body key = Some v ->
     none_of (is_char dquote) v = true)
  /\ (forall x, extract_json_number stof body key = Some x ->
      exists tok, all_of number_char tok = true /\ stof tok = Some x)
  /\ extract_json_string body_escaped_quote "mode" = Some "a\"
  /\ all_of number_char "nan" = true.
Proof.
  split; [|split; [|split; reflexivity]].
  - intros v. unfold extract_json_string.
    destruct (index 0 (quoted key) body) as [k|]; [|discriminate].
    destruct (index k ":" body) as [colon|]; [|discriminate].
    cbv zeta.
    destruct (get (skip_ws body (colon + 1)) body) as [c|]; [|discriminate].
    destruct (negb (c =? dquote)%char); [discriminate|].
    destruct (String.length body <=? _)%nat; [discriminate|].
    intros [= <-]. rewrite <- all_of_negb.
    apply (take_while_all (fun ch => negb (ch =? dquote)%char)). lia.
  - intros x. unfold extract_json_number.
    destruct (index 0 (quoted key) body) as [k|]; [|discriminate].
    destruct (index k ":" body) as [colon|]; [|discriminate].
    cbv zeta. intros E. eexists. split; [|exact E].
    apply take_while_all. unfold scan_while. lia.
Qed.


(** ** Trimming *)

Lemma string_rev_onto_app (s acc : string) :
  string_rev_onto s acc = string_rev s ++ acc.
Proof.
  unfold string_rev. revert acc.
  induction s as [|c s IH]; intros acc; cbn [string_rev_onto]; [reflexivity|].
  rewrite (IH (String c acc)), (IH (String c EmptyString)).
  now rewrite append_assoc.
Qed.

Lemma append_empty (s : string) : s ++ EmptyString = s.
Proof. induction s as [|c s IH]; cbn; [reflexivity | now rewrite IH]. Qed.

Lemma string_rev_cons (c : ascii) (s : string) :
  string_rev (String c s) = string_rev s ++ String c EmptyString.
Proof. unfold string_rev at 1. cbn [string_rev_onto]. apply string_rev_onto_app. Qed.

Lemma string_rev_app (a b : string) :
  string_rev (a ++ b) = string_rev b ++ string_rev a.
Proof.
  induction a as [|c a IH]; cbn [append].
  - now rewrite append_empty.
  - now rewrite !string_rev_cons, IH, append_assoc.
Qed.

Lemma string_rev_involutive (s : string) : string_rev (string_rev s) = s.
Proof.
  induction s as [|c s IH]; [reflexivity|].
  now rewrite string_rev_cons, string_rev_app, IH.
Qed.

Lemma all_of_app (p : ascii -> bool) (a b : string) :
  all_of p (a ++ b) = all_of p a && all_of p b.
Proof.
  induction a as [|c a IH]; cbn; [reflexivity|].
  now rewrite IH, andb_assoc.
Qed.

Lemma all_of_rev (p : ascii -> bool) (s : string) :
  all_of p (string_rev s) = all_of p s.
Proof.
  induction s as [|c s IH]; [reflexivity|].
  rewrite string_rev_cons, all_of_app, IH. cbn.
  now rewrite andb_true_r, andb_comm.
Qed.

(** The leading characters that satisfy [p] go, the rest stays. *)
Lemma drop_while_run (p : ascii -> bool) (a b : string) :
  all_of p a = true ->
  match b with String c _ => p c = false | EmptyString => True end ->
  drop_while p (a ++ b) = b.
Proof.
  intros Ha Hb. induction a as [|c a IH]; cbn in *.
  - destruct b as [|c b]; [reflexivity|]. cbn. now rewrite Hb.
  - apply andb_true_iff in Ha. destruct Ha as [Hc Ha]. rewrite Hc. now apply IH.
Qed.

Lemma drop_while_all (p : ascii -> bool) (s : string) :
  all_of p s = true -> drop_while p s = EmptyString.
Proof.
  induction s as [|c s IH]; cbn; [reflexivity|].
  intros H. apply andb_true_iff in H. destruct H as [Hc Hs]. rewrite Hc. now apply IH.
Qed.

Lemma begins_solid_stops (s : string) :
  begins_solid s = true ->
  match s with String c _ => isspace c = false | EmptyString => True end.
Proof. destruct s as [|c s]; cbn; [auto | apply negb_true_iff]. Qed.

(** X10.  The two [erase] calls of the array helper remove the white space
    before and after an item and nothing else: an item that is empty or
    neither begins nor ends with white space comes out as it is, whatever
    white space surrounds it, the white space inside it included.  An item
    of white space only comes out empty, and the loop skips it. *)
Theorem trim_strips_the_blanks_around (ws1 core ws2 : string) :
  all_of isspace ws1 = true -> all_of isspace ws2 = true ->
  solid core = true ->
  trim (ws1 ++ core ++ ws2) = core
  /\ trim core = core
  /\ trim (ws1 ++ ws2) = EmptyString.
Proof.
  intros H1 H2 Hs. unfold solid in Hs. apply andb_true_iff in Hs.
  destruct Hs as [Hb He].
  assert (Hgen : forall a b, all_of isspace a = true -> all_of isspace b = true ->
            trim (a ++ core ++ b) = core).
  { intros a b Ha Hb'. unfold trim.
    destruct core as [|c core'] eqn:Ec.
    - cbn [append]. rewrite (drop_while_all isspace (a ++ b));
        [reflexivity | now rewrite all_of_app, Ha, Hb'].
    - rewrite <- Ec in *.
      rewrite (drop_while_run isspace a (core ++ b) Ha).
      + rewrite string_rev_app.
        rewrite (drop_while_run isspace (string_rev b) (string_rev core)).
        * apply string_rev_involutive.
        * now rewrite all_of_rev.
        * now apply begins_solid_stops.
      + rewrite Ec. cbn [append]. rewrite Ec in Hb. cbn in Hb.
        now apply negb_true_iff. }
  split; [now apply Hgen|]. split.
  - pose proof (Hgen EmptyString EmptyString eq_refl eq_refl) as H.
    cbn [append] in H. now rewrite append_empty in H.
  - unfold trim. rewrite (drop_while_all isspace (ws1 ++ ws2));
      [reflexivity | now rewrite all_of_app, H1, H2].
Qed.

Lemma trim_strips_the_blanks_around_witness :
  trim ((String TAB " ") ++ "8.5 e1" ++ (String LF " ")) = "8.5 e1"
  /\ trim "8.5 e1" = "8.5 e1"
  /\ trim ((String TAB " ") ++ (String LF " ")) = EmptyString.
Proof.
  apply (trim_strips_the_blanks_around (String TAB " ") "8.5 e1" (String LF " "));
    reflexivity.
Defined.


(** ** Hexadecimal colours, continued *)

Lemma hex2_range (c : ascii) : (-1 <= hex2 c <= 15)%Z.
Proof.
  unfold hex2. generalize (Z.of_nat (nat_of_ascii c)). intros n.
  repeat match goal with
         | |- context [(?a <=? ?b)%Z] => destruct (Z.leb_spec a b)
         end; cbn [andb]; lia.
Qed.

Lemma byte_of_nibbles (a b : Z) :
  (0 <= a <= 15)%Z -> (0 <= b <= 15)%Z ->
  (0 <= Z.lor (Z.shiftl a 4) b <= 255)%Z /\ Z.lor (Z.shiftl a 4) b = (16 * a + b)%Z.
Proof.
  intros Ha Hb.
  assert (Ea : In a (Display.upto 16)) by (apply in_upto; lia).
  assert (Eb : In b (Display.upto 16)) by (apply in_upto; lia).
  revert a b Ea Eb Ha Hb.
  assert (Hall : forallb (fun a => forallb (fun b =>
            (Z.lor (Z.shiftl a 4) b =? 16 * a + b)%Z) (Display.upto 16))
            (Display.upto 16) = true) by (vm_compute; reflexivity).
  intros a b Ea Eb Ha Hb.
  rewrite forallb_forall in Hall. specialize (Hall a Ea).
  rewrite forallb_forall in Hall. specialize (Hall b Eb).
  apply Z.eqb_eq in Hall. lia.
Qed.

Lemma parse_hex_color_strip {F : Type} {float_ops : Float F} (hex : string) :
  parse_hex_color (F := F) hex
  = match strip_hash hex with
    | String c0 (String c1 (String c2 (String c3 (String c4 (String c5 EmptyString))))) =>
      if ((hex2 c0 <? 0) || (hex2 c1 <? 0) || (hex2 c2 <? 0) || (hex2 c3 <? 0)
          || (hex2 c4 <? 0) || (hex2 c5 <? 0))%Z
      then None
      else Some (f_div (lit (inject_Z (Z.lor (Z.shiftl (hex2 c0) 4) (hex2 c1)))) (lit 255),
                 f_div (lit (inject_Z (Z.lor (Z.shiftl (hex2 c2) 4) (hex2 c3)))) (lit 255),
                 f_div (lit (inject_Z (Z.lor (Z.shiftl (hex2 c4) 4) (hex2 c5)))) (lit 255))
    | _ => None
    end.
Proof. reflexivity. Qed.

Lemma is_hex_digit_neg (c : ascii) : (hex2 c <? 0)%Z = negb (is_hex_digit c).
Proof. unfold is_hex_digit. apply Z.ltb_antisym. Qed.

(** The channels of a parsed colour are bytes over 255. *)
Lemma parse_hex_color_bytes
  {F : Type} {float_ops : Float F} (hex : string) (rgb : RGB F) :
  parse_hex_color hex = Some rgb ->
  exists R G B : Z,
    (0 <= R <= 255)%Z /\ (0 <= G <= 255)%Z /\ (0 <= B <= 255)%Z
    /\ rgb = (f_div (lit (inject_Z R)) (lit 255),
              f_div (lit (inject_Z G)) (lit 255),
              f_div (lit (inject_Z B)) (lit 255))
    /\ match strip_hash hex with
       | String c0 (String c1 (String c2 (String c3 (String c4 (String c5 _))))) =>
         R = (16 * hex2 c0 + hex2 c1)%Z /\ G = (16 * hex2 c2 + hex2 c3)%Z
         /\ B = (16 * hex2 c4 + hex2 c5)%Z
       | _ => False
       end.
Proof.
  rewrite parse_hex_color_strip.
  destruct (strip_hash hex) as [|c0 [|c1 [|c2 [|c3 [|c4 [|c5 [|c6 h]]]]]]];
    try discriminate.
  rewrite !is_hex_digit_neg.
  destruct (is_hex_digit c0) eqn:D0; [|discriminate].
  destruct (is_hex_digit c1) eqn:D1; [|discriminate].
  destruct (is_hex_digit c2) eqn:D2; [|discriminate].
  destruct (is_hex_digit c3) eqn:D3; [|discriminate].
  destruct (is_hex_digit c4) eqn:D4; [|discriminate].
  destruct (is_hex_digit c5) eqn:D5; [|discriminate].
  cbn [negb orb]. intros Ergb.
  assert (Ergb' : rgb = (f_div (lit (inject_Z (Z.lor (Z.shiftl (hex2 c0) 4) (hex2 c1)))) (lit 255),
                 f_div (lit (inject_Z (Z.lor (Z.shiftl (hex2 c2) 4) (hex2 c3)))) (lit 255),
                 f_div (lit (inject_Z (Z.lor (Z.shiftl (hex2 c4) 4) (hex2 c5)))) (lit 255)))
    by congruence.
  clear Ergb.
  unfold is_hex_digit in *.
  apply Z.leb_le in D0, D1, D2, D3, D4, D5.
  pose proof (hex2_range c0). pose proof (hex2_range c1). pose proof (hex2_range c2).
  pose proof (hex2_range c3). pose proof (hex2_range c4). pose proof (hex2_range c5).
  destruct (byte_of_nibbles (hex2 c0) (hex2 c1)) as [? E1]; try lia.
  destruct (byte_of_nibbles (hex2 c2) (hex2 c3)) as [? E2]; try lia.
  destruct (byte_of_nibbles (hex2 c4) (hex2 c5)) as [? E3]; try lia.
  exists (Z.lor (Z.shiftl (hex2 c0) 4) (hex2 c1)),
    (Z.lor (Z.shiftl (hex2 c2) 4) (hex2 c3)), (Z.lor (Z.shiftl (hex2 c4) 4) (hex2 c5)).
  split; [assumption|]. split; [assumption|]. split; [assumption|].
  split; [exact Ergb'|]. auto.
Qed.

(** X11.  [parse_hex_color] accepts exactly the texts that, after an optional
    leading [#], consist of six hexadecimal digits; each channel of the
    result is a byte [16 * high + low] divided by 255. *)
Theorem parse_hex_color_accepts_six_digits
  {F : Type} {float_ops : Float F} (hex : string) :
  is_some (parse_hex_color (F := F) hex)
  = (String.length (strip_hash hex) =? 6)%nat && all_of is_hex_digit (strip_hash hex)
  /\ (forall rgb, parse_hex_color (F := F) hex = Some rgb ->
      exists R G B : Z,
        (0 <= R <= 255)%Z /\ (0 <= G <= 255)%Z /\ (0 <= B <= 255)%Z
        /\ rgb = (f_div (lit (inject_Z R)) (lit 255),
                  f_div (lit (inject_Z G)) (lit 255),
                  f_div (lit (inject_Z B)) (lit 255))
        /\ match strip_hash hex with
           | String c0 (String c1 (String c2 (String c3 (String c4 (String c5 _))))) =>
             R = (16 * hex2 c0 + hex2 c1)%Z /\ G = (16 * hex2 c2 + hex2 c3)%Z
             /\ B = (16 * hex2 c4 + hex2 c5)%Z
           | _ => False
           end).
Proof.
  split; [|intros rgb; apply parse_hex_color_bytes].
  rewrite parse_hex_color_strip.
  destruct (strip_hash hex) as [|c0 [|c1 [|c2 [|c3 [|c4 [|c5 [|c6 h]]]]]]];
    try reflexivity.
  rewrite !is_hex_digit_neg. cbn [String.length Nat.eqb all_of andb].
  destruct (is_hex_digit c0), (is_hex_digit c1), (is_hex_digit c2),
    (is_hex_digit c3), (is_hex_digit c4), (is_hex_digit c5); reflexivity.
Qed.

Lemma parse_hex_color_range (hex : string) (rgb : RGB Q) :
  parse_hex_color hex = Some rgb -> rgb_in_range rgb.
Proof.
  intros Hp.
  destruct (parse_hex_color_bytes hex rgb Hp) as (R & G & B & HR & HG & HB & -> & _).
  assert (Hu : forall k, (0 <= k <= 255)%Z -> unit_range (inject_Z k / 255)).
  { intros k Hk. unfold unit_range. split.
    - apply Qle_shift_div_l; [reflexivity|]. rewrite Qmult_0_l.
      change 0 with (inject_Z 0). rewrite <- Zle_Qle. lia.
    - apply Qle_shift_div_r; [reflexivity|]. rewrite Qmult_1_l.
      change 255 with (inject_Z 255). rewrite <- Zle_Qle. lia. }
  cbn [rgb_in_range lit f_div exact]. auto.
Qed.

(** X12.  Every colour [parse_hex_color] delivers has its three channels within
    [0,1]: as exact numbers, and as the [float]s the program stores. *)
Theorem parse_hex_color_in_unit_range (hex : string) :
  (forall rgb, parse_hex_color (F := Q) hex = Some rgb -> rgb_in_range rgb)
  /\ (forall r g b, parse_hex_color (F := spec_float) hex = Some (r, g, b) ->
      forall x, In x [r; g; b] ->
        f_le (lit 0) x = true /\ f_le x (lit 1) = true /\ 0 <= value32 x <= 1).
Proof.
  split.
  - apply parse_hex_color_range.
  - intros r g b Hp x Hx.
    destruct (parse_hex_color_bytes hex (r, g, b) Hp) as (R & G & B & HR & HG & HB & E & _).
    assert (Hall : forallb (fun k =>
              let x := f_div (lit (F := spec_float) (inject_Z k)) (lit 255) in
              f_le (lit 0) x && f_le x (lit 1)
              && Qle_bool 0 (value32 x) && Qle_bool (value32 x) 1)
              (Display.upto 256) = true) by (vm_compute; reflexivity).
    rewrite forallb_forall in Hall.
    assert (Hk : forall k, (0 <= k <= 255)%Z ->
              let x := f_div (lit (F := spec_float) (inject_Z k)) (lit 255) in
              f_le (lit 0) x = true /\ f_le x (lit 1) = true /\ 0 <= value32 x <= 1).
    { intros k Hk. specialize (Hall k). cbv zeta in *.
      rewrite !andb_true_iff, !Qle_bool_iff in Hall.
      assert (In k (Display.upto 256)) by (apply in_upto; lia). tauto. }
    injection E as -> -> ->.
    destruct Hx as [<-|[<-|[<-|[]]]]; apply Hk; assumption.
Qed.

Lemma hex2_lower (c : ascii) : hex2 (ascii_lower c) = hex2 c.
Proof. destruct c as [[] [] [] [] [] [] [] []]; reflexivity. Qed.

Lemma hash_lower (c : ascii) : (ascii_lower c =? "#")%char = (c =? "#")%char.
Proof. destruct c as [[] [] [] [] [] [] [] []]; reflexivity. Qed.

Lemma strip_hash_lower (hex : string) :
  strip_hash (string_lower hex) = string_lower (strip_hash hex).
Proof.
  destruct hex as [|c hex]; [reflexivity|]. cbn [string_lower strip_hash].
  rewrite hash_lower. destruct (c =? "#")%char; reflexivity.
Qed.

(** X13.  [parse_hex_color] does not tell upper case from lower case, and a
    leading [#] makes no difference for a text that does not begin with
    one. *)
Theorem parse_hex_color_ignores_case_and_hash
  {F : Type} {float_ops : Float F} (hex : string) :
  parse_hex_color (F := F) (string_lower hex) = parse_hex_color hex
  /\ (strip_hash hex = hex ->
      parse_hex_color (F := F) (String "#" hex) = parse_hex_color hex).
Proof.
  split.
  - rewrite !parse_hex_color_strip, strip_hash_lower.
    destruct (strip_hash hex) as [|c0 [|c1 [|c2 [|c3 [|c4 [|c5 [|c6 h]]]]]]];
      try reflexivity.
    cbn [string_lower]. now rewrite !hex2_lower.
  - intros E. rewrite !parse_hex_color_strip. rewrite E. reflexivity.
Qed.

Lemma parse_hex_color_ignores_case_and_hash_witness :
  parse_hex_color (F := spec_float) (string_lower "00Ff7A") = parse_hex_color "00Ff7A"
  /\ (strip_hash "00Ff7A" = "00Ff7A" ->
      parse_hex_color (F := spec_float) (String "#" "00Ff7A") = parse_hex_color "00Ff7A").
Proof.
  apply (parse_hex_color_ignores_case_and_hash (F := spec_float) "00Ff7A").
Defined.

(** ** The heat gradient, continued *)

Lemma heat_colour_to_bg_clamps (c : Q) :
  heat_colour_to_bg c = heat_colour_to_bg (clamp c 0 100).
Proof.
  unfold heat_colour_to_bg. exact_ops.
  rewrite (clamp_inside (clamp c 0 100) 0 100);
    [reflexivity | apply clamp_range; lra | apply clamp_range; lra].
Qed.

Lemma heat_colour_to_bg_range_inside (d : Q) :
  0 <= d <= 100 -> rgb_in_range (heat_colour_to_bg d).
Proof.
  intros [H0 H1].
  destruct (Qlt_le_dec 33 d) as [Ha|Ha]; [destruct (Qlt_le_dec 66 d) as [Hb|Hb]|].
  - rewrite (heat_hot d) by assumption. unfold rgb_in_range, unit_range.
    assert (0 <= (d - 66) / 34) by (apply Qle_shift_div_l; lra).
    assert ((d - 66) / 34 <= 1) by (apply Qle_shift_div_r; lra).
    repeat split; lra.
  - rewrite (heat_medium d) by assumption. unfold rgb_in_range, unit_range.
    assert (0 <= (d - 33) / 33) by (apply Qle_shift_div_l; lra).
    assert ((d - 33) / 33 <= 1) by (apply Qle_shift_div_r; lra).
    repeat split; lra.
  - rewrite (heat_cold d) by assumption. unfold rgb_in_range, unit_range.
    assert (0 <= d / 33) by (apply Qle_shift_div_l; lra).
    assert (d / 33 <= 1) by (apply Qle_shift_div_r; lra).
    repeat split; lra.
Qed.

Lemma heat_colour_to_bg_range (c : Q) : rgb_in_range (heat_colour_to_bg c).
Proof.
  rewrite heat_colour_to_bg_clamps. apply heat_colour_to_bg_range_inside.
  apply clamp_range. lra.
Qed.

(** What is above 100 is not below 0. *)
Lemma above_100_not_below_0 (c : spec_float) :
  f_lt (lit 100) c = true -> f_lt c (lit 0) = false.
Proof.
  cbn [f_lt binary32].
  let v := eval vm_compute in (lit (F := spec_float) 100) in
  change (lit (F := spec_float) 100) with v.
  change (lit (F := spec_float) 0) with (S754_zero false).
  destruct c as [s|[|]| |[|] m e]; cbn; intros H; try discriminate; reflexivity.
Qed.

Lemma heat_whole_levels32 (n : nat) :
  (n <= 100)%nat ->
  rgb_in_range32 (heat_colour_to_bg (lit (inject_Z (Z.of_nat n)))) = true.
Proof.
  intros Hn.
  assert (H : forallb
                (fun n => rgb_in_range32 (heat_colour_to_bg (lit (inject_Z (Z.of_nat n)))))
                (seq 0 101) = true) by (vm_compute; reflexivity).
  rewrite forallb_forall in H. apply H, in_seq. lia.
Qed.

(** X14.  [heat_colour_to_bg].  Computed without rounding, for every level (a
    number, then): the channels are within [0,1]; levels at or below 0
    give the colour of level 0, (0, 0, 0.4), and levels at or above 100
    give the colour of level 100, (1, 0, 0); the result only depends on
    the clamped level.  In single precision: every level below 0, minus
    infinity among them, gives (0, 0, 0.4); every level above 100, plus
    infinity among them, gives (1, 0, 0); every whole level from 0 to 100
    gives channels within [0,1]; a NaN level gives (1, NaN, 0), so the
    green channel is in no range. *)
Theorem heat_colour_to_bg_in_unit_range (c : Q) (c32 : spec_float) :
  rgb_in_range (heat_colour_to_bg c)
  /\ (c <= 0 -> rgb_eq (heat_colour_to_bg c) (0, 0, 0.4))
  /\ (100 <= c -> rgb_eq (heat_colour_to_bg c) (1, 0, 0))
  /\ heat_colour_to_bg c = heat_colour_to_bg (clamp c 0 100)
  /\ (f_lt c32 (lit 0) = true -> heat_colour_to_bg c32 = (lit 0, lit 0, lit 0.4))
  /\ (f_lt (lit 100) c32 = true -> heat_colour_to_bg c32 = (lit 1, lit 0, lit 0))
  /\ (forall n : nat, (n <= 100)%nat ->
      rgb_in_range32 (heat_colour_to_bg (lit (inject_Z (Z.of_nat n)))) = true)
  /\ heat_colour_to_bg S754_nan = (lit 1, S754_nan, lit 0)
  /\ rgb_in_range32 (heat_colour_to_bg S754_nan) = false.
Proof.
  pose proof (heat_colour_to_bg_clamps c) as Hsame.
  split; [|split; [|split; [|split; [|split; [|split; [|split]]]]]].
  - apply heat_colour_to_bg_range.
  - intros Hc. rewrite Hsame.
    destruct (clamp_cases c 0 100) as [[H1 E]|[(H1 & H2 & E)|(H1 & H2 & E)]];
      rewrite E.
    + vm_compute. repeat split; reflexivity.
    + lra.
    + assert (Ec : c == 0) by lra.
      rewrite (heat_cold c) by lra. unfold rgb_eq. rewrite Ec.
      repeat split; reflexivity.
  - intros Hc. rewrite Hsame.
    destruct (clamp_cases c 0 100) as [[H1 E]|[(H1 & H2 & E)|(H1 & H2 & E)]];
      rewrite E.
    + lra.
    + vm_compute. repeat split; reflexivity.
    + assert (Ec : c == 100) by lra.
      rewrite (heat_hot c) by lra. unfold rgb_eq. rewrite Ec.
      repeat split; reflexivity.
  - exact Hsame.
  - intros H. unfold heat_colour_to_bg, clamp. rewrite H. vm_compute. reflexivity.
  - intros H. unfold heat_colour_to_bg, clamp.
    rewrite (above_100_not_below_0 c32 H), H. vm_compute. reflexivity.
  - apply heat_whole_levels32.
  - split; reflexivity.
Qed.

(** ** The handler, variable by variable *)

(** Each block of the handler assigns its own variables only: a reading
    [p] of the target variables that the block's assignment leaves alone
    is the same before and after the block. *)
Section Writes.

Context {F : Type} {float_ops : Float F}.

Variable stof : string -> option F.

Context {A : Type} (p : Target F -> A).

Lemma read_mode_keeps b (f : Frame F) :
  (forall v g, p (set_tmodeStr v g) = p g) ->
  p (globals (read_mode b f)) = p (globals f).
Proof.
  intros H. unfold read_mode.
  destruct (extract_json_string b "mode"); [apply H | reflexivity].
Qed.

Lemma read_colour_keeps b (f : Frame F) :
  (forall v g, p (set_tcolourLevel v g) = p g) ->
  p (globals (read_colour stof b f)) = p (globals f).
Proof.
  intros H. unfold read_colour.
  destruct (extract_json_number stof b "colour"); [apply H | reflexivity].
Qed.

Lemma read_geometry_keeps b (f : Frame F) :
  (forall m s g, p (set_tgeometry m s g) = p g) ->
  p (globals (read_geometry b f)) = p (globals f).
Proof.
  intros H. unfold read_geometry.
  destruct (extract_json_string b "geometry") as [geom|]; [|reflexivity].
  cbn [globals assigned].
  repeat match goal with
         | |- context [if ?c then _ else _] => destruct c; [apply H|]
         end.
  reflexivity.
Qed.

Lemma read_segments_keeps b (f : Frame F) :
  (forall v g, p (set_tsegment v g) = p g) ->
  p (globals (read_segments stof b f)) = p (globals f).
Proof.
  intros H. unfold read_segments.
  destruct (extract_json_array_floats _ _ _ _ _) as [[[|] arr] n]; apply H.
Qed.

Lemma read_width_keeps b (f : Frame F) :
  (forall v g, p (set_telementWidth v g) = p g) ->
  p (globals (read_width stof b f)) = p (globals f).
Proof.
  intros H. unfold read_width.
  destruct (extract_json_number stof b "width"); [apply H | reflexivity].
Qed.

Lemma read_percent_keeps b (f : Frame F) :
  (forall v g, p (set_tpercent v g) = p g) ->
  p (globals (read_percent stof b f)) = p (globals f).
Proof.
  intros H. unfold read_percent.
  destruct (extract_json_number stof b "percent"); [apply H | reflexivity].
Qed.

Lemma read_elementColor_keeps b (f : Frame F) :
  (forall v g, p (set_telementColor v g) = p g) ->
  p (globals (read_elementColor b f)) = p (globals f).
Proof.
  intros H. unfold read_elementColor.
  destruct (extract_json_string b "elementColor") as [ehex|]; [|reflexivity].
  destruct (parse_hex_color ehex); [apply H | reflexivity].
Qed.

Lemma read_backgroundColor_keeps b (f : Frame F) :
  (forall v g, p (set_tbackgroundColor v g) = p g) ->
  p (globals (read_backgroundColor b f)) = p (globals f).
Proof.
  intros H. unfold read_backgroundColor.
  destruct (extract_json_string b "backgroundColor") as [bhex|]; [|reflexivity].
  destruct (parse_hex_color bhex); [apply H | reflexivity].
Qed.

(** The enforcement assigns the geometry and both colours. *)
Lemma enforce_mode_keeps (f : Frame F) :
  (forall m s g, p (set_tgeometry m s g) = p g) ->
  (forall v g, p (set_telementColor v g) = p g) ->
  (forall v g, p (set_tbackgroundColor v g) = p g) ->
  p (globals (enforce_mode f)) = p (globals f).
Proof.
  intros Hg He Hb. unfold enforce_mode. cbn [globals].
  destruct (tmodeStr (globals f) =? "heat")%string.
  - destruct (negb (gotBackgroundColor f)); rewrite ?Hb, He, Hg; reflexivity.
  - destruct (negb (gotBackgroundColor f) && gotColour f); rewrite ?Hb; reflexivity.
Qed.

End Writes.

(** The blocks a reading passes unchanged, from the last block back to the
    first that assigns it. *)
Ltac pass_blocks p :=
  repeat first
    [ rewrite (read_backgroundColor_keeps p) by reflexivity
    | rewrite (read_elementColor_keeps p) by reflexivity
    | rewrite (read_percent_keeps _ p) by reflexivity
    | rewrite (read_width_keeps _ p) by reflexivity
    | rewrite (read_segments_keeps _ p) by reflexivity
    | rewrite (read_geometry_keeps p) by reflexivity
    | rewrite (read_colour_keeps _ p) by reflexivity
    | rewrite (read_mode_keeps p) by reflexivity ].

Section Variables.

Context {F : Type} {float_ops : Float F}.

Variable stof : string -> option F.

Lemma parse_fields_width b (g : Target F) :
  telementWidth (globals (parse_fields stof b g))
  = match extract_json_number stof b "width" with
    | Some w => clamp w (lit 0) (lit 100)
    | None => telementWidth g
    end.
Proof.
  unfold parse_fields. pass_blocks (@telementWidth F).
  unfold read_width at 1.
  destruct (extract_json_number stof b "width"); [reflexivity|].
  pass_blocks (@telementWidth F). reflexivity.
Qed.

Lemma parse_fields_percent b (g : Target F) :
  tpercent (globals (parse_fields stof b g))
  = match extract_json_number stof b "percent" with
    | Some pct => clamp pct (lit 0) (lit 1)
    | None => tpercent g
    end.
Proof.
  unfold parse_fields. pass_blocks (@tpercent F).
  unfold read_percent at 1.
  destruct (extract_json_number stof b "percent"); [reflexivity|].
  pass_blocks (@tpercent F). reflexivity.
Qed.

Lemma parse_fields_stamp b (g : Target F) :
  updateTime (globals (parse_fields stof b g)) = updateTime g.
Proof.
  unfold parse_fields. pass_blocks (@updateTime F). reflexivity.
Qed.

Lemma parse_fields_segments b (g : Target F) :
  tsegment (globals (parse_fields stof b g)) = segments_after stof b (tsegment g).
Proof.
  unfold parse_fields. pass_blocks (@tsegment F).
  unfold read_segments at 1, segments_after.
  pass_blocks (@tsegment F). cbn [globals].
  destruct (extract_json_array_floats _ _ _ _ _) as [[[|] arr] n]; reflexivity.
Qed.

Lemma parse_fields_element b (g : Target F) :
  telementColorRGB (globals (parse_fields stof b g))
  = match supplied_elementColor b with
    | Some rgb => rgb
    | None => telementColorRGB g
    end.
Proof.
  unfold parse_fields. pass_blocks (@telementColorRGB F).
  unfold read_elementColor at 1, supplied_elementColor.
  destruct (extract_json_string b "elementColor") as [ehex|].
  - destruct (parse_hex_color ehex); [reflexivity|].
    pass_blocks (@telementColorRGB F). reflexivity.
  - pass_blocks (@telementColorRGB F). reflexivity.
Qed.

Lemma parse_fields_geometry b (g : Target F) :
  (tgeometryMode (globals (parse_fields stof b g)),
   tgeomStr (globals (parse_fields stof b g)))
  = match extract_json_string b "geometry" with
    | Some geom =>
      match geometry_number geom with
      | Some n => (n, geom)
      | None => (tgeometryMode g, tgeomStr g)
      end
    | None => (tgeometryMode g, tgeomStr g)
    end.
Proof.
  set (p := fun g : Target F => (tgeometryMode g, tgeomStr g)).
  change (p (globals (parse_fields stof b g))
          = match extract_json_string b "geometry" with
            | Some geom =>
              match geometry_number geom with
              | Some n => (n, geom)
              | None => p g
              end
            | None => p g
            end).
  unfold parse_fields. pass_blocks p.
  unfold read_geometry at 1.
  destruct (extract_json_string b "geometry") as [geom|].
  - cbn [globals assigned]. unfold geometry_number, geometry_names, index_of.
    repeat match goal with
           | |- context [(geom =? ?s)%string] =>
             destruct (String.eqb_spec geom s) as [->|?]; [reflexivity|]
           end.
    pass_blocks p. reflexivity.
  - pass_blocks p. reflexivity.
Qed.


(** The globals a request with the valid token leaves. *)
Lemma post_update_target b t (g : Target F) :
  snd (post_update stof API_TOKEN b t g)
  = if code_recognized stof b
    then set_updateTime t (globals (read_fields stof b g))
    else globals (read_fields stof b g).
Proof.
  unfold post_update. rewrite String.eqb_refl. cbn [negb].
  unfold read_fields at 1. rewrite enforce_mode_any, parse_fields_any.
  destruct (code_recognized stof b); reflexivity.
Qed.

(** A reading that neither the enforcement nor the time stamp touches. *)
Lemma post_update_reads {A : Type} (p : Target F -> A) b t (g : Target F) :
  (forall m s g, p (set_tgeometry m s g) = p g) ->
  (forall v g, p (set_telementColor v g) = p g) ->
  (forall v g, p (set_tbackgroundColor v g) = p g) ->
  (forall v g, p (set_updateTime v g) = p g) ->
  p (snd (post_update stof API_TOKEN b t g)) = p (globals (parse_fields stof b g)).
Proof.
  intros Hg He Hb Hu. rewrite post_update_target. unfold read_fields.
  destruct (code_recognized stof b); rewrite ?Hu; now apply enforce_mode_keeps.
Qed.

(** Outside heat mode the enforcement leaves the geometry and the element
    colour. *)
Lemma enforce_mode_custom_keeps {A : Type} (p : Target F -> A) (f : Frame F) :
  (forall v g, p (set_tbackgroundColor v g) = p g) ->
  mode_view f <> "heat" ->
  p (globals (enforce_mode f)) = p (globals f).
Proof.
  intros Hb Hm. unfold mode_view in Hm. unfold enforce_mode. cbn [globals].
  destruct (String.eqb_spec (tmodeStr (globals f)) "heat") as [E|_]; [contradiction|].
  destruct (negb (gotBackgroundColor f) && gotColour f); rewrite ?Hb; reflexivity.
Qed.

Lemma post_update_reads_custom {A : Type} (p : Target F -> A) b t (g : Target F) :
  (forall v g, p (set_tbackgroundColor v g) = p g) ->
  (forall v g, p (set_updateTime v g) = p g) ->
  tmodeStr (snd (post_update stof API_TOKEN b t g)) <> "heat" ->
  p (snd (post_update stof API_TOKEN b t g)) = p (globals (parse_fields stof b g)).
Proof.
  intros Hb Hu Hm.
  rewrite (post_update_reads (@tmodeStr F)) in Hm by reflexivity.
  rewrite post_update_target. unfold read_fields.
  destruct (code_recognized stof b); rewrite ?Hu;
    now apply enforce_mode_custom_keeps.
Qed.

End Variables.

(** X15.  The target after a request with the valid token, variable by variable.
    The mode, the colour level, the width and the percentage are the value
    of their own key, clamped for the last two, or the old value when the
    key yields none; the segment array is what [extract_json_array_floats]
    leaves; [updateTime] is the clock value when a field was counted and the
    old value otherwise.  Outside heat mode the geometry is the named shape
    with its number, or the old one for a missing key and for a name that is
    no shape, and the element colour is the supplied one or the old one.
    None of these variables depends on another key, but for the mode
    deciding whether the enforcement applies. *)
Theorem each_variable_follows_its_own_key
  {F : Type} {float_ops : Float F} (stof : string -> option F)
  (b : string) (t : F) (g : Target F) :
  let g' := snd (post_update stof API_TOKEN b t g) in
  tmodeStr g' = match extract_json_string b "mode" with
                | Some mode => mode
                | None => tmodeStr g
                end
  /\ tcolourLevel g' = match extract_json_number stof b "colour" with
                       | Some col => col
                       | None => tcolourLevel g
                       end
  /\ telementWidth g' = match extract_json_number stof b "width" with
                        | Some w => clamp w (lit 0) (lit 100)
                        | None => telementWidth g
                        end
  /\ tpercent g' = match extract_json_number stof b "percent" with
                   | Some pct => clamp pct (lit 0) (lit 1)
                   | None => tpercent g
                   end
  /\ tsegment g' = segments_after stof b (tsegment g)
  /\ updateTime g' = (if code_recognized stof b then t else updateTime g)
  /\ (tmodeStr g' <> "heat" ->
      (tgeometryMode g', tgeomStr g')
      = match extract_json_string b "geometry" with
        | Some geom =>
          match geometry_number geom with
          | Some n => (n, geom)
          | None => (tgeometryMode g, tgeomStr g)
          end
        | None => (tgeometryMode g, tgeomStr g)
        end
      /\ telementColorRGB g' = match supplied_elementColor b with
                               | Some rgb => rgb
                               | None => telementColorRGB g
                               end).
Proof.
  cbv zeta. repeat apply conj.
  - rewrite (post_update_reads stof (@tmodeStr F)) by reflexivity.
    apply (parse_fields_mode stof).
  - rewrite (post_update_reads stof (@tcolourLevel F)) by reflexivity.
    pose proof (parse_fields_colour stof b g) as H.
    unfold colour_view, supplied_colour in H.
    destruct (extract_json_number stof b "colour"); now inversion H.
  - rewrite (post_update_reads stof (@telementWidth F)) by reflexivity.
    apply parse_fields_width.
  - rewrite (post_update_reads stof (@tpercent F)) by reflexivity.
    apply parse_fields_percent.
  - rewrite (post_update_reads stof (@tsegment F)) by reflexivity.
    apply parse_fields_segments.
  - rewrite post_update_target. unfold read_fields.
    destruct (code_recognized stof b); [reflexivity|].
    rewrite (enforce_mode_keeps (@updateTime F)) by reflexivity.
    apply parse_fields_stamp.
  - intros Hm. split.
    + rewrite <- (parse_fields_geometry stof b g).
      apply (post_update_reads_custom stof (fun g => (tgeometryMode g, tgeomStr g)));
        auto.
    + rewrite <- (parse_fields_element stof b g).
      apply (post_update_reads_custom stof (@telementColorRGB F)); auto.
Qed.


(** ** Rejected requests *)

Section Rejected.

Context {F : Type} {float_ops : Float F}.

Variable stof : string -> option F.

(** When no block counts a field, the blocks leave the globals as they
    were, up to the places of the segment array that were written before
    the array was found faulty. *)
Lemma parse_fields_rejected b (g : Target F) :
  code_recognized stof b = false ->
  parse_fields stof b g
  = mkFrame (set_tsegment (segments_after stof b (tsegment g)) g)
      false false false false.
Proof.
  unfold code_recognized. rewrite !orb_false_iff.
  intros (((((((Hm & Hc) & Hg) & Hs) & Hw) & Hp) & He) & Hb).
  unfold supplied_colour in Hc. unfold supplied_segments in Hs.
  unfold supplied_elementColor in He. unfold supplied_backgroundColor in Hb.
  rewrite (extract_json_array_floats_flag stof b "segments" [] (tsegment g)) in Hs.
  unfold parse_fields, segments_after.
  unfold read_mode. destruct (extract_json_string b "mode"); [discriminate|].
  unfold read_colour. destruct (extract_json_number stof b "colour"); [discriminate|].
  unfold read_geometry. destruct (extract_json_string b "geometry"); [discriminate|].
  unfold read_segments. cbn [globals].
  destruct (extract_json_array_floats stof b "segments" (tsegment g) SEGMENTS)
    as [[ok arr] n].
  cbn [fst snd] in Hs |- *. subst ok.
  unfold read_width. destruct (extract_json_number stof b "width"); [discriminate|].
  unfold read_percent. destruct (extract_json_number stof b "percent"); [discriminate|].
  unfold read_elementColor.
  destruct (extract_json_string b "elementColor") as [ehex|];
    [destruct (parse_hex_color ehex); [discriminate|]|];
    unfold read_backgroundColor;
    (destruct (extract_json_string b "backgroundColor") as [bhex|];
     [destruct (parse_hex_color bhex); [discriminate|]|]); reflexivity.
Qed.

Lemma set_tsegment_same (g : Target F) : set_tsegment (tsegment g) g = g.
Proof. destruct g; reflexivity. Qed.

(** The globals a rejected request with the valid token leaves. *)
Lemma post_update_rejected b t (g : Target F) :
  code_recognized stof b = false ->
  snd (post_update stof API_TOKEN b t g)
  = globals (enforce_mode
      (mkFrame (set_tsegment (segments_after stof b (tsegment g)) g)
         false false false false)).
Proof.
  intros H. rewrite post_update_target, H. unfold read_fields.
  now rewrite parse_fields_rejected.
Qed.

(** A key that does not occur: each helper fails, and the array helper
    leaves the array as it is. *)
Lemma missing_key (body key : string) (outArr : list F) (maxN : nat) :
  index 0 (quoted key) body = None ->
  extract_json_string body key = None
  /\ extract_json_number stof body key = None
  /\ extract_json_array_floats stof body key outArr maxN = (false, outArr, O).
Proof.
  intros H. unfold extract_json_string, extract_json_number, extract_json_array_floats.
  rewrite H. auto.
Qed.

Lemma no_known_key_rejected b :
  no_known_key b ->
  code_recognized stof b = false /\ forall arr, segments_after stof b arr = arr.
Proof.
  intros H.
  assert (Hk : forall key, In key update_keys ->
            extract_json_string b key = None
            /\ extract_json_number stof b key = None
            /\ forall arr, extract_json_array_floats stof b key arr SEGMENTS
                           = (false, arr, O)).
  { intros key Hin. specialize (H key Hin).
    split; [|split].
    - apply (missing_key b key [] O H).
    - apply (missing_key b key [] O H).
    - intros arr. apply (missing_key b key arr SEGMENTS H). }
  unfold update_keys in Hk.
  split.
  - unfold code_recognized, supplied_colour, supplied_segments,
      supplied_elementColor, supplied_backgroundColor.
    rewrite (proj1 (Hk "mode" ltac:(simpl; tauto))).
    rewrite (proj1 (proj2 (Hk "colour" ltac:(simpl; tauto)))).
    rewrite (proj1 (Hk "geometry" ltac:(simpl; tauto))).
    rewrite (proj2 (proj2 (Hk "segments" ltac:(simpl; tauto)))).
    rewrite (proj1 (proj2 (Hk "width" ltac:(simpl; tauto)))).
    rewrite (proj1 (proj2 (Hk "percent" ltac:(simpl; tauto)))).
    rewrite (proj1 (Hk "elementColor" ltac:(simpl; tauto))).
    rewrite (proj1 (Hk "backgroundColor" ltac:(simpl; tauto))).
    reflexivity.
  - intros arr. unfold segments_after.
    now rewrite (proj2 (proj2 (Hk "segments" ltac:(simpl; tauto)))).
Qed.

End Rejected.

(** X16.  What a request that is not answered 200 can change.  With a wrong
    token: nothing.  With the valid token and no field counted: the mode,
    the colour level, the width, the percentage and [updateTime] stay;
    outside heat mode everything but the segment array stays; in heat mode
    the result is the old state with the segment array as the array helper
    left it and the enforcement applied (ring, white, background of the
    colour level). *)
Theorem rejected_request_changes_at_most
  {F : Type} {float_ops : Float F} (stof : string -> option F)
  (token b : string) (t : F) (g : Target F) :
  fst (post_update stof token b t g) <> OK ->
  let g' := snd (post_update stof token b t g) in
  (token <> API_TOKEN -> g' = g)
  /\ tmodeStr g' = tmodeStr g
  /\ tcolourLevel g' = tcolourLevel g
  /\ telementWidth g' = telementWidth g
  /\ tpercent g' = tpercent g
  /\ updateTime g' = updateTime g
  /\ (tmodeStr g <> "heat" -> g' = set_tsegment (tsegment g') g)
  /\ (tmodeStr g = "heat" -> token = API_TOKEN ->
      g' = set_tbackgroundColor (heat_colour_to_bg (tcolourLevel g))
             (set_telementColor (lit 1, lit 1, lit 1)
                (set_tgeometry 0 "ring" (set_tsegment (tsegment g') g)))).
Proof.
  intros Hno. cbv zeta.
  destruct (String.eqb_spec token API_TOKEN) as [->|Htok].
  - assert (Hc : code_recognized stof b = false).
    { rewrite post_update_answer in Hno.
      destruct (code_recognized stof b); [contradiction|reflexivity]. }
    rewrite (post_update_rejected stof b t g Hc).
    set (arr := segments_after stof b (tsegment g)).
    unfold enforce_mode. cbn [globals gotBackgroundColor gotColour negb andb].
    change (tmodeStr (set_tsegment arr g)) with (tmodeStr g).
    destruct (String.eqb_spec (tmodeStr g) "heat") as [E|E];
      repeat apply conj; try reflexivity; tauto.
  - assert (E : snd (post_update stof token b t g) = g).
    { unfold post_update.
      destruct (String.eqb_spec token API_TOKEN) as [?|_]; [contradiction|reflexivity]. }
    rewrite E. repeat apply conj; try reflexivity; try tauto.
    intros _. symmetry. apply set_tsegment_same.
Qed.

Lemma rejected_request_changes_at_most_witness :
  let g : Target spec_float := initial_target in
  let g' := snd (post_update stof32 API_TOKEN body_bad_segments (lit 5) g) in
  (API_TOKEN <> API_TOKEN -> g' = g)
  /\ tmodeStr g' = tmodeStr g
  /\ tcolourLevel g' = tcolourLevel g
  /\ telementWidth g' = telementWidth g
  /\ tpercent g' = tpercent g
  /\ updateTime g' = updateTime g
  /\ (tmodeStr g <> "heat" -> g' = set_tsegment (tsegment g') g)
  /\ (tmodeStr g = "heat" -> API_TOKEN = API_TOKEN ->
      g' = set_tbackgroundColor (heat_colour_to_bg (tcolourLevel g))
             (set_telementColor (lit 1, lit 1, lit 1)
                (set_tgeometry 0 "ring" (set_tsegment (tsegment g') g)))).
Proof.
  apply (rejected_request_changes_at_most stof32 API_TOKEN body_bad_segments
           (lit 5) initial_target).
  vm_compute. discriminate.
Defined.

(** X17.  A body in which none of the eight keys occurs in quotes is answered
    400 [No valid fields]; it leaves the segment array and [updateTime],
    and outside heat mode it leaves the target as it is. *)
Theorem body_without_keys_is_rejected
  {F : Type} {float_ops : Float F} (stof : string -> option F)
  (b : string) (t : F) (g : Target F) :
  no_known_key b ->
  let g' := snd (post_update stof API_TOKEN b t g) in
  fst (post_update stof API_TOKEN b t g) = NoValidFields
  /\ tsegment g' = tsegment g
  /\ updateTime g' = updateTime g
  /\ (tmodeStr g <> "heat" -> g' = g).
Proof.
  intros Hk. cbv zeta.
  destruct (no_known_key_rejected stof b Hk) as [Hc Hs].
  rewrite post_update_answer, Hc.
  rewrite (post_update_rejected stof b t g Hc), Hs, set_tsegment_same.
  split; [reflexivity|].
  split; [apply (enforce_mode_keeps (@tsegment F)); reflexivity|].
  split; [apply (enforce_mode_keeps (@updateTime F)); reflexivity|].
  intros Hm. unfold enforce_mode. cbn [globals gotBackgroundColor gotColour negb andb].
  destruct (String.eqb_spec (tmodeStr g) "heat") as [E|_]; [contradiction|reflexivity].
Qed.

Lemma body_without_keys_is_rejected_witness :
  let g : Target spec_float := set_tmodeStr "custom" initial_target in
  let g' := snd (post_update stof32 API_TOKEN "{}" (lit 5) g) in
  fst (post_update stof32 API_TOKEN "{}" (lit 5) g) = NoValidFields
  /\ tsegment g' = tsegment g
  /\ updateTime g' = updateTime g
  /\ (tmodeStr g <> "heat" -> g' = g).
Proof.
  apply (body_without_keys_is_rejected stof32 "{}" (lit 5)
           (set_tmodeStr "custom" initial_target)).
  intros key Hin. unfold update_keys in Hin. simpl in Hin.
  repeat (destruct Hin as [<-|Hin]; [reflexivity|]). contradiction.
Defined.


(** ** Invariants of the globals *)

Lemma geometry_number_range (geom : string) (n : Z) :
  geometry_number geom = Some n -> (0 <= n <= 4)%Z.
Proof.
  unfold geometry_number, geometry_names, index_of.
  repeat match goal with
         | |- context [(geom =? ?s)%string] => destruct (geom =? s)%string
         end; cbn; intros [= <-]; lia.
Qed.

Section Sound.

Context {F : Type} {float_ops : Float F}.

Variable stof : string -> option F.

Lemma initial_sound : sound (F := F) initial_globals.
Proof.
  unfold sound, initial_globals. cbn [target live].
  repeat split; cbn; try reflexivity; lia.
Qed.

(** After a request with the valid token heat mode means ring and white,
    whatever the state before. *)
Lemma post_update_enforces b t (g : Target F) :
  heat_shaped (snd (post_update stof API_TOKEN b t g)).
Proof.
  rewrite post_update_target. unfold read_fields.
  assert (H : heat_shaped (globals (enforce_mode (parse_fields stof b g)))).
  { intros Hm.
    assert (Hv : mode_view (parse_fields stof b g) = "heat")
      by (rewrite <- enforce_mode_mode; exact Hm).
    destruct (enforce_mode_heat _ Hv) as (H1 & H2 & H3 & _). auto. }
  destruct (code_recognized stof b); exact H.
Qed.

Lemma post_update_unauthorized token b t (g : Target F) :
  token <> API_TOKEN -> snd (post_update stof token b t g) = g.
Proof.
  intros Htok. unfold post_update.
  destruct (String.eqb_spec token API_TOKEN) as [?|_]; [contradiction|reflexivity].
Qed.

Lemma post_update_heat_shaped token b t (g : Target F) :
  heat_shaped g -> heat_shaped (snd (post_update stof token b t g)).
Proof.
  intros Hg.
  destruct (String.eqb_spec token API_TOKEN) as [->|Htok].
  - apply post_update_enforces.
  - now rewrite post_update_unauthorized.
Qed.

Lemma post_update_geometry_named token b t (g : Target F) :
  geometry_named g -> geometry_named (snd (post_update stof token b t g)).
Proof.
  intros Hg.
  destruct (String.eqb_spec token API_TOKEN) as [->|Htok];
    [|now rewrite post_update_unauthorized].
  unfold geometry_named.
  destruct (String.eqb_spec (tmodeStr (snd (post_update stof API_TOKEN b t g))) "heat")
    as [Hm|Hm].
  - destruct (post_update_enforces b t g Hm) as (H1 & H2 & _).
    rewrite H1, H2. reflexivity.
  - pose proof (post_update_reads_custom stof
                  (fun g => (tgeometryMode g, tgeomStr g)) b t g
                  ltac:(reflexivity) ltac:(reflexivity) Hm) as E.
    cbv beta in E. rewrite parse_fields_geometry in E.
    destruct (extract_json_string b "geometry") as [geom|];
      [destruct (geometry_number geom) as [n|] eqn:En|];
      apply pair_equal_spec in E; destruct E as [E1 E2]; rewrite E1, E2;
      assumption.
Qed.

Lemma step_sound (w : Globals F) (e : Event F) : sound w -> sound (step stof w e).
Proof.
  intros (Ht & Hl & Hh & Hn & Hr). destruct e as [token body|elapsed].
  - unfold step, serve.
    destruct (post_update stof token body (t w) (target w)) as [res g] eqn:E.
    assert (Eg : g = snd (post_update stof token body (t w) (target w)))
      by now rewrite E.
    unfold sound. cbn [snd target live]. rewrite Eg.
    repeat apply conj; auto.
    + now apply post_update_wf.
    + now apply post_update_heat_shaped.
    + now apply post_update_geometry_named.
    + apply Hr.
    + apply Hr.
  - unfold step, sound. cbn [frame target live].
    repeat apply conj; auto.
    + now apply (frame_wf elapsed w).
    + cbn [interpolate geometryMode]. apply (geometry_number_range _ _ Hn).
    + cbn [interpolate geometryMode]. apply (geometry_number_range _ _ Hn).
Qed.

Lemma run_sound (es : list (Event F)) : forall w, sound w -> sound (run stof es w).
Proof.
  induction es as [|e es IH]; intros w H; [exact H|].
  apply IH, step_sound, H.
Qed.

End Sound.

(** X18.  Whatever requests arrive and whatever iterations of the main loop run,
    in any order and from the initial values of the globals: both segment
    arrays keep their [SEGMENTS] places; when the target mode is heat the
    target geometry is ring, number 0, and the target element colour is
    white; the target geometry name is the name of the target geometry
    number; and the geometry number handed to the shader is one of 0..4. *)
Theorem every_reachable_state_is_sound
  {F : Type} {float_ops : Float F} (stof : string -> option F)
  (es : list (Event F)) :
  let w := run stof es initial_globals in
  List.length (tsegment (target w)) = SEGMENTS
  /\ List.length (segment (live w)) = SEGMENTS
  /\ (tmodeStr (target w) = "heat" ->
      tgeometryMode (target w) = 0%Z /\ tgeomStr (target w) = "ring"
      /\ telementColorRGB (target w) = (lit 1, lit 1, lit 1))
  /\ geometry_number (tgeomStr (target w)) = Some (tgeometryMode (target w))
  /\ (0 <= geometryMode (live w) <= 4)%Z.
Proof.
  exact (run_sound stof es initial_globals initial_sound).
Qed.


(** ** Ranges, in exact arithmetic *)

Lemma approach_between (lo hi x tx rate dt : Q) :
  0 <= rate * dt -> lo <= x <= hi -> lo <= tx <= hi ->
  lo <= approach x tx rate dt <= hi.
Proof.
  intros Hr Hx Ht.
  destruct (approach_chases rate dt x tx Hr) as (_ & [H|H] & _); lra.
Qed.

Lemma approach_rgb_in_range (c tc : RGB Q) (rate dt : Q) :
  0 <= rate * dt -> rgb_in_range c -> rgb_in_range tc ->
  rgb_in_range (approach_rgb c tc rate dt).
Proof.
  destruct c as [[r g] b], tc as [[tr tg] tb]. unfold rgb_in_range, unit_range.
  intros Hr (H1 & H2 & H3) (H4 & H5 & H6). cbn [approach_rgb].
  split; [|split]; now apply approach_between.
Qed.

Section Ranges.

Variable stof : string -> option Q.

Lemma parse_fields_in_range b (g : Target Q) :
  target_in_range g -> target_in_range (globals (parse_fields stof b g)).
Proof.
  intros (Hw & Hp & He & Hb). unfold target_in_range.
  rewrite parse_fields_width, parse_fields_percent, parse_fields_element.
  pose proof (parse_fields_background stof b g) as Eb.
  unfold background_view in Eb.
  assert (Eb' : tbackgroundColorRGB (globals (parse_fields stof b g))
                = match supplied_backgroundColor b with
                  | Some rgb => rgb
                  | None => tbackgroundColorRGB g
                  end).
  { destruct (supplied_backgroundColor b); now inversion Eb. }
  rewrite Eb'. clear Eb Eb'.
  split; [|split; [|split]].
  - destruct (extract_json_number stof b "width"); [|apply Hw].
    exact_ops. apply clamp_range. lra.
  - destruct (extract_json_number stof b "percent"); [|apply Hp].
    exact_ops. apply clamp_range. lra.
  - unfold supplied_elementColor.
    destruct (extract_json_string b "elementColor") as [ehex|]; [|exact He].
    destruct (parse_hex_color ehex) as [rgb|] eqn:E; [|exact He].
    now apply (parse_hex_color_range ehex).
  - unfold supplied_backgroundColor.
    destruct (extract_json_string b "backgroundColor") as [bhex|]; [|exact Hb].
    destruct (parse_hex_color bhex) as [rgb|] eqn:E; [|exact Hb].
    now apply (parse_hex_color_range bhex).
Qed.

Lemma white_in_range : rgb_in_range (lit 1, lit 1, lit 1).
Proof. exact_ops. unfold rgb_in_range, unit_range. lra. Qed.

Lemma enforce_mode_in_range (f : Frame Q) :
  target_in_range (globals f) -> target_in_range (globals (enforce_mode f)).
Proof.
  intros (Hw & Hp & He & Hb). unfold enforce_mode, target_in_range. cbn [globals].
  destruct (tmodeStr (globals f) =? "heat")%string.
  - destruct (negb (gotBackgroundColor f));
      cbn [telementWidth tpercent telementColorRGB tbackgroundColorRGB
           set_tbackgroundColor set_telementColor set_tgeometry tcolourLevel];
      (split; [exact Hw|split; [exact Hp|split; [apply white_in_range|]]]);
      [apply heat_colour_to_bg_range | exact Hb].
  - destruct (negb (gotBackgroundColor f) && gotColour f);
      cbn [telementWidth tpercent telementColorRGB tbackgroundColorRGB
           set_tbackgroundColor tcolourLevel];
      (split; [exact Hw|split; [exact Hp|split; [exact He|]]]);
      [apply heat_colour_to_bg_range | exact Hb].
Qed.

Lemma post_update_in_range token b t (g : Target Q) :
  target_in_range g -> target_in_range (snd (post_update stof token b t g)).
Proof.
  intros Hg.
  destruct (String.eqb_spec token API_TOKEN) as [->|Htok];
    [|now rewrite post_update_unauthorized].
  rewrite post_update_target. unfold read_fields.
  assert (H : target_in_range (globals (enforce_mode (parse_fields stof b g))))
    by now apply enforce_mode_in_range, parse_fields_in_range.
  destruct (code_recognized stof b); exact H.
Qed.

Lemma interpolate_in_range (elapsed : Q) (g : Target Q) (l : Live Q) :
  target_in_range g -> live_in_range l ->
  live_in_range (interpolate (frame_dt elapsed) g l).
Proof.
  intros (Hw & Hp & He & Hb) (Lw & Lp & Le & Lb).
  pose proof (frame_dt_range elapsed) as Hdt.
  assert (H40 : 0 <= ANIMSTEP * frame_dt elapsed).
  { unfold ANIMSTEP. exact_ops. apply Qmult_le_0_compat; lra. }
  assert (H2 : 0 <= lit 2 * frame_dt elapsed).
  { exact_ops. apply Qmult_le_0_compat; lra. }
  unfold live_in_range, interpolate.
  cbn [elementWidth percent elementColorRGB backgroundColorRGB].
  split; [|split; [|split]].
  - now apply approach_between.
  - now apply approach_between.
  - now apply approach_rgb_in_range.
  - now apply approach_rgb_in_range.
Qed.

Lemma step_in_range (w : Globals Q) (e : Event Q) :
  target_in_range (target w) /\ live_in_range (live w) ->
  target_in_range (target (step stof w e)) /\ live_in_range (live (step stof w e)).
Proof.
  intros [Ht Hl]. destruct e as [token body|elapsed].
  - unfold step, serve.
    destruct (post_update stof token body (t w) (target w)) as [res g] eqn:E.
    assert (Eg : g = snd (post_update stof token body (t w) (target w)))
      by now rewrite E.
    cbn [snd target live]. rewrite Eg.
    split; [now apply post_update_in_range | exact Hl].
  - unfold step, frame. cbn [target live].
    split; [exact Ht | now apply interpolate_in_range].
Qed.

Lemma run_in_range (es : list (Event Q)) : forall w,
  target_in_range (target w) /\ live_in_range (live w) ->
  target_in_range (target (run stof es w)) /\ live_in_range (live (run stof es w)).
Proof.
  induction es as [|e es IH]; intros w H; [exact H|].
  apply IH, step_in_range, H.
Qed.

End Ranges.

(** *** The target element colour in single precision *)

Lemma byte_channel32 (R : Z) :
  (0 <= R <= 255)%Z ->
  unit_range32 (f_div (lit (inject_Z R)) (lit 255)) = true.
Proof.
  intros HR.
  assert (H : forallb
                (fun n => unit_range32 (f_div (lit (inject_Z (Z.of_nat n))) (lit 255)))
                (seq 0 256) = true) by (vm_compute; reflexivity).
  rewrite forallb_forall in H.
  rewrite <- (Z2Nat.id R) by lia. apply H, in_seq. lia.
Qed.

Lemma parse_hex_color_range32 (hex : string) (rgb : RGB spec_float) :
  parse_hex_color hex = Some rgb -> rgb_in_range32 rgb = true.
Proof.
  intros E.
  destruct (parse_hex_color_bytes hex rgb E) as (R & G & B & HR & HG & HB & -> & _).
  unfold rgb_in_range32.
  now rewrite !byte_channel32.
Qed.

Section Element32.

Variable stof : string -> option spec_float.

Lemma enforce_mode_element (f : Frame spec_float) :
  telementColorRGB (globals (enforce_mode f))
  = if (tmodeStr (globals f) =? "heat")%string
    then (lit 1, lit 1, lit 1)
    else telementColorRGB (globals f).
Proof.
  unfold enforce_mode. cbn [globals].
  destruct (tmodeStr (globals f) =? "heat")%string.
  - destruct (negb (gotBackgroundColor f)); reflexivity.
  - destruct (negb (gotBackgroundColor f) && gotColour f); reflexivity.
Qed.

Lemma post_update_element32 token b t (g : Target spec_float) :
  rgb_in_range32 (telementColorRGB g) = true ->
  rgb_in_range32 (telementColorRGB (snd (post_update stof token b t g))) = true.
Proof.
  intros Hg.
  destruct (String.eqb_spec token API_TOKEN) as [->|Htok];
    [|now rewrite post_update_unauthorized].
  rewrite post_update_target.
  assert (H : rgb_in_range32 (telementColorRGB (globals (read_fields stof b g))) = true).
  { unfold read_fields. rewrite enforce_mode_element.
    destruct (tmodeStr (globals (parse_fields stof b g)) =? "heat")%string;
      [reflexivity|].
    rewrite parse_fields_element. unfold supplied_elementColor.
    destruct (extract_json_string b "elementColor") as [ehex|]; [|exact Hg].
    destruct (parse_hex_color ehex) as [rgb|] eqn:E; [|exact Hg].
    now apply (parse_hex_color_range32 ehex). }
  destruct (code_recognized stof b); exact H.
Qed.

Lemma run_element32 (es : list (Event spec_float)) : forall w,
  rgb_in_range32 (telementColorRGB (target w)) = true ->
  rgb_in_range32 (telementColorRGB (target (run stof es w))) = true.
Proof.
  induction es as [|e es IH]; intros w H; [exact H|].
  apply IH. destruct e as [token body|elapsed]; [|exact H].
  unfold step, serve.
  destruct (post_update stof token body (t w) (target w)) as [res g] eqn:E.
  cbn [snd target].
  replace g with (snd (post_update stof token body (t w) (target w)))
    by now rewrite E.
  now apply post_update_element32.
Qed.

End Element32.

(** X19.  From the initial values, whatever requests arrive and whatever
    iterations of the main loop run.  Computed without rounding and with a
    [stof] that delivers numbers only (no NaN, which the exact numbers do
    not have): the target and the live element width stay within [0,100],
    the target and the live percentage within [0,1], and every channel of
    the target and the live element and background colours within [0,1].
    In single precision, whatever [stof] delivers: every channel of the
    target element colour stays within [0,1].  The other ranges do not hold
    in single precision when [stof] reads the text nan, as [std::stof]
    does: after the request [{"colour":nan}] the target background colour
    is (1, NaN, 0), and after the request [{"width":nan}] and one iteration
    the target width and the live width are NaN. *)
Theorem width_percent_and_colours_stay_in_range
  (stof : string -> option Q) (es : list (Event Q))
  (stof' : string -> option spec_float) (es' : list (Event spec_float)) :
  (let w := run stof es initial_globals in
   target_in_range (target w) /\ live_in_range (live w))
  /\ rgb_in_range32 (telementColorRGB (target (run stof' es' initial_globals))) = true
  /\ (let w := run stof_nan [Request API_TOKEN body_colour_nan] initial_globals in
      tbackgroundColorRGB (target w) = (lit 1, S754_nan, lit 0)
      /\ rgb_in_range32 (tbackgroundColorRGB (target w)) = false)
  /\ (let w := run stof_nan [Request API_TOKEN body_width_nan; Tick (lit 0.025)]
                 initial_globals in
      telementWidth (target w) = S754_nan /\ elementWidth (live w) = S754_nan).
Proof.
  split; [|split; [|split]].
  - apply run_in_range.
    unfold target_in_range, live_in_range, initial_globals, initial_target,
      initial_live.
    cbn [target live telementWidth tpercent telementColorRGB tbackgroundColorRGB
         elementWidth percent elementColorRGB backgroundColorRGB].
    exact_ops. unfold rgb_in_range, unit_range. lra.
  - apply run_element32. reflexivity.
  - split; vm_compute; reflexivity.
  - split; vm_compute; reflexivity.
Qed.


(** ** The interpolation over many iterations, in exact arithmetic *)










(** ** The age of the signal, in exact arithmetic *)







(** ** Clamping, in both arithmetics *)

Section Ranges32.

Variable stof : string -> option spec_float.

Hypothesis stof_number : forall s, stof s <> Some S754_nan.

Lemma post_update_in_range32 token b t (g : Target spec_float) :
  scalars_in_range32 g -> scalars_in_range32 (snd (post_update stof token b t g)).
Proof.
  intros (W0 & W1 & P0 & P1).
  destruct (String.eqb_spec token API_TOKEN) as [->|Htok];
    [|rewrite post_update_unauthorized by assumption; repeat split; assumption].
  unfold scalars_in_range32.
  rewrite (post_update_reads stof (@telementWidth spec_float)) by reflexivity.
  rewrite (post_update_reads stof (@tpercent spec_float)) by reflexivity.
  rewrite parse_fields_width, parse_fields_percent.
  assert (Hw : forall key v, extract_json_number stof b key = Some v -> v <> S754_nan).
  { intros key v E ->. unfold extract_json_number in E.
    destruct (index 0 (quoted key) b) as [k|]; [|discriminate].
    destruct (index k ":" b) as [colon|]; [|discriminate].
    exact (stof_number _ E). }
  destruct (extract_json_number stof b "width") as [w|] eqn:Ew;
    destruct (extract_json_number stof b "percent") as [pct|] eqn:Ep;
    repeat match goal with
           | |- _ /\ _ => split
           end;
    try assumption;
    try (apply clamp_range32; [eapply Hw; eassumption | reflexivity]).
Qed.

Lemma run_in_range32 (es : list (Event spec_float)) : forall w,
  scalars_in_range32 (target w) -> scalars_in_range32 (target (run stof es w)).
Proof.
  induction es as [|e es IH]; intros w H; [exact H|].
  apply IH. destruct e as [token body|elapsed]; [|exact H].
  unfold step, serve.
  destruct (post_update stof token body (t w) (target w)) as [res g] eqn:E.
  cbn [snd target].
  replace g with (snd (post_update stof token body (t w) (target w)))
    by now rewrite E.
  now apply post_update_in_range32.
Qed.

End Ranges32.

(** X22.  [compat::clamp] with ordered bounds.  Computed without rounding: the
    result lies within the bounds, a value within the bounds is returned as
    it is, and clamping twice is clamping once.  In single precision, by
    the comparison of the program: the result lies within the bounds for
    every value that is not a NaN, the infinities included, and a NaN is
    returned as it is. *)
Theorem clamp_keeps_within_bounds
  (v lo hi : Q) (v32 lo32 hi32 : spec_float) :
  lo <= hi -> f_le lo32 hi32 = true ->
  lo <= clamp v lo hi <= hi
  /\ (lo <= v <= hi -> clamp v lo hi = v)
  /\ clamp (clamp v lo hi) lo hi = clamp v lo hi
  /\ (v32 <> S754_nan ->
      f_le lo32 (clamp v32 lo32 hi32) = true
      /\ f_le (clamp v32 lo32 hi32) hi32 = true)
  /\ clamp S754_nan lo32 hi32 = S754_nan.
Proof.
  intros H H32. split; [|split; [|split; [|split]]].
  - now apply clamp_range.
  - intros [H1 H2]. now apply clamp_inside.
  - apply clamp_inside; now apply clamp_range.
  - intros Hv. now apply clamp_range32.
  - unfold clamp. cbn [f_lt binary32]. destruct lo32, hi32; reflexivity.
Qed.

Lemma clamp_keeps_within_bounds_witness :
  0 <= clamp 150 0 100 <= 100
  /\ (0 <= 150 <= 100 -> clamp 150 0 100 = 150)
  /\ clamp (clamp 150 0 100) 0 100 = clamp 150 0 100
  /\ (S754_infinity false <> S754_nan ->
      f_le (lit 0) (clamp (S754_infinity false) (lit 0) (lit 100)) = true
      /\ f_le (clamp (S754_infinity false) (lit 0) (lit 100)) (lit 100) = true)
  /\ clamp S754_nan (lit 0) (lit 100) = S754_nan.
Proof.
  apply (clamp_keeps_within_bounds 150 0 100 (S754_infinity false) (lit 0) (lit 100)).
  - vm_compute. congruence.
  - reflexivity.
Defined.

Lemma stof32_number (s : string) : stof32 s <> Some S754_nan.
Proof.
  unfold stof32, stof_decimal. destruct (decimal_value s) as [q|]; [|discriminate].
  cbv zeta. destruct (f_finite (lit q)) eqn:E; [|discriminate].
  cbn [f_finite lit binary32] in *. intros [= H]. rewrite H in E. discriminate.
Qed.

(** X23.  In single precision, for a [stof] that delivers no NaN, and whatever
    requests arrive and whatever iterations of the main loop run from the
    initial values: the target element width stays within [0,100] and the
    target percentage within [0,1], by the comparison of the program. *)
Theorem width_and_percent_stay_clamped_in_binary32
  (stof : string -> option spec_float) (es : list (Event spec_float)) :
  (forall s, stof s <> Some S754_nan) ->
  scalars_in_range32 (target (run stof es initial_globals)).
Proof.
  intros Hs. apply run_in_range32; [exact Hs|].
  unfold scalars_in_range32. repeat split.
Qed.

Lemma width_and_percent_stay_clamped_in_binary32_witness :
  scalars_in_range32
    (target (run stof32 [Request API_TOKEN body_width_60; Tick (lit 0.1)]
               initial_globals)).
Proof.
  apply (width_and_percent_stay_clamped_in_binary32 stof32
           [Request API_TOKEN body_width_60; Tick (lit 0.1)]).
  exact stof32_number.
Defined.


(** ** The same request twice *)

Section Again.

Context {F : Type} {float_ops : Float F}.

Variable stof : string -> option F.

(** Reading the same values into the array the first reading left changes
    nothing. *)
Lemma read_floats_again (vals : list string) : forall (arr : list F) (idx maxN : nat),
  snd (fst (read_floats stof vals
              (snd (fst (read_floats stof vals arr idx maxN))) idx maxN))
  = snd (fst (read_floats stof vals arr idx maxN)).
Proof.
  induction vals as [|val rest IH]; intros arr idx maxN; [reflexivity|].
  cbn [read_floats].
  destruct (negb (idx <? maxN)%nat) eqn:Elim.
  - cbn [fst snd read_floats]. rewrite ?Elim. reflexivity.
  - destruct (trim val) as [|c tr] eqn:Etrim.
    + cbn [read_floats]. rewrite ?Elim, ?Etrim. apply IH.
    + destruct (stof (String c tr)) as [v|] eqn:Ev.
      * set (arr1 := snd (fst (read_floats stof rest (store arr idx v) (S idx) maxN))).
        cbn [read_floats]. rewrite ?Elim, ?Etrim, ?Ev.
        assert (Es : store arr1 idx v = arr1).
        { pose proof (read_floats_places stof rest (store arr idx v) (S idx) maxN) as Hp.
          pose proof (read_floats_length stof rest (store arr idx v) (S idx) maxN) as Hl.
          fold arr1 in Hl. rewrite store_length in Hl.
          destruct (read_floats stof rest (store arr idx v) (S idx) maxN)
            as [[ok a1] n1] eqn:E1.
          cbn [fst snd] in arr1. destruct Hp as (_ & _ & Hp).
          apply (nth_ext _ _ v v); [apply store_length|].
          intros n Hn. rewrite store_length in Hn.
          destruct (Nat.eq_dec n idx) as [->|Hne].
          - rewrite nth_store_same by exact Hn.
            unfold arr1. rewrite Hp by lia.
            rewrite nth_store_same by lia. reflexivity.
          - now apply nth_store. }
        rewrite Es. apply IH.
      * cbn [fst snd read_floats]. rewrite ?Elim, ?Etrim, ?Ev. reflexivity.
Qed.

Lemma segments_after_again b (arr : list F) :
  segments_after stof b (segments_after stof b arr) = segments_after stof b arr.
Proof.
  unfold segments_after, extract_json_array_floats.
  destruct (index 0 (quoted "segments") b) as [k|]; [|reflexivity].
  destruct (index k "[" b) as [lb|]; [|reflexivity].
  destruct (index k "]" b) as [rb|]; [|reflexivity].
  destruct (rb <=? lb)%nat; [reflexivity|].
  match goal with
  | |- context [read_floats stof ?vals arr O SEGMENTS] =>
    pose proof (read_floats_again vals arr O SEGMENTS) as H;
    destruct (read_floats stof vals arr O SEGMENTS) as [[[|] arr1] n1];
    cbn [fst snd] in H |- *;
    destruct (read_floats stof vals arr1 O SEGMENTS) as [[[|] arr2] n2];
    exact H
  end.
Qed.

Lemma parse_fields_have_element b (g : Target F) :
  thaveElementColor (globals (parse_fields stof b g))
  = thaveElementColor g || is_some (supplied_elementColor b).
Proof.
  unfold parse_fields. pass_blocks (@thaveElementColor F).
  unfold read_elementColor at 1, supplied_elementColor.
  destruct (extract_json_string b "elementColor") as [ehex|];
    [destruct (parse_hex_color ehex); [cbn; now rewrite orb_true_r|]|];
    pass_blocks (@thaveElementColor F); cbn; now rewrite orb_false_r.
Qed.

Lemma parse_fields_have_background b (g : Target F) :
  thaveBackgroundColor (globals (parse_fields stof b g))
  = thaveBackgroundColor g || is_some (supplied_backgroundColor b).
Proof.
  unfold parse_fields.
  unfold read_backgroundColor at 1, supplied_backgroundColor.
  destruct (extract_json_string b "backgroundColor") as [bhex|];
    [destruct (parse_hex_color bhex); [cbn; now rewrite orb_true_r|]|];
    pass_blocks (@thaveBackgroundColor F); cbn; now rewrite orb_false_r.
Qed.

(** The globals the [try] block leaves, variable by variable. *)
Lemma read_fields_target b (g : Target F) :
  globals (read_fields stof b g)
  = let mode := match extract_json_string b "mode" with
                | Some mode => mode
                | None => tmodeStr g
                end in
    let col := match supplied_colour stof b with
               | Some col => col
               | None => tcolourLevel g
               end in
    let geo := match extract_json_string b "geometry" with
               | Some geom =>
                 match geometry_number geom with
                 | Some n => (n, geom)
                 | None => (tgeometryMode g, tgeomStr g)
                 end
               | None => (tgeometryMode g, tgeomStr g)
               end in
    let heat := (mode =? "heat")%string in
    let paint := heat || is_some (supplied_colour stof b) in
    mkTarget mode col
      (if heat then 0%Z else fst geo) (if heat then "ring" else snd geo)
      (segments_after stof b (tsegment g))
      (match extract_json_number stof b "width" with
       | Some w => clamp w (lit 0) (lit 100)
       | None => telementWidth g
       end)
      (match extract_json_number stof b "percent" with
       | Some pct => clamp pct (lit 0) (lit 1)
       | None => tpercent g
       end)
      (if heat then (lit 1, lit 1, lit 1)
       else match supplied_elementColor b with
            | Some rgb => rgb
            | None => telementColorRGB g
            end)
      (match supplied_backgroundColor b with
       | Some rgb => rgb
       | None => if paint then heat_colour_to_bg col else tbackgroundColorRGB g
       end)
      (heat || (thaveElementColor g || is_some (supplied_elementColor b)))
      (thaveBackgroundColor g || is_some (supplied_backgroundColor b) || paint)
      (updateTime g).
Proof.
  cbv zeta. unfold read_fields.
  pose proof (parse_fields_mode stof b g) as Hm.
  pose proof (parse_fields_colour stof b g) as Hc.
  pose proof (parse_fields_background stof b g) as Hb.
  pose proof (parse_fields_geometry stof b g) as Hgeo.
  pose proof (parse_fields_segments stof b g) as Hseg.
  pose proof (parse_fields_width stof b g) as Hw.
  pose proof (parse_fields_percent stof b g) as Hp.
  pose proof (parse_fields_element stof b g) as He.
  pose proof (parse_fields_have_element b g) as HhE.
  pose proof (parse_fields_have_background b g) as HhB.
  pose proof (parse_fields_stamp stof b g) as Hu.
  unfold mode_view, colour_view, background_view in *.
  destruct (parse_fields stof b g) as [gf an gc ge gb].
  destruct gf as [m c gm gs seg w p ec bc he hb u].
  cbn [globals gotColour gotBackgroundColor tmodeStr tcolourLevel tgeometryMode
       tgeomStr tsegment telementWidth tpercent telementColorRGB
       tbackgroundColorRGB thaveElementColor thaveBackgroundColor updateTime] in *.
  rewrite <- Hm, <- Hseg, <- Hw, <- Hp, <- Hu, <- HhE.
  clear Hm Hseg Hw Hp Hu HhE.
  assert (Ec : c = match supplied_colour stof b with
                   | Some col => col
                   | None => tcolourLevel g
                   end /\ gc = is_some (supplied_colour stof b)).
  { destruct (supplied_colour stof b); now inversion Hc. }
  destruct Ec as [Ec Egc]. rewrite <- Ec, <- Egc. clear Hc Ec Egc.
  rewrite <- Hgeo. cbn [fst snd]. clear Hgeo.
  rewrite <- He. clear He.
  unfold enforce_mode.
  cbn [globals gotColour gotBackgroundColor tmodeStr tcolourLevel any gotElementColor].
  destruct (supplied_backgroundColor b) as [rgb|];
    apply pair_equal_spec in Hb; destruct Hb as [-> ->]; rewrite HhB;
    destruct (m =? "heat")%string; destruct gc; cbn;
    rewrite ?orb_true_r, ?orb_false_r; reflexivity.
Qed.

Lemma read_fields_stamp b t (g : Target F) :
  globals (read_fields stof b (set_updateTime t g))
  = set_updateTime t (globals (read_fields stof b g)).
Proof. rewrite !read_fields_target. reflexivity. Qed.

Lemma read_fields_again b (g : Target F) :
  globals (read_fields stof b (globals (read_fields stof b g)))
  = globals (read_fields stof b g).
Proof.
  rewrite (read_fields_target b (globals (read_fields stof b g))).
  rewrite !(read_fields_target b g). cbv zeta.
  cbn [tmodeStr tcolourLevel tgeometryMode tgeomStr tsegment telementWidth tpercent
       telementColorRGB tbackgroundColorRGB thaveElementColor thaveBackgroundColor
       updateTime].
  rewrite segments_after_again.
  destruct (extract_json_string b "mode") as [mode|];
    destruct (supplied_colour stof b) as [col|];
    destruct (supplied_elementColor b) as [ergb|];
    destruct (supplied_backgroundColor b) as [brgb|];
    (destruct (extract_json_string b "geometry") as [geom|];
     [destruct (geometry_number geom) as [n|]|]);
    cbn [fst snd is_some];
    repeat match goal with
           | |- context [(?x =? "heat")%string] => destruct (x =? "heat")%string
           end;
    cbn [orb]; rewrite ?orb_true_r, ?orb_false_r;
    f_equal;
    repeat match goal with
           | |- context [match ?x with _ => _ end] => destruct x
           end;
    try reflexivity;
    destruct (thaveElementColor g), (thaveBackgroundColor g); reflexivity.
Qed.

End Again.


(** X24.  A request sent twice leaves the target the first one left, with the
    time stamp of the second when it is answered 200, and gets the same
    answer. *)
Theorem same_request_twice_is_once
  {F : Type} {float_ops : Float F} (stof : string -> option F)
  (token b : string) (t1 t2 : F) (g : Target F) :
  snd (post_update stof token b t2 (snd (post_update stof token b t1 g)))
  = snd (post_update stof token b t2 g)
  /\ fst (post_update stof token b t2 (snd (post_update stof token b t1 g)))
     = fst (post_update stof token b t1 g).
Proof.
  destruct (String.eqb_spec token API_TOKEN) as [->|Htok].
  - split; [|now rewrite !post_update_answer].
    rewrite !post_update_target.
    destruct (code_recognized stof b).
    + now rewrite read_fields_stamp, read_fields_again.
    + apply read_fields_again.
  - rewrite !post_update_unauthorized by assumption. split; [reflexivity|].
    unfold post_update.
    destruct (String.eqb_spec token API_TOKEN) as [?|_]; [contradiction|reflexivity].
Qed.

(** ** From the request to the display, in exact arithmetic *)










(** ** Not a number *)

Lemma approach_nan (x tx rate dt : spec_float) :
  x = S754_nan \/ tx = S754_nan -> approach x tx rate dt = S754_nan.
Proof.
  unfold approach, clamp. cbn [f_add f_sub f_mul f_neg f_lt binary32].
  intros [-> | ->].
  - assert (E : SFsub prec emax tx S754_nan = S754_nan) by (destruct tx; reflexivity).
    rewrite E. reflexivity.
  - assert (E : SFsub prec emax S754_nan x = S754_nan) by reflexivity.
    rewrite E.
    assert (E1 : SFltb S754_nan (SFmul prec emax (SFopp rate) dt) = false)
      by reflexivity.
    rewrite E1.
    assert (E2 : forall y, SFltb y S754_nan = false) by (intros y; destruct y; reflexivity).
    rewrite E2. destruct x; reflexivity.
Qed.

Section NaN.

Variable stof : string -> option spec_float.

Lemma step_width_nan (w : Globals spec_float) (e : Event spec_float) :
  elementWidth (live w) = S754_nan -> elementWidth (live (step stof w e)) = S754_nan.
Proof.
  intros H. destruct e as [token body|elapsed].
  - unfold step, serve.
    destruct (post_update stof token body (t w) (target w)) as [res g].
    exact H.
  - unfold step, frame. cbn [live interpolate elementWidth].
    apply approach_nan. now left.
Qed.

Lemma run_width_nan (es : list (Event spec_float)) : forall w,
  elementWidth (live w) = S754_nan -> elementWidth (live (run stof es w)) = S754_nan.
Proof.
  induction es as [|e es IH]; intros w H; [exact H|].
  apply IH, step_width_nan, H.
Qed.

End NaN.

(** X26.  In single precision: when [stof] delivers a NaN for the width of a
    request with the valid token, the target width becomes that NaN, the
    next iteration of the main loop makes the live width a NaN, and no later
    request and no later iteration changes the live width again. *)
Theorem nan_width_is_never_left
  (stof : string -> option spec_float) (b : string) (w : Globals spec_float)
  (elapsed : spec_float) (es : list (Event spec_float)) :
  extract_json_number stof b "width" = Some S754_nan ->
  let w1 := snd (serve stof API_TOKEN b w) in
  fst (serve stof API_TOKEN b w) = OK
  /\ telementWidth (target w1) = S754_nan
  /\ elementWidth (live (run stof es (frame elapsed w1))) = S754_nan.
Proof.
  intros E. cbv zeta.
  assert (Hok : fst (post_update stof API_TOKEN b (t w) (target w)) = OK).
  { rewrite post_update_answer. unfold code_recognized. rewrite E.
    cbn [is_some]. now rewrite ?orb_true_r. }
  assert (Hw : telementWidth (snd (post_update stof API_TOKEN b (t w) (target w)))
               = S754_nan).
  { rewrite (post_update_reads stof (@telementWidth spec_float)) by reflexivity.
    rewrite parse_fields_width, E.
    unfold clamp. cbn [f_lt binary32].
    assert (E2 : forall y, SFltb y S754_nan = false)
      by (intros y; destruct y; reflexivity).
    now rewrite E2. }
  unfold serve.
  destruct (post_update stof API_TOKEN b (t w) (target w)) as [res g].
  cbn [fst snd] in *. cbn [target].
  split; [exact Hok|]. split; [exact Hw|].
  apply run_width_nan. unfold frame. cbn [live target interpolate elementWidth].
  apply approach_nan. now right.
Qed.

Lemma nan_width_is_never_left_witness :
  let w1 := snd (serve stof_nan API_TOKEN body_width_nan initial_globals) in
  fst (serve stof_nan API_TOKEN body_width_nan initial_globals) = OK
  /\ telementWidth (target w1) = S754_nan
  /\ elementWidth
       (live (run stof_nan [Request API_TOKEN body_width_60; Tick (lit 0.1)]
                (frame (lit 0.025) w1))) = S754_nan.
Proof.
  apply (nan_width_is_never_left stof_nan body_width_nan initial_globals
           (lit 0.025) [Request API_TOKEN body_width_60; Tick (lit 0.1)]).
  reflexivity.
Defined.
